(** * Commercial-Construction-Dashboard: aggregation, trend and scoring core

    A shallow embedding of the pure computations of the four dashboard
    scripts (descriptive, diagnostic, predictive, prescriptive) and the
    proofs of their documented properties.

    Numbers.  A JavaScript number is modelled by [num]: a real number, one
    of the two infinities, or NaN.  The arithmetic of finite numbers is
    exact real arithmetic: the rounding error and the overflow of IEEE-754
    doubles, and the sign of zero, are not represented.  An equation
    [... = Num x] therefore gives the value of an expression in exact
    arithmetic; it does not say that the double that the program computes
    is finite, since a sum, a difference or a product of finite doubles can
    overflow to an infinity.

    Objects.  A plain object that is used as a map from texts to numbers is
    modelled by the map of its own numeric properties, and read through
    [get], which follows the prototype chain: under a name such as
    "constructor" or "__proto__" a read that finds no own property gives
    the member of [Object.prototype], which is no number.  Objects keyed by
    a year or by the number of a month are read by own property, their
    keys being numerals or "NaN".

    Texts.  A text is the list of the bytes of its UTF-8 encoding; the
    white space of [trim()] is that of ECMAScript, Unicode included.

    Dates.  A date column of a CSV row is modelled by what [new Date(s)]
    makes of the text: blank, unparsable, or a time value in milliseconds.
    Calendar fields ([getFullYear], [getMonth]) are read in UTC. *)

From Stdlib Require Import Reals Lra Lia ZArith Ascii String.
From stdpp Require Import base option list gmap strings sorting.

(* ===================================================================== *)
(** ** JavaScript numbers *)
(* ===================================================================== *)

Module JS.

Inductive num : Type :=
  | Num (x : R)
  | PInf
  | NInf
  | NaN.

Inductive sign : Type := Neg | Zero | Pos.

Definition Rltb (x y : R) : bool := if Rlt_dec x y then true else false.
Definition Rleb (x y : R) : bool := if Rle_dec x y then true else false.
Definition Reqb (x y : R) : bool := if Req_dec_T x y then true else false.

Definition Rsign (x : R) : sign :=
  if Rltb x 0 then Neg else if Rltb 0 x then Pos else Zero.

Definition sign_mul (s t : sign) : sign :=
  match s, t with
  | Zero, _ | _, Zero => Zero
  | Pos, Pos | Neg, Neg => Pos
  | _, _ => Neg
  end.

Definition inf_of_sign (s : sign) : num :=
  match s with Pos => PInf | Neg => NInf | Zero => NaN end.

(** Sign of a number that is not NaN ([Zero] is returned for NaN and is
    never used there). *)
Definition sgn (a : num) : sign :=
  match a with
  | Num x => Rsign x
  | PInf => Pos
  | NInf => Neg
  | NaN => Zero
  end.

(** [isFinite(a)] and [isNaN(a)] *)
Definition isFinite (a : num) : bool :=
  match a with Num _ => true | _ => false end.

Definition isNaN (a : num) : bool :=
  match a with NaN => true | _ => false end.

(** Truthiness of a number: [0] and [NaN] are falsy. *)
Definition truthy (a : num) : bool :=
  match a with
  | Num x => negb (Reqb x 0)
  | NaN => false
  | _ => true
  end.

(** [a || b] on numbers *)
Definition or_else (a b : num) : num := if truthy a then a else b.

(** An absent property reads [undefined]; as a number that is NaN. *)
Definition to_num (o : option num) : num := default NaN o.

(** [o || b] where [o] is a property that may be absent *)
Definition or_default (o : option num) (b : num) : num :=
  match o with Some a => or_else a b | None => b end.

Definition neg (a : num) : num :=
  match a with
  | Num x => Num (- x)
  | PInf => NInf
  | NInf => PInf
  | NaN => NaN
  end.

(** [a + b]; on two finite numbers the sum in exact arithmetic, where the
    double of the program is rounded and, past the largest double, an
    infinity *)
Definition add (a b : num) : num :=
  match a, b with
  | NaN, _ | _, NaN => NaN
  | Num x, Num y => Num (x + y)
  | PInf, NInf | NInf, PInf => NaN
  | PInf, _ | _, PInf => PInf
  | NInf, _ | _, NInf => NInf
  end.

Definition sub (a b : num) : num := add a (neg b).

Definition mul (a b : num) : num :=
  match a, b with
  | NaN, _ | _, NaN => NaN
  | Num x, Num y => Num (x * y)
  | _, _ => inf_of_sign (sign_mul (sgn a) (sgn b))
  end.

Definition div (a b : num) : num :=
  match a, b with
  | NaN, _ | _, NaN => NaN
  | Num x, Num y => if Reqb y 0 then inf_of_sign (Rsign x) else Num (x / y)
  | Num _, _ => Num 0
  | _, Num y => inf_of_sign (sign_mul (sgn a) (if Reqb y 0 then Pos else Rsign y))
  | _, _ => NaN
  end.

(** [a < b], [a <= b], [a > b], [a >= b]: false as soon as one side is NaN *)
Definition lt (a b : num) : bool :=
  match a, b with
  | NaN, _ | _, NaN => false
  | Num x, Num y => Rltb x y
  | NInf, NInf => false
  | NInf, _ => true
  | _, NInf => false
  | PInf, _ => false
  | Num _, PInf => true
  end.

Definition le (a b : num) : bool :=
  match a, b with
  | NaN, _ | _, NaN => false
  | Num x, Num y => Rleb x y
  | NInf, _ => true
  | _, PInf => true
  | _, _ => false
  end.

Definition gt (a b : num) : bool := lt b a.
Definition ge (a b : num) : bool := le b a.

(** [Math.max(a, b)], [Math.min(a, b)]: NaN as soon as one side is NaN *)
Definition Math_max (a b : num) : num :=
  match a, b with
  | NaN, _ | _, NaN => NaN
  | _, _ => if lt a b then b else a
  end.

Definition Math_min (a b : num) : num :=
  match a, b with
  | NaN, _ | _, NaN => NaN
  | _, _ => if lt b a then b else a
  end.

(** [Math.log10(a)] *)
Definition Math_log10 (a : num) : num :=
  match a with
  | Num x => if Rltb 0 x then Num (ln x / ln 10)
             else if Reqb x 0 then NInf else NaN
  | PInf => PInf
  | _ => NaN
  end.

(** [Math.round(a)]: the integer nearest to [a], ties towards +Infinity *)
Definition Math_round (a : num) : num :=
  match a with
  | Num x => Num (IZR (Int_part (x + / 2)))
  | _ => a
  end.

(** [clamp(v, lo, hi) = Math.max(lo, Math.min(hi, v))] (prescriptive.js) *)
Definition clamp (v lo hi : num) : num := Math_max lo (Math_min hi v).

(** A count (array length, counter) as a number *)
Definition of_nat (n : nat) : num := Num (INR n).
Definition of_Z (z : Z) : num := Num (IZR z).

(** [arr.reduce((a, b) => a + b, 0)] *)
Definition sum (l : list num) : num := foldl add (Num 0) l.

(** *** Dates *)

(** The text of a date column, by what [new Date(s)] makes of it. *)
Inductive date_text : Type :=
  | Blank                      (* the empty string *)
  | Text (t : option Z).       (* non-empty; [None]: it does not parse *)

(** A [Date] object is its time value: milliseconds since the epoch, or
    [None] for the NaN of an Invalid Date. *)
Definition Date : Type := option Z.

Definition new_Date (s : date_text) : Date :=
  match s with
  | Text (Some t) => Some t
  | _ => None
  end.

(** [isNaN(d)] on a Date *)
Definition Date_isNaN (d : Date) : bool :=
  match d with Some _ => false | None => true end.

(** [a - b] on two Dates *)
Definition Date_sub (a b : Date) : num :=
  match a, b with
  | Some x, Some y => Num (IZR (x - y))
  | _, _ => NaN
  end.

Definition ms_per_day : Z := 1000 * 60 * 60 * 24.

(** Days since 1970-01-01 to (year, month 1..12, day), proleptic
    Gregorian calendar. *)
Definition civil_from_days (z : Z) : Z * Z * Z :=
  let z := (z + 719468)%Z in
  let era := (z / 146097)%Z in
  let doe := (z - era * 146097)%Z in
  let yoe := ((doe - doe / 1460 + doe / 36524 - doe / 146096) / 365)%Z in
  let doy := (doe - (365 * yoe + yoe / 4 - yoe / 100))%Z in
  let mp := ((5 * doy + 2) / 153)%Z in
  let d := (doy - (153 * mp + 2) / 5 + 1)%Z in
  let m := (if mp <? 10 then mp + 3 else mp - 9)%Z in
  ((yoe + era * 400 + (if m <=? 2 then 1 else 0))%Z, m, d).

Definition days_from_civil (y m d : Z) : Z :=
  let y := (if m <=? 2 then y - 1 else y)%Z in
  let era := (y / 400)%Z in
  let yoe := (y - era * 400)%Z in
  let doy := ((153 * (if 2 <? m then m - 3 else m + 9) + 2) / 5 + d - 1)%Z in
  let doe := (yoe * 365 + yoe / 4 - yoe / 100 + doy)%Z in
  (era * 146097 + doe - 719468)%Z.

(** Time value of midnight UTC of a calendar day, as the parser returns it
    for a date-only ISO string such as 2023-02-15. *)
Definition utc (y m d : Z) : Z := (days_from_civil y m d * ms_per_day)%Z.
Definition iso (y m d : Z) : date_text := Text (Some (utc y m d)).

Definition year_of_ms (t : Z) : Z := (civil_from_days (t / ms_per_day)).1.1.
Definition month_of_ms (t : Z) : nat :=
  Z.to_nat ((civil_from_days (t / ms_per_day)).1.2 - 1).

(** [d.getFullYear()]: [None] is the NaN of an Invalid Date.  As a property
    name, [None] is the key "NaN". *)
Definition getFullYear (d : Date) : option Z := year_of_ms <$> d.

(** *** Objects keyed by a year *)

(** The key of these objects is a number, the result of [getFullYear()]:
    its property name is a numeral or "NaN", which names no member of
    [Object.prototype], so that a read finds an own property or nothing. *)

(** [m[y] = (m[y] || 0) + v] *)
Definition obj_add (m : gmap (option Z) num) (k : option Z) (v : num)
  : gmap (option Z) num :=
  <[k := add (or_default (m !! k) (Num 0)) v]> m.

(** [out[y] = sums[y] / counts[y]] for every key of [sums] *)
Definition obj_ratio (sums counts : gmap (option Z) num) : gmap (option Z) num :=
  map_imap (fun k s => Some (div s (to_num (counts !! k)))) sums.

(** *** Plain objects keyed by a text *)

(** A plain object ([{}], an object literal) inherits the members of
    [Object.prototype].  Under one of these names a read that finds no own
    property gives the inherited member: a function, and under "__proto__"
    the object [Object.prototype] itself. *)
Definition Object_prototype : list string :=
  ["constructor"; "__defineGetter__"; "__defineSetter__"; "hasOwnProperty";
   "__lookupGetter__"; "__lookupSetter__"; "isPrototypeOf";
   "propertyIsEnumerable"; "toString"; "valueOf"; "__proto__";
   "toLocaleString"].

Definition inherited (k : string) : bool := bool_decide (k ∈ Object_prototype).

(** What [o[k]] gives.  [VOther] is a value that is no number: an inherited
    member, or the string that [(o[k] || 0) + v] makes of such a member and
    stores in its place.  It is truthy, and NaN as a number.  The map of an
    object holds its own properties that are numbers; a string is only ever
    stored under the name of a member, where the read is [VOther] with or
    without it. *)
Inductive value : Type :=
  | VNum (a : num)
  | VOther
  | VUndefined.

(** [o[k]] *)
Definition get (o : gmap string num) (k : string) : value :=
  match o !! k with
  | Some a => VNum a
  | None => if inherited k then VOther else VUndefined
  end.

(** [v || b] *)
Definition or_num (v : value) (b : num) : value :=
  match v with
  | VNum a => VNum (or_else a b)
  | VOther => VOther
  | VUndefined => VNum b
  end.

(** The number that arithmetic, [Math.max], [Math.min] and a comparison
    with a number make of a value *)
Definition Number (v : value) : num :=
  match v with
  | VNum a => a
  | _ => NaN
  end.

(** [o[k] = a] for a number [a]: under "__proto__" the assignment reaches
    the setter of [Object.prototype], which ignores a number, unless the
    object has an own property of that name. *)
Definition put (o : gmap string num) (k : string) (a : num) : gmap string num :=
  if decide (k = "__proto__")
  then match o !! k with
       | Some _ => <[k := a]> o
       | None => o
       end
  else <[k := a]> o.

(** [m[k] = (m[k] || 0) + v] for a number [v]: on a member of
    [Object.prototype] the sum is a string, which is stored in its place
    (under "__proto__" it is dropped) and leaves the numbers of the object
    as they are. *)
Definition str_add (m : gmap string num) (k : string) (v : num) : gmap string num :=
  match or_num (get m k) (Num 0) with
  | VNum a => <[k := add a v]> m
  | _ => m
  end.

(** [arr[i] += v] on a fixed-length array *)
Definition arr_add (arr : list num) (i : nat) (v : num) : list num :=
  alter (fun a => add a v) i arr.

(** [sums.map((s, i) => counts[i] ? s / counts[i] : 0)] *)
Definition arr_ratio (sums counts : list num) : list num :=
  imap (fun i s => let c := to_num (counts !! i) in
                   if truthy c then div s c else Num 0) sums.

End JS.

(* ===================================================================== *)
(** ** Rows *)
(* ===================================================================== *)

Module Data.
Import JS.

(** A project row after the loader's coercions ([+d.planned_budget],
    [d.actual_end || ""]). *)
Record project : Type := Project {
  project_id : string;
  start_date : date_text;
  planned_end : date_text;
  actual_end : date_text;
  planned_budget : num;
  actual_cost : num
}.

(** A change-order row after the loader's coercions. *)
Record change_order : Type := ChangeOrder {
  co_project_id : string;
  co_cost : num;
  co_reason : string;
  co_date : date_text
}.

(** [const parseDate = (s) => (s ? new Date(s) : null)]; [None] is null. *)
Definition parseDate (s : date_text) : option Date :=
  match s with
  | Blank => None
  | Text _ => Some (new_Date s)
  end.

(** [r.project_id || "__missing__"] *)
Definition id_or_missing (id : string) : string :=
  if decide (id = "") then "__missing__" else id.

(** The literal [1000*60*60*24] *)
Definition day_ms : num := of_Z ms_per_day.

End Data.

(* ===================================================================== *)
(** ** Predictive dashboard *)
(* ===================================================================== *)

Module Predictive.
Import JS Data.

(** [const mean = (arr) => arr.length ? arr.reduce((a,b)=>a+b,0)/arr.length : 0] *)
Definition mean (arr : list num) : num :=
  match arr with
  | [] => Num 0
  | _ => div (sum arr) (of_nat (length arr))
  end.

(** One turn of the [forEach] of [avgActualCostByYear], on the running sums and
    counts *)
Definition avgActualCostByYear_step
    (st : gmap (option Z) num * gmap (option Z) num) (r : project)
  : gmap (option Z) num * gmap (option Z) num :=
  let y := getFullYear (new_Date (start_date r)) in
  if negb (isFinite (actual_cost r)) then st
  else (obj_add st.1 y (actual_cost r), obj_add st.2 y (Num 1)).

(** The running sums and counts of [avgActualCostByYear] after all rows *)
Definition avgActualCostByYear_acc (rows : list project)
  : gmap (option Z) num * gmap (option Z) num :=
  foldl avgActualCostByYear_step (∅, ∅) rows.

Definition avgActualCostByYear (rows : list project) : gmap (option Z) num :=
  let st := avgActualCostByYear_acc rows in
  obj_ratio st.1 st.2.

(** One turn of the [forEach] of [avgScheduleVarianceByYear], on the
    running sums and counts *)
Definition avgScheduleVarianceByYear_step
    (st : gmap (option Z) num * gmap (option Z) num) (r : project)
  : gmap (option Z) num * gmap (option Z) num :=
  match parseDate (planned_end r), parseDate (actual_end r) with
  | Some pe, Some ae =>
      if Date_isNaN pe || Date_isNaN ae then st
      else
        let y := getFullYear (new_Date (start_date r)) in
        let days := div (Date_sub ae pe) day_ms in
        (obj_add st.1 y days, obj_add st.2 y (Num 1))
  | _, _ => st
  end.

(** The running sums and counts of [avgScheduleVarianceByYear] after all rows *)
Definition avgScheduleVarianceByYear_acc (rows : list project)
  : gmap (option Z) num * gmap (option Z) num :=
  foldl avgScheduleVarianceByYear_step (∅, ∅) rows.

Definition avgScheduleVarianceByYear (rows : list project) : gmap (option Z) num :=
  let st := avgScheduleVarianceByYear_acc rows in
  obj_ratio st.1 st.2.

(** The result of [linReg]: [{a, b, xs, ys}] *)
Record regression : Type := Regression {
  reg_a : num;
  reg_b : num;
  reg_xs : list Z;
  reg_ys : list num
}.

(** [linReg(seriesObj)].  The series is keyed by integer years: the key
    "NaN", which the year rollups create for an unparsable start date, is
    not part of the model (the order that [sort] gives it is left to the
    engine). *)
Definition linReg (seriesObj : gmap Z num) : regression :=
  let xs := merge_sort Z.le (map_to_list seriesObj).*1 in
  let ys := (fun x => to_num (seriesObj !! x)) <$> xs in
  let xn := of_Z <$> xs in
  if decide (length xs < 2)%nat
  then Regression (or_default (ys !! 0%nat) (Num 0)) (Num 0) xs ys
  else
    let n := of_nat (length xs) in
    let sx := foldl (fun a b => add a b) (Num 0) xn in
    let sy := foldl (fun a b => add a b) (Num 0) ys in
    let sxx := foldl (fun a b => add a (mul b b)) (Num 0) xn in
    let sxy :=
      foldl (fun a i => add a (mul (to_num (xn !! i)) (to_num (ys !! i))))
            (Num 0) (seq 0 (length xs)) in
    let b := div (sub (mul n sxy) (mul sx sy))
                 (Math_max (Num 1) (sub (mul n sxx) (mul sx sx))) in
    let a := div (sub sy (mul b sx)) n in
    Regression a b xs ys.

(** [forecastNextYears(a, b, lastYear, horizon)]: the loop
    [for (let i=1; i<=horizon; i++)] pushes one label and one value. *)
Definition forecastNextYears (a b lastYear : num) (horizon : Z)
  : list num * list num :=
  foldl (fun (out : list num * list num) (i : nat) =>
           let y := add lastYear (of_nat i) in
           (out.1 ++ [y], out.2 ++ [add a (mul b y)]))
        ([], []) (seq 1 (Z.to_nat horizon)).

(** The result of [portfolioOverrunProbability]: [{base, adj}] *)
Record overrun_probability : Type := OverrunProbability {
  base : num;
  adj : num
}.

(** The filter of [portfolioOverrunProbability]:
    [isFinite(r.planned_budget) && r.planned_budget>0 && isFinite(r.actual_cost)] *)
Definition eligible (r : project) : bool :=
  isFinite (planned_budget r) && gt (planned_budget r) (Num 0)
  && isFinite (actual_cost r).

(** [(pe&&ae)? (ae-pe)/(1000*60*60*24) : NaN] *)
Definition schedule_variance (r : project) : num :=
  match parseDate (planned_end r), parseDate (actual_end r) with
  | Some pe, Some ae => div (Date_sub ae pe) day_ms
  | _, _ => NaN
  end.

Definition portfolioOverrunProbability (rows : list project)
  : overrun_probability :=
  let elig := filter (fun r => eligible r = true) rows in
  let over :=
    length (filter (fun r => gt (actual_cost r) (planned_budget r) = true) elig) in
  let base := match elig with
              | [] => Num 0
              | _ => div (of_nat over) (of_nat (length elig))
              end in
  let schedVar :=
    mean (filter (fun v => isFinite v = true) (schedule_variance <$> rows)) in
  let adj := Math_min (Num 1)
               (Math_max (Num 0)
                  (add base (if gt schedVar (Num 0) then Num 0.05 else Num (-0.02)))) in
  OverrunProbability base adj.

Definition ruleRiskScore (row : project) (coMap : gmap string num) : num :=
  let size := Math_log10 (Math_max (Num 1) (planned_budget row)) in
  let slipDays :=
    match parseDate (planned_end row), parseDate (actual_end row) with
    | Some pe, Some ae => Math_max (Num 0) (div (Date_sub ae pe) day_ms)
    | _, _ => Num 0
    end in
  let coTotal := or_num (get coMap (project_id row)) (Num 0) in
  let score := add (add (mul (Num 20) size) (mul (Num 0.05) slipDays))
                   (mul (Num 0.000005) (Number coTotal)) in
  Math_min (Num 100) (Math_round score).

Definition changeOrderTotalsByProject (cos : list change_order) : gmap string num :=
  foldl (fun m r =>
           let k := id_or_missing (co_project_id r) in
           let c := if isFinite (co_cost r) then co_cost r else Num 0 in
           str_add m k c)
        ∅ cos.

(** From [render]: the scores of all projects *)
Definition riskScores (projects : list project) (cos : list change_order) : list num :=
  let coTotals := changeOrderTotalsByProject cos in
  (fun p => ruleRiskScore p coTotals) <$> projects.

(** [hist[i]++] *)
Definition bump (i : nat) (hist : list nat) : list nat := alter S i hist.

(** From [render]: the risk histogram over the five bins labelled
    0–20, 21–40, 41–60, 61–80, 81–100; one turn of [scores.forEach] *)
Definition riskHistogram_step (hist : list nat) (s : num) : list nat :=
  if le s (Num 20) then bump 0 hist
  else if le s (Num 40) then bump 1 hist
  else if le s (Num 60) then bump 2 hist
  else if le s (Num 80) then bump 3 hist
  else bump 4 hist.

Definition riskHistogram (scores : list num) : list nat :=
  foldl riskHistogram_step (replicate 5 0%nat) scores.

(** From [render]: [scores.filter(s => s>=70).length] *)
Definition atRiskCount (scores : list num) : nat :=
  length (filter (fun s => ge s (Num 70) = true) scores).

End Predictive.

(* ===================================================================== *)
(** ** Prescriptive dashboard *)
(* ===================================================================== *)

Module Prescriptive.
Import JS Data.

(** The results of the successive calls of [Math.random()], each in
    [0, 1). *)
Definition rng : Type := nat -> R.

(** [const randJitter = (amt) => (Math.random() * 2 - 1) * amt], on the
    result [u] of the call of [Math.random()]. *)
Definition randJitter (u : R) (amt : num) : num :=
  mul (sub (mul (Num u) (Num 2)) (Num 1)) amt.

Definition changeOrderTotals (cos : list change_order) : gmap string num :=
  foldl (fun m r =>
           let k := id_or_missing (co_project_id r) in
           let c := if isFinite (co_cost r) then co_cost r else Num 0 in
           str_add m k c)
        ∅ cos.

Definition scheduleSlipDays (p : project) : num :=
  match parseDate (planned_end p), parseDate (actual_end p) with
  | Some pe, Some ae =>
      if Date_isNaN pe || Date_isNaN ae then Num 0
      else div (Date_sub ae pe) day_ms
  | _, _ => Num 0
  end.

Definition costOverrun (p : project) : num :=
  if negb (isFinite (planned_budget p)) || negb (isFinite (actual_cost p))
  then Num 0
  else sub (actual_cost p) (planned_budget p).

(** [d3.min(values)] and [d3.max(values)]: NaN entries are passed over;
    [None] is the [undefined] of an array without a comparable entry. *)
Definition d3_min (vs : list num) : option num :=
  foldl (fun mn v =>
           match mn with
           | None => if ge v v then Some v else None
           | Some m => if gt m v then Some v else mn
           end) None vs.

Definition d3_max (vs : list num) : option num :=
  foldl (fun mx v =>
           match mx with
           | None => if ge v v then Some v else None
           | Some m => if lt m v then Some v else mx
           end) None vs.

(** The raw composite of one project (the body of [ps.map] in
    [computeRiskScores]). *)
Definition raw_composite (p : project) (coMap : gmap string num) : num :=
  let size := Math_log10 (Math_max (Num 1) (planned_budget p)) in
  let slip := Math_max (Num 0) (scheduleSlipDays p) in
  let over := Math_max (Num 0) (costOverrun p) in
  let co :=
    Math_max (Num 0) (Number (or_num (get coMap (project_id p)) (Num 0))) in
  let coTerm :=
    Math_log10 (add (Num 1) (div co (Math_max (Num 1) (planned_budget p)))) in
  let overTerm :=
    Math_log10 (add (Num 1) (div over (Math_max (Num 1) (planned_budget p)))) in
  let slipTerm := div slip (Num 60) in
  let sizeTerm := sub size (Num 4.5) in
  add (add (add (mul (Num 18) sizeTerm) (mul (Num 15) slipTerm))
           (mul (Num 22) coTerm))
      (mul (Num 18) overTerm).

(** [computeRiskScores(ps, coMap)]; the [k]-th project of the cohort draws
    the [k]-th random number. *)
Definition computeRiskScores (rnd : rng) (ps : list project)
    (coMap : gmap string num) : gmap string num :=
  let raws := (fun p => (project_id p, raw_composite p coMap)) <$> ps in
  let mn := to_num (d3_min raws.*2) in
  let mx := to_num (d3_max raws.*2) in
  let span := or_else (sub mx mn) (Num 1) in
  (foldl (fun (st : gmap string num * nat) (r : string * num) =>
            (put st.1 r.1
                 (clamp (add (mul (div (sub r.2 mn) span) (Num 100))
                             (randJitter (rnd st.2) (Num 2)))
                        (Num 0) (Num 100)),
             S st.2))
         (∅, 0%nat) raws).1.

(** [chooseAction(p, coTot, slip, over)]; [u] is the result of the call of
    [Math.random()] in the branches that make one. *)
Definition chooseAction (u : R) (p : project) (coTot slip over : num) : string :=
  let plan := Math_max (Num 1) (planned_budget p) in
  let coShare := div coTot (Math_max (Num 1) (add over coTot)) in
  let overPct := div over plan in
  if ge coShare (Num 0.55) && ge overPct (Num 0.03) then
    if lt (Num u) (Num 0.6) then "Scope alignment" else "Design clarification"
  else if ge slip (Num 45) && lt overPct (Num 0.05) then
    "Schedule tune-up"
  else if ge plan (Num 5000000)
          && (ge overPct (Num 0.02) || ge coShare (Num 0.35)) then
    "Supplier/subcontractor review"
  else
    if lt (Num u) (Num 0.5) then "Design clarification" else "Schedule tune-up".

Definition estimateSavings (p : project) (cat : string) (over coTot : num) : num :=
  let plan := Math_max (Num 1) (planned_budget p) in
  let pct :=
    if decide (cat = "Scope alignment") then
      add (Num 0.10) (Math_min (Num 0.06) (div coTot plan))
    else if decide (cat = "Design clarification") then Num 0.07
    else if decide (cat = "Supplier/subcontractor review") then Num 0.05
    else if decide (cat = "Schedule tune-up") then
      add (Num 0.03)
          (Math_min (Num 0.02)
             (div (Math_max (Num 0) (scheduleSlipDays p)) (Num 180)))
    else Num 0.04 in
  let base := add over coTot in
  let capped := Math_min (mul (Num 0.07) plan) (mul pct base) in
  Math_max (Num 0) capped.

(** [CAT_PROFILE]: the impact band and the effort band of a category *)
Definition CAT_PROFILE (cat : string) : option ((num * num) * (num * num)) :=
  if decide (cat = "Scope alignment") then
    Some ((Num 0.75, Num 0.95), (Num 0.45, Num 0.7))
  else if decide (cat = "Design clarification") then
    Some ((Num 0.55, Num 0.8), (Num 0.35, Num 0.55))
  else if decide (cat = "Supplier/subcontractor review") then
    Some ((Num 0.45, Num 0.7), (Num 0.45, Num 0.65))
  else if decide (cat = "Schedule tune-up") then
    Some ((Num 0.35, Num 0.55), (Num 0.25, Num 0.45))
  else None.

(** [sampleRange([lo,hi])]
    [= clamp(lo + Math.random()*(hi-lo) + randJitter(0.02), 0, 1)];
    [u1] and [u2] are the results of the two calls of [Math.random()], in
    that order. *)
Definition sampleRange (u1 u2 : R) (range : num * num) : num :=
  clamp (add (add range.1 (mul (Num u1) (sub range.2 range.1)))
             (randJitter u2 (Num 0.02)))
        (Num 0) (Num 1).

End Prescriptive.

(* ===================================================================== *)
(** ** Diagnostic dashboard *)
(* ===================================================================== *)

Module Diagnostic.
Import JS Data.

(** *** Reason mapping *)

(** A text is held as the bytes of its UTF-8 encoding, which is what a
    string literal of this file is.  The white space that [trim()] removes
    is the code points of WhiteSpace and LineTerminator of ECMAScript, each
    given here by its encoding: U+0009 to U+000D, U+0020, U+00A0, U+1680,
    U+2000 to U+200A, U+2028, U+2029, U+202F, U+205F, U+3000 and U+FEFF. *)
Definition white_space : list (list ascii) :=
  Eval cbv in
    List.map (List.map ascii_of_nat)
    [[9]; [10]; [11]; [12]; [13]; [32];
     [194; 160];
     [225; 154; 128];
     [226; 128; 128]; [226; 128; 129]; [226; 128; 130]; [226; 128; 131];
     [226; 128; 132]; [226; 128; 133]; [226; 128; 134]; [226; 128; 135];
     [226; 128; 136]; [226; 128; 137]; [226; 128; 138];
     [226; 128; 168]; [226; 128; 169];
     [226; 128; 175];
     [226; 129; 159];
     [227; 128; 128];
     [239; 187; 191]]%nat.

(** The rest of [l] after the bytes [t], when [l] starts with them *)
Fixpoint after_prefix (t l : list ascii) : option (list ascii) :=
  match t with
  | [] => Some l
  | c :: t' =>
      match l with
      | d :: l' => if decide (c = d) then after_prefix t' l' else None
      | [] => None
      end
  end.

(** The rest of [l] after one of the tokens, when [l] starts with one *)
Fixpoint after_token (toks : list (list ascii)) (l : list ascii)
  : option (list ascii) :=
  match toks with
  | [] => None
  | t :: toks' =>
      match after_prefix t l with
      | Some l' => Some l'
      | None => after_token toks' l
      end
  end.

(** [l] without the tokens at its head; a token takes one unit of fuel.
    The length of [l] is fuel enough. *)
Fixpoint drop_tokens (fuel : nat) (toks : list (list ascii)) (l : list ascii)
  : list ascii :=
  match fuel with
  | O => l
  | S fuel' =>
      match after_token toks l with
      | Some l' => drop_tokens fuel' toks l'
      | None => l
      end
  end.

(** The encodings read backwards *)
Definition white_space_rev : list (list ascii) :=
  Eval cbv in List.map (@rev ascii) white_space.

(** White space dropped at the head, and at the end *)
Definition drop_space (l : list ascii) : list ascii :=
  drop_tokens (length l) white_space l.

Definition drop_space_end (l : list ascii) : list ascii :=
  rev (drop_tokens (length l) white_space_rev (rev l)).

Definition trim (s : string) : string :=
  string_of_list_ascii (drop_space_end (drop_space (list_ascii_of_string s))).

(** The zeros at the head of a list, counted, and the rest *)
Fixpoint span_zeros (l : list ascii) : nat * list ascii :=
  match l with
  | c :: l' =>
      if decide (c = "0"%char)
      then let r := span_zeros l' in (S r.1, r.2)
      else (0, l)%nat
  | [] => (0, [])%nat
  end.

(** [s.replace(/\.0+$/, "")]: a final dot followed by one or more zeros is
    removed. *)
Definition strip_dot_zeros (s : string) : string :=
  match span_zeros (rev (list_ascii_of_string s)) with
  | (S _, c :: rest) =>
      if decide (c = "."%char) then string_of_list_ascii (rev rest) else s
  | _ => s
  end.

(** What [REASON_MAP[k]] gives: the label of a code, a member that the
    object literal inherits from [Object.prototype] (a function, the
    prototype itself under "__proto__"), or [undefined]. *)
Inductive looked_up : Type :=
  | Label (l : string)
  | Member
  | NoLabel.

Definition REASON_MAP (k : string) : looked_up :=
  if decide (k = "0") then Label "Scope Change"
  else if decide (k = "1") then Label "Client Request"
  else if decide (k = "2") then Label "Unforeseen Conditions"
  else if decide (k = "3") then Label "Design Revision"
  else if inherited k then Member
  else NoLabel.

(** What the loader stores as [co_reason]: a text, or the member of
    [Object.prototype] that the lookup has found *)
Inductive reason : Type :=
  | Reason (text : string)
  | ReasonMember.

(** The [co_reason] computed by the loader for a CSV row; [None] is a row
    without that column.  A label and a member are truthy, so
    [REASON_MAP[raw] || REASON_MAP[numericish]] takes the second lookup
    only when the first gives [undefined]. *)
Definition normalizeReason (co_reason : option string) : reason :=
  let raw := trim (default "" co_reason) in
  let numericish := strip_dot_zeros raw in
  let mapped := match REASON_MAP raw with
                | NoLabel => REASON_MAP numericish
                | v => v
                end in
  match mapped with
  | Label l => Reason l
  | Member => ReasonMember
  | NoLabel => Reason (if decide (raw = "") then "Unspecified" else raw)
  end.

(** *** Derived metrics and rollups *)

Definition projectCostVarianceRatio (r : project) : num :=
  let p := planned_budget r in
  let a := actual_cost r in
  if negb (isFinite p) || le p (Num 0) || negb (isFinite a) then NaN
  else div (sub a p) p.

Definition schedVarAccessor (r : project) : num :=
  match parseDate (planned_end r), parseDate (actual_end r) with
  | Some pe, Some ae =>
      if Date_isNaN pe || Date_isNaN ae then NaN
      else div (Date_sub ae pe) day_ms
  | _, _ => NaN
  end.

(** One turn of the [forEach] of [rollupAvgByYear], on the running sums and
    counts *)
Definition rollupAvgByYear_step (accessor : project -> num)
    (st : gmap (option Z) num * gmap (option Z) num) (r : project)
  : gmap (option Z) num * gmap (option Z) num :=
  let v := accessor r in
  if negb (isFinite v) then st
  else
    let y := getFullYear (new_Date (start_date r)) in
    (obj_add st.1 y v, obj_add st.2 y (Num 1)).

(** The running sums and counts of [rollupAvgByYear] after all rows *)
Definition rollupAvgByYear_acc (rows : list project) (accessor : project -> num)
  : gmap (option Z) num * gmap (option Z) num :=
  foldl (rollupAvgByYear_step accessor) (∅, ∅) rows.

Definition rollupAvgByYear (rows : list project) (accessor : project -> num)
  : gmap (option Z) num :=
  let st := rollupAvgByYear_acc rows accessor in
  obj_ratio st.1 st.2.

(** One turn of the [forEach] of [rollupAvgByMonth], on the running sums and
    counts *)
Definition rollupAvgByMonth_step (year : Z) (accessor : project -> num)
    (st : list num * list num) (r : project) : list num * list num :=
  match new_Date (start_date r) with
  | None => st
  | Some t =>
      if negb (year_of_ms t =? year)%Z then st
      else
        let v := accessor r in
        if negb (isFinite v) then st
        else
          let m := month_of_ms t in
          (arr_add st.1 m v, arr_add st.2 m (Num 1))
  end.

(** The running sums and counts of [rollupAvgByMonth] after all rows *)
Definition rollupAvgByMonth_acc (rows : list project) (year : Z)
    (accessor : project -> num) : list num * list num :=
  foldl (rollupAvgByMonth_step year accessor)
        (replicate 12 (Num 0), replicate 12 (Num 0)) rows.

Definition rollupAvgByMonth (rows : list project) (year : Z)
    (accessor : project -> num) : list num :=
  let st := rollupAvgByMonth_acc rows year accessor in
  arr_ratio st.1 st.2.

Definition coTotalsPerProject (coRows : list change_order) : gmap string num :=
  foldl (fun m r =>
           let k := id_or_missing (co_project_id r) in
           let c := if isFinite (co_cost r) then co_cost r else Num 0 in
           str_add m k c)
        ∅ coRows.

(** [coCountsPerProject(coRows)] *)
Definition coCountsPerProject (coRows : list change_order) : gmap string num :=
  foldl (fun m r => str_add m (id_or_missing (co_project_id r)) (Num 1)) ∅ coRows.

(** The key under which [topReasons] counts a row:
    [(r.co_reason || "Unspecified").trim() || "Unspecified"].  A member of
    [Object.prototype] is truthy and has no method [trim], so the call
    throws a TypeError: that is [None]. *)
Definition reason_key (co_reason : reason) : option string :=
  match co_reason with
  | Reason s =>
      let t := trim (if decide (s = "") then "Unspecified" else s) in
      Some (if decide (t = "") then "Unspecified" else t)
  | ReasonMember => None
  end.

(** [projectDurationDays(r)]: [parseDate(r.actual_end) || parseDate(r.planned_end)]
    takes the actual end as soon as its text is not blank (a Date object is
    truthy, also an invalid one). *)
Definition projectDurationDays (r : project) : num :=
  let s := parseDate (start_date r) in
  let e := match parseDate (actual_end r) with
           | Some d => Some d
           | None => parseDate (planned_end r)
           end in
  match s, e with
  | Some s, Some e =>
      if Date_isNaN s || Date_isNaN e then NaN
      else div (Date_sub e s) day_ms
  | _, _ => NaN
  end.

(** From [updateKPIs]: the finite cost-variance ratios (the body of the
    [map] callback is the body of [projectCostVarianceRatio], line for
    line) and the overrun rate *)
Definition kpi_vars (rows : list project) : list num :=
  filter (fun v => isFinite v = true) (projectCostVarianceRatio <$> rows).

Definition overrunRate (rows : list project) : num :=
  let vars := kpi_vars rows in
  let overruns := length (filter (fun v => gt v (Num 0) = true) vars) in
  match vars with
  | [] => NaN
  | _ => div (of_nat overruns) (of_nat (length vars))
  end.

(** From [updateKPIs]: the finite schedule variances (the body of the [map]
    callback is the body of [schedVarAccessor], line for line) *)
Definition kpi_scheds (rows : list project) : list num :=
  filter (fun v => isFinite v = true) (schedVarAccessor <$> rows).

(** [d3.mean(values)]: entries that are NaN are passed over; [None] is the
    [undefined] returned when no entry is left. *)
Definition d3_mean (vs : list num) : option num :=
  let st := foldl (fun (st : nat * num) v =>
                     if ge v v then (S st.1, add st.2 v) else st)
                  (0%nat, Num 0) vs in
  match st.1 with
  | O => None
  | S _ => Some (div st.2 (of_nat st.1))
  end.

(** From [updateView]: the rows of the selected year,
    [new Date(r.start_date).getFullYear().toString() === sel], for a
    selection [sel] that is the text of a whole year *)
Definition projSlice (rows : list project) (sel : Z) : list project :=
  filter (fun r => getFullYear (new_Date (start_date r)) = Some sel) rows.

(** From [updateView]: the change orders of the selected year,
    [!isNaN(d) && d.getFullYear().toString() === sel] *)
Definition coSlice (rows : list change_order) (sel : Z) : list change_order :=
  filter (fun r => getFullYear (new_Date (co_date r)) = Some sel) rows.

(** The bucket of a project in [overrunAttributionByTime]: the year of its
    start date, or the month index; [None] is the key "NaN". *)
Definition bucketer (isAll : bool) (r : project) : option Z :=
  match new_Date (start_date r) with
  | Some t => Some (if isAll then year_of_ms t else Z.of_nat (month_of_ms t))
  | None => None
  end.

(** One turn of [projects.forEach] in [overrunAttributionByTime], on the
    object [out] of [{co, other}] pairs *)
Definition overrunAttribution_step (coTotals : gmap string num) (isAll : bool)
    (out : gmap (option Z) (num * num)) (r : project)
  : gmap (option Z) (num * num) :=
  let p := planned_budget r in
  let a := actual_cost r in
  if negb (isFinite p) || negb (isFinite a) then out
  else
    let overrun := Math_max (sub a p) (Num 0) in
    if le overrun (Num 0) then out
    else
      let coSum := or_num (get coTotals (project_id r)) (Num 0) in
      let attrCO := Math_min overrun (Number coSum) in
      let attrOther := Math_max (sub overrun attrCO) (Num 0) in
      let key := bucketer isAll r in
      let cur := default (Num 0, Num 0) (out !! key) in
      <[key := (add cur.1 attrCO, add cur.2 attrOther)]> out.

(** The object [out] of [overrunAttributionByTime] after all projects *)
Definition overrunAttribution_out (projects : list project)
    (coRows : list change_order) (isAll : bool) : gmap (option Z) (num * num) :=
  foldl (overrunAttribution_step (coTotalsPerProject coRows) isAll) ∅ projects.

(** The array element that [hist[c]] names: [c] has to be a whole number
    that is not negative; otherwise [hist[c] += 1] writes a named property
    and leaves the elements alone. *)
Definition array_index (c : value) : option nat :=
  match c with
  | VNum (Num x) =>
      if Rleb 0 x && Reqb x (IZR (Int_part x))
      then Some (Z.to_nat (Int_part x)) else None
  | _ => None
  end.

(** From [renderCharts]: the histogram of the number of change orders per
    project over the bins 0, 1, 2, 3, 4, 5+; one turn of [counts.forEach].
    A count that is no number fails [c >= 5] and names no element. *)
Definition coFrequency_step (hist : list num) (c : value) : list num :=
  if ge (Number c) (Num 5) then arr_add hist 5 (Num 1)
  else match array_index c with
       | Some i => arr_add hist i (Num 1)
       | None => hist
       end.

Definition coFrequencyHistogram (projects : list project)
    (coRows : list change_order) : list num :=
  let countsMap := coCountsPerProject coRows in
  let counts :=
    (fun p => or_num (get countsMap (project_id p)) (Num 0)) <$> projects in
  foldl coFrequency_step (replicate 6 (Num 0)) counts.

(** From [renderCharts]: the points of the scatter chart, one for every
    project whose duration and cost variance ratio are both finite
    ([.map(...)] to a point or [null], then [.filter(Boolean)]) *)
Definition scatterPoints (projects : list project) : list (num * num) :=
  omap (fun r =>
          let x := projectDurationDays r in
          let y := projectCostVarianceRatio r in
          if negb (isFinite x) || negb (isFinite y) then None else Some (x, y))
       projects.

End Diagnostic.

(* ===================================================================== *)
(** ** Descriptive dashboard *)
(* ===================================================================== *)

Module Descriptive.
Import JS Data.

(** One turn of the [forEach] of [rollupAvgActualCostByYear], on the
    running sums and counts *)
Definition rollupAvgActualCostByYear_step
    (st : gmap (option Z) num * gmap (option Z) num) (r : project)
  : gmap (option Z) num * gmap (option Z) num :=
  let y := getFullYear (new_Date (start_date r)) in
  if isFinite (actual_cost r)
  then (obj_add st.1 y (actual_cost r), obj_add st.2 y (Num 1))
  else st.

(** The running sums and counts of [rollupAvgActualCostByYear] after all rows *)
Definition rollupAvgActualCostByYear_acc (rows : list project)
  : gmap (option Z) num * gmap (option Z) num :=
  foldl rollupAvgActualCostByYear_step (∅, ∅) rows.

Definition rollupAvgActualCostByYear (rows : list project) : gmap (option Z) num :=
  let st := rollupAvgActualCostByYear_acc rows in
  obj_ratio st.1 st.2.

(** One turn of the [forEach] of [rollupAvgActualCostByMonth], on the
    running sums and counts *)
Definition rollupAvgActualCostByMonth_step (year : Z)
    (st : list num * list num) (r : project) : list num * list num :=
  match new_Date (start_date r) with
  | Some t =>
      if (year_of_ms t =? year)%Z && isFinite (actual_cost r)
      then
        let m := month_of_ms t in
        (arr_add st.1 m (actual_cost r), arr_add st.2 m (Num 1))
      else st
  | None => st
  end.

(** The running sums and counts of [rollupAvgActualCostByMonth] after all rows *)
Definition rollupAvgActualCostByMonth_acc (rows : list project) (year : Z)
  : list num * list num :=
  foldl (rollupAvgActualCostByMonth_step year)
        (replicate 12 (Num 0), replicate 12 (Num 0)) rows.

Definition rollupAvgActualCostByMonth (rows : list project) (year : Z) : list num :=
  let st := rollupAvgActualCostByMonth_acc rows year in
  arr_ratio st.1 st.2.

(** One turn of the [forEach] of [coCostByYear] *)
Definition coCostByYear_step (out : gmap (option Z) num) (r : change_order)
  : gmap (option Z) num :=
  match new_Date (co_date r) with
  | None => out
  | Some t =>
      obj_add out (Some (year_of_ms t))
              (if isFinite (co_cost r) then co_cost r else Num 0)
  end.

Definition coCostByYear (rows : list change_order) : gmap (option Z) num :=
  foldl coCostByYear_step ∅ rows.

Definition coCostByMonth (rows : list change_order) (year : Z) : list num :=
  foldl (fun arr r =>
           match new_Date (co_date r) with
           | Some t =>
               if (year_of_ms t =? year)%Z && isFinite (co_cost r)
               then arr_add arr (month_of_ms t) (co_cost r)
               else arr
           | None => arr
           end)
        (replicate 12 (Num 0)) rows.

(** [arr.reduce((acc, v) => (isFinite(v) ? acc + v : acc), 0)] *)
Definition sumSafe (arr : list num) : num :=
  foldl (fun acc v => if isFinite v then add acc v else acc) (Num 0) arr.

Definition rollupCountByYear (rows : list project) : gmap (option Z) num :=
  foldl (fun out r =>
           obj_add out (getFullYear (new_Date (start_date r))) (Num 1))
        ∅ rows.

Definition rollupCountByMonth (rows : list project) (year : Z) : list num :=
  foldl (fun counts r =>
           match new_Date (start_date r) with
           | Some t =>
               if (year_of_ms t =? year)%Z
               then arr_add counts (month_of_ms t) (Num 1) else counts
           | None => counts
           end)
        (replicate 12 (Num 0)) rows.

Definition coCountByYear (rows : list change_order) : gmap (option Z) num :=
  foldl (fun out r =>
           match new_Date (co_date r) with
           | None => out
           | Some t => obj_add out (Some (year_of_ms t)) (Num 1)
           end)
        ∅ rows.

Definition coCountByMonth (rows : list change_order) (year : Z) : list num :=
  foldl (fun arr r =>
           match new_Date (co_date r) with
           | Some t =>
               if (year_of_ms t =? year)%Z
               then arr_add arr (month_of_ms t) (Num 1) else arr
           | None => arr
           end)
        (replicate 12 (Num 0)) rows.

(** From [updateKPIs]:
    [d3.mean(data, (r) => (isFinite(r.actual_cost) ? r.actual_cost : NaN))] *)
Definition avgCost (data : list project) : option num :=
  Diagnostic.d3_mean
    ((fun r => if isFinite (actual_cost r) then actual_cost r else NaN) <$> data).

(** From [updateKPIs]: the finite durations in days, and their mean *)
Definition durations (data : list project) : list num :=
  filter (fun v => isFinite v = true)
    ((fun r =>
        let s := parseDate (start_date r) in
        let e := match parseDate (actual_end r) with
                 | Some d => Some d
                 | None => parseDate (planned_end r)
                 end in
        match s, e with
        | Some s, Some e => div (Date_sub e s) day_ms
        | _, _ => NaN
        end) <$> data).

Definition avgDuration (data : list project) : option num :=
  Diagnostic.d3_mean (durations data).

End Descriptive.

(* ===================================================================== *)
(** ** Specification vocabulary *)
(* ===================================================================== *)

Module Spec.
Import JS Data.

(** An aggregation passes over the rows whose numeric field is not finite:
    its result is the one it has on the rows that are left when they are
    taken away. *)
Definition skips_non_finite {Row Out : Type} (field : Row -> num)
    (agg : list Row -> Out) : Prop :=
  forall rows : list Row,
    agg rows = agg (filter (fun r => isFinite (field r) = true) rows).

(** The total that a chart reads for a key: [totals[y] || 0] *)
Definition total_at (m : gmap (option Z) num) (k : option Z) : num :=
  or_default (m !! k) (Num 0).

(** The five bins of the risk histogram, by the scores that their labels
    0–20, 21–40, 41–60, 61–80, 81–100 name *)
Definition bin_bounds : list (Z * Z) :=
  [(0, 20); (21, 40); (41, 60); (61, 80); (81, 100)]%Z.

Definition in_bin (b : Z * Z) (k : Z) : Prop := (b.1 <= k <= b.2)%Z.

#[global] Instance in_bin_dec b k : Decision (in_bin b k).
Proof. unfold in_bin. apply _. Defined.

(** The documented lookup of change-order reason codes *)
Definition reason_labels : list (string * string) :=
  [("0", "Scope Change"); ("1", "Client Request");
   ("2", "Unforeseen Conditions"); ("3", "Design Revision")].

Fixpoint assoc (k : string) (l : list (string * string)) : option string :=
  match l with
  | (k', v) :: l' => if decide (k' = k) then Some v else assoc k l'
  | [] => None
  end.

Definition reason_label (code : string) : option string :=
  assoc code reason_labels.

(** A reason code, followed or not by a dot and zeros, between runs of
    white space: [n = 0] is the bare code, [n = S m] has a dot and [S m]
    zeros; a run is a list of the white-space characters of [trim()]. *)
Definition dot_zeros (n : nat) : list ascii :=
  match n with
  | O => []
  | S _ => "."%char :: repeat "0"%char n
  end.

Definition white_run (ws : list (list ascii)) : Prop :=
  Forall (fun t => t ∈ Diagnostic.white_space) ws.

Definition written_code (ws1 : list (list ascii)) (code : string) (n : nat)
    (ws2 : list (list ascii)) : string :=
  string_of_list_ascii
    (concat ws1 ++ (list_ascii_of_string code ++ dot_zeros n) ++ concat ws2).

(** The reading of the documented rule: a reason found in the lookup takes
    its label, every other reason becomes "Unspecified". *)
Definition unmapped_reasons_become_unspecified : Prop :=
  forall o : option string,
    Diagnostic.normalizeReason o =
    Diagnostic.Reason
      (default "Unspecified"
         (reason_label (Diagnostic.strip_dot_zeros (Diagnostic.trim (default "" o))))).

(** *** Real-valued reference definitions *)

#[global] Instance Rlt_decision (x y : R) : Decision (x < y)%R := Rlt_dec x y.
#[global] Instance Rle_decision (x y : R) : Decision (x <= y)%R := Rle_dec x y.

Definition Rsum (l : list R) : R := foldr Rplus 0%R l.

Definition Rmean (l : list R) : R :=
  match l with
  | [] => 0%R
  | _ => (Rsum l / INR (length l))%R
  end.

(** [clamp(x, lo, hi)] on real numbers *)
Definition Rclamp (x lo hi : R) : R := Rmax lo (Rmin hi x).

(** Budget and actual cost of a row that has a finite positive budget and
    a finite actual cost *)
Definition budget_and_cost (r : project) : option (R * R) :=
  match planned_budget r, actual_cost r with
  | Num b, Num c => if decide (0 < b)%R then Some (b, c) else None
  | _, _ => None
  end.

(** Schedule variance in days of a row that has both end dates *)
Definition variance_days (r : project) : option R :=
  match planned_end r, actual_end r with
  | Text (Some pe), Text (Some ae) => Some (IZR (ae - pe) / IZR ms_per_day)%R
  | _, _ => None
  end.

(** The documented baseline: the fraction of the eligible rows whose
    actual cost exceeds the budget, 0 without eligible rows *)
Definition baseline (rows : list project) : R :=
  let elig := omap budget_and_cost rows in
  match elig with
  | [] => 0%R
  | _ => (INR (length (filter (fun p => (p.1 < p.2)%R) elig))
          / INR (length elig))%R
  end.

(** The documented adjusted probability *)
Definition adjusted (rows : list project) : R :=
  Rclamp (baseline rows +
          (if decide (0 < Rmean (omap variance_days rows))%R
           then 0.05 else -0.02))%R 0 1.

(** *** Savings estimate *)

Definition categories : list string :=
  ["Scope alignment"; "Design clarification";
   "Supplier/subcontractor review"; "Schedule tune-up"].

(** Days of schedule slip of a project: the days by which the actual end
    is later than the planned one, 0 when a date is missing *)
Definition slip_days (p : project) : R :=
  Rmax 0 (default 0%R (variance_days p)).

(** The documented rate of a category *)
Definition pct (cat : string) (budget coTotal slipDays : R) : R :=
  if decide (cat = "Scope alignment") then (0.10 + Rmin 0.06 (coTotal / budget))%R
  else if decide (cat = "Design clarification") then 0.07%R
  else if decide (cat = "Supplier/subcontractor review") then 0.05%R
  else (0.03 + Rmin 0.02 (slipDays / 180))%R.

(** The documented savings estimate:
    [min(0.07·budget, pct(category)·(overrun+coTotal))], floored at 0 *)
Definition savings (cat : string) (budget overrun coTotal slipDays : R) : R :=
  Rmax 0 (Rmin (0.07 * budget)
               (pct cat budget coTotal slipDays * (overrun + coTotal)))%R.

(** The documented rule read on the planned budget itself *)
Definition savings_on_planned_budget : Prop :=
  forall (p : project) (cat : string) (b overrun coTotal : R),
    planned_budget p = Num b ->
    cat ∈ categories ->
    Prescriptive.estimateSavings p cat (Num overrun) (Num coTotal)
    = Num (savings cat b overrun coTotal (slip_days p)).

(** *** Rule-variant risk score *)

Definition log10 (x : R) : R := (ln x / ln 10)%R.

(** Rounding to the nearest integer, ties upwards *)
Definition round (x : R) : R := IZR (Int_part (x + / 2)).

(** The weighted sum of size, schedule slip and change-order total *)
Definition rule_raw (budget slipDays coTotal : R) : R :=
  (20 * log10 (Rmax 1 budget) + 0.05 * slipDays + 0.000005 * coTotal)%R.

(** The documented rule score:
    [clamp(20·log10(max(1,budget)) + 0.05·slipDays + 0.000005·coTotal, 0, 100)],
    rounded *)
Definition rule_score (budget slipDays coTotal : R) : R :=
  round (Rclamp (rule_raw budget slipDays coTotal) 0 100).

(** A date column that is blank or holds a date that parses *)
Definition well_dated (s : date_text) : Prop := s <> Text None.

(** *** Least squares *)

(** The (year, value) points of a series *)
Definition points (m : gmap Z R) : list (R * R) :=
  (fun kv => (IZR kv.1, kv.2)) <$> map_to_list m.

Definition Sx (pts : list (R * R)) : R := Rsum ((fun p => p.1) <$> pts).
Definition Sy (pts : list (R * R)) : R := Rsum ((fun p => p.2) <$> pts).
Definition Sxx (pts : list (R * R)) : R := Rsum ((fun p => p.1 * p.1)%R <$> pts).
Definition Sxy (pts : list (R * R)) : R := Rsum ((fun p => p.1 * p.2)%R <$> pts).
Definition Syy (pts : list (R * R)) : R := Rsum ((fun p => p.2 * p.2)%R <$> pts).
Definition npts (pts : list (R * R)) : R := INR (length pts).

(** The documented formulas of the fit *)
Definition fit_slope (pts : list (R * R)) : R :=
  ((npts pts * Sxy pts - Sx pts * Sy pts)
   / Rmax 1 (npts pts * Sxx pts - Sx pts * Sx pts))%R.

Definition fit_intercept (pts : list (R * R)) : R :=
  ((Sy pts - fit_slope pts * Sx pts) / npts pts)%R.

(** Sum of the squared residuals of the line [a + b * x] *)
Definition sse (pts : list (R * R)) (a b : R) : R :=
  Rsum ((fun p => (p.2 - (a + b * p.1)) * (p.2 - (a + b * p.1)))%R <$> pts).

(** Reference ordinary least squares: covariance over variance *)
Definition xbar (pts : list (R * R)) : R := (Sx pts / npts pts)%R.
Definition ybar (pts : list (R * R)) : R := (Sy pts / npts pts)%R.

Definition ols_slope (pts : list (R * R)) : R :=
  (Rsum ((fun p => (p.1 - xbar pts) * (p.2 - ybar pts)) <$> pts)
   / Rsum ((fun p => (p.1 - xbar pts) * (p.1 - xbar pts)) <$> pts))%R.

Definition ols_intercept (pts : list (R * R)) : R :=
  (ybar pts - ols_slope pts * xbar pts)%R.

(** The years of a series in increasing order, and the value at a year *)
Definition sorted_years (m : gmap Z R) : list Z :=
  merge_sort Z.le (map_to_list m).*1.

Definition value_at (m : gmap Z R) (x : Z) : R := default 0%R (m !! x).

(** *** Spread-variant risk score *)

Definition budget_of (p : project) : R :=
  match planned_budget p with Num b => b | _ => 0%R end.

(** Cost overrun, floored at 0; 0 when budget or cost is not finite *)
Definition overrun (p : project) : R :=
  match planned_budget p, actual_cost p with
  | Num b, Num c => Rmax 0 (c - b)
  | _, _ => 0%R
  end.

(** The change-order total that a scorer reads for a project,
    [coMap[p.project_id] || 0], as a number: NaN when the id names a member
    of [Object.prototype] and the map has no number under it *)
Definition co_read (coMap : gmap string num) (p : project) : num :=
  Number (or_num (get coMap (project_id p)) (Num 0)).

(** Change-order total of a project, floored at 0 *)
Definition co_total (coMap : gmap string num) (p : project) : R :=
  match co_read coMap p with
  | Num t => Rmax 0 t
  | _ => 0%R
  end.

(** The raw composite, the two ratios being taken over [divisor budget] *)
Definition spread_raw (divisor : R -> R) (coMap : gmap string num)
    (p : project) : R :=
  (18 * (log10 (Rmax 1 (budget_of p)) - 4.5)
   + 15 * (slip_days p / 60)
   + 22 * log10 (1 + co_total coMap p / divisor (budget_of p))
   + 18 * log10 (1 + overrun p / divisor (budget_of p)))%R.

(** As documented: ratios over the budget *)
Definition documented_raw : gmap string num -> project -> R :=
  spread_raw (fun b => b).

(** As computed: ratios over [max(1, budget)] *)
Definition computed_raw : gmap string num -> project -> R :=
  spread_raw (Rmax 1).

(** Budget and change-order total of the project, as the scorer reads
    it, are finite numbers. *)
Definition finite_inputs (coMap : gmap string num) (p : project) : Prop :=
  isFinite (planned_budget p) = true /\
  isFinite (co_read coMap p) = true.

(** The scores are stored by [acc[id] = score]: under the id "__proto__"
    the assignment stores nothing. *)
Definition storable_ids (ps : list project) : Prop :=
  Forall (fun p => project_id p <> "__proto__") ps.

(** No id is the name of a member of [Object.prototype]. *)
Definition ordinary_ids (ps : list project) : Prop :=
  Forall (fun p => inherited (project_id p) = false) ps.

(** The random jitter is forced to 0: every draw is 1/2. *)
Definition no_jitter (rnd : Prescriptive.rng) : Prop :=
  forall k : nat, rnd k = (1 / 2)%R.

(** Smallest and largest element of a list of reals (0 on the empty list) *)
Definition Rlist_min (l : list R) : R :=
  match l with [] => 0%R | x :: l => foldl Rmin x l end.

Definition Rlist_max (l : list R) : R :=
  match l with [] => 0%R | x :: l => foldl Rmax x l end.

(** Min–max normalization to 0..100 *)
Definition normalized (l : list R) (x : R) : R :=
  ((x - Rlist_min l) / (Rlist_max l - Rlist_min l) * 100)%R.

(** The assigned scores are numbers between 0 and 100, the smallest of
    them 0 and the largest 100. *)
Definition spans_0_100 (scores : gmap string num) : Prop :=
  (forall k v, scores !! k = Some v ->
               exists s : R, v = Num s /\ (0 <= s <= 100)%R) /\
  (exists k, scores !! k = Some (Num 0)) /\
  (exists k, scores !! k = Some (Num 100)).

(** The documented property, read on every cohort *)
Definition spread_scores_span : Prop :=
  forall (rnd : Prescriptive.rng) (ps : list project) (coMap : gmap string num),
    no_jitter rnd ->
    (2 <= length ps)%nat ->
    Forall (finite_inputs coMap) ps ->
    (exists p q, p ∈ ps /\ q ∈ ps /\
                 documented_raw coMap p <> documented_raw coMap q) ->
    spans_0_100 (Prescriptive.computeRiskScores rnd ps coMap).

(** A project in flight (no actual end yet) with the given id, budget and
    actual cost; used to build small cohorts *)
Definition in_flight (id : string) (budget cost : R) : project :=
  Project id (iso 2022 1 10) (iso 2023 1 1) Blank (Num budget) (Num cost).

(** *** Keyed totals, counts and means *)

(** The rows filed under the key [k]; a row whose key is [None] is filed
    nowhere. *)
Definition rows_at {A K : Type} `{EqDecision K} (key : A -> option K) (k : K)
    (rows : list A) : list A :=
  filter (fun r => key r = Some k) rows.

(** One turn of a loop [m[key(r)] = (m[key(r)] || 0) + val(r)] on the own
    properties of [m] *)
Definition keyed_step {A K : Type} `{Countable K} (key : A -> option K)
    (val : A -> R) (m : gmap K num) (r : A) : gmap K num :=
  match key r with
  | Some k => <[k := add (or_default (m !! k) (Num 0)) (Num (val r))]> m
  | None => m
  end.

(** The entry of a key: the sum, the number or the mean of the values of
    its rows; no entry for a key without rows. *)
Definition keyed_total {A K : Type} `{EqDecision K} (key : A -> option K)
    (val : A -> R) (rows : list A) (k : K) : option num :=
  match rows_at key k rows with
  | [] => None
  | l => Some (Num (Rsum (val <$> l)))
  end.

Definition keyed_count {A K : Type} `{EqDecision K} (key : A -> option K)
    (rows : list A) (k : K) : option num :=
  match rows_at key k rows with
  | [] => None
  | l => Some (of_nat (length l))
  end.

Definition keyed_mean {A K : Type} `{EqDecision K} (key : A -> option K)
    (val : A -> R) (rows : list A) (k : K) : option num :=
  match rows_at key k rows with
  | [] => None
  | l => Some (Num (Rmean (val <$> l)))
  end.

(** The value of a number that is finite, 0 for the others *)
Definition finite_or_0 (a : num) : R :=
  match a with Num x => x | _ => 0%R end.

(** Keys of the rollups: the project of a change order, the start year of
    a project ([None] for a start date that does not parse, the key "NaN"),
    the year of a change order (no key without a date that parses) *)
Definition project_key (r : change_order) : option string :=
  Some (id_or_missing (co_project_id r)).

Definition start_year_key (r : project) : option (option Z) :=
  Some (getFullYear (new_Date (start_date r))).

Definition co_year_key (r : change_order) : option (option Z) :=
  match new_Date (co_date r) with
  | Some t => Some (Some (year_of_ms t))
  | None => None
  end.

(** The start year of the rows that have a finite value *)
Definition finite_year_key (accessor : project -> num) (r : project)
  : option (option Z) :=
  if isFinite (accessor r) then start_year_key r else None.

(** One turn of a loop [arr[idx(r)] += val(r)] *)
Definition indexed_step {A : Type} (idx : A -> option nat) (val : A -> R)
    (arr : list num) (r : A) : list num :=
  match idx r with
  | Some i => arr_add arr i (Num (val r))
  | None => arr
  end.

(** Month keys: the month index of a row dated in [year] *)
Definition month_in (year : Z) (s : date_text) : option nat :=
  match new_Date s with
  | Some t => if (year_of_ms t =? year)%Z then Some (month_of_ms t) else None
  | None => None
  end.

Definition start_month_key (year : Z) (r : project) : option nat :=
  month_in year (start_date r).

Definition co_month_key (year : Z) (r : change_order) : option nat :=
  month_in year (co_date r).

(** The month of the rows that have a finite value *)
Definition finite_month_key (year : Z) (accessor : project -> num) (r : project)
  : option nat :=
  if isFinite (accessor r) then start_month_key year r else None.

Definition finite_co_month_key (year : Z) (r : change_order) : option nat :=
  if isFinite (co_cost r) then co_month_key year r else None.

(** Both end dates are filled in and one of them does not parse. *)
Definition unparsable_end (r : project) : Prop :=
  planned_end r <> Blank /\ actual_end r <> Blank /\
  (planned_end r = Text None \/ actual_end r = Text None).

(** The values of a series lie on the line [alpha + beta * year]. *)
Definition on_line (alpha beta : R) (m : gmap Z R) : Prop :=
  forall (k : Z) (v : R), m !! k = Some v -> v = (alpha + beta * IZR k)%R.

(** A score is NaN or a number between 0 and 100. *)
Definition NaN_or_0_100 (v : num) : Prop :=
  v = NaN \/ exists s : R, v = Num s /\ (0 <= s <= 100)%R.

(** A sampled impact or effort: a number within 0.02 of its band, and
    between 0 and 1 *)
Definition within_band (x : num) (band : num * num) : Prop :=
  exists v lo hi : R,
    band = (Num lo, Num hi) /\ x = Num v /\
    (lo - 0.02 <= v <= hi + 0.02)%R /\ (0 <= v <= 1)%R.

(** *** Diagnostic KPIs and overrun attribution *)

(** Cost variance ratio of a (budget, cost) pair *)
Definition cost_variance_ratio (p : R * R) : R := ((p.2 - p.1) / p.1)%R.

(** The mean of a list of reals as a KPI: nothing on the empty list *)
Definition mean_if_any (l : list R) : option num :=
  match l with
  | [] => None
  | _ => Some (Num (Rmean l))
  end.

(** Actual cost less planned budget *)
Definition cost_excess (r : project) : R :=
  (finite_or_0 (actual_cost r) - finite_or_0 (planned_budget r))%R.

(** The bucket of a project that has overrun its budget: no key for a row
    whose budget or cost is not finite, or whose cost does not exceed the
    budget *)
Definition overrun_key (isAll : bool) (r : project) : option (option Z) :=
  match planned_budget r, actual_cost r with
  | Num b, Num c =>
      if decide (b < c)%R then Some (Diagnostic.bucketer isAll r) else None
  | _, _ => None
  end.

(** The part of the overrun of a project that is attributed to its change
    orders, and the rest *)
Definition attr_co (coTotals : gmap string num) (r : project) : R :=
  Rmin (cost_excess r) (finite_or_0 (co_read coTotals r)).

Definition attr_other (coTotals : gmap string num) (r : project) : R :=
  (cost_excess r - attr_co coTotals r)%R.

(** Number of change orders filed under the id of a project *)
Definition co_count (coRows : list change_order) (p : project) : nat :=
  length (rows_at project_key (project_id p) coRows).

(** The bin of the change-order frequency histogram: 0 to 4, and 5 for
    five or more; a project whose id names a member of [Object.prototype]
    has no bin. *)
Definition frequency_bin (coRows : list change_order) (p : project) : option nat :=
  if inherited (project_id p) then None
  else Some (Nat.min (co_count coRows p) 5).

(** The end date that counts for the duration of a project: the actual
    end as soon as it is filled in, the planned end otherwise *)
Definition effective_end (r : project) : date_text :=
  match actual_end r with
  | Blank => planned_end r
  | e => e
  end.

(** Days from the start to the effective end, when both dates parse *)
Definition duration_days (r : project) : option R :=
  match start_date r, effective_end r with
  | Text (Some s), Text (Some e) => Some (IZR (e - s) / IZR ms_per_day)%R
  | _, _ => None
  end.

(** The point of a project in the scatter chart *)
Definition scatter_point (r : project) : option (num * num) :=
  match duration_days r, budget_and_cost r with
  | Some d, Some p => Some (Num d, Num (cost_variance_ratio p))
  | _, _ => None
  end.

End Spec.

(* ===================================================================== *)
(** ** Aggregations and non-finite fields *)
(* ===================================================================== *)

Section Aggregation.
Import JS Data Spec.

Lemma foldl_filter_skip {A B : Type} (f : B -> A -> B) (P : A -> Prop)
    `{!forall x, Decision (P x)} :
  (forall s r, ~ P r -> f s r = s) ->
  forall rows s, foldl f s rows = foldl f s (filter P rows).
Proof.
  intros Hskip rows. induction rows as [|r rows IH]; intros s; [reflexivity|].
  rewrite filter_cons. destruct (decide (P r)) as [Hr|Hr]; simpl.
  - apply IH.
  - rewrite (Hskip s r Hr). apply IH.
Qed.

Lemma not_finite_false (a : num) : isFinite a <> true -> isFinite a = false.
Proof. destruct (isFinite a); congruence. Qed.

Lemma avgActualCostByYear_acc_skips :
  skips_non_finite actual_cost Predictive.avgActualCostByYear_acc.
Proof.
  intros rows. unfold Predictive.avgActualCostByYear_acc.
  apply foldl_filter_skip. intros st r Hr.
  unfold Predictive.avgActualCostByYear_step.
  rewrite (not_finite_false _ Hr). reflexivity.
Qed.

Lemma schedVarAccessor_variance (r : project) :
  isFinite (Diagnostic.schedVarAccessor r) = true ->
  exists pe ae : Z,
    parseDate (planned_end r) = Some (Some pe) /\
    parseDate (actual_end r) = Some (Some ae).
Proof.
  unfold Diagnostic.schedVarAccessor.
  destruct (parseDate (planned_end r)) as [[pe|]|];
    destruct (parseDate (actual_end r)) as [[ae|]|]; simpl; try discriminate.
  intros _. exists pe, ae. split; reflexivity.
Qed.

Lemma avgScheduleVarianceByYear_acc_skips :
  skips_non_finite Diagnostic.schedVarAccessor
                   Predictive.avgScheduleVarianceByYear_acc.
Proof.
  intros rows. unfold Predictive.avgScheduleVarianceByYear_acc.
  apply foldl_filter_skip. intros st r Hr.
  unfold Predictive.avgScheduleVarianceByYear_step.
  unfold Diagnostic.schedVarAccessor in Hr.
  destruct (parseDate (planned_end r)) as [pe|]; [|reflexivity].
  destruct (parseDate (actual_end r)) as [ae|]; [|reflexivity].
  destruct (Date_isNaN pe || Date_isNaN ae) eqn:E; [reflexivity|].
  exfalso. apply Hr.
  destruct pe as [pe|], ae as [ae|]; try discriminate E.
  unfold day_ms, of_Z, ms_per_day, Date_sub, div, Reqb.
  destruct (Req_dec_T _ 0) as [H0|_]; [|reflexivity].
  exfalso. revert H0. apply not_0_IZR. discriminate.
Qed.

Lemma rollupAvgByYear_acc_skips (accessor : project -> num) :
  skips_non_finite accessor
    (fun rows => Diagnostic.rollupAvgByYear_acc rows accessor).
Proof.
  intros rows. unfold Diagnostic.rollupAvgByYear_acc.
  apply foldl_filter_skip. intros st r Hr.
  unfold Diagnostic.rollupAvgByYear_step.
  rewrite (not_finite_false _ Hr). reflexivity.
Qed.

Lemma rollupAvgByMonth_acc_skips (year : Z) (accessor : project -> num) :
  skips_non_finite accessor
    (fun rows => Diagnostic.rollupAvgByMonth_acc rows year accessor).
Proof.
  intros rows. unfold Diagnostic.rollupAvgByMonth_acc.
  apply foldl_filter_skip. intros st r Hr.
  unfold Diagnostic.rollupAvgByMonth_step.
  rewrite (not_finite_false _ Hr).
  destruct (new_Date (start_date r)); [|reflexivity].
  destruct (negb _); reflexivity.
Qed.

Lemma rollupAvgActualCostByYear_acc_skips :
  skips_non_finite actual_cost Descriptive.rollupAvgActualCostByYear_acc.
Proof.
  intros rows. unfold Descriptive.rollupAvgActualCostByYear_acc.
  apply foldl_filter_skip. intros st r Hr.
  unfold Descriptive.rollupAvgActualCostByYear_step.
  rewrite (not_finite_false _ Hr). reflexivity.
Qed.

Lemma rollupAvgActualCostByMonth_acc_skips (year : Z) :
  skips_non_finite actual_cost
    (fun rows => Descriptive.rollupAvgActualCostByMonth_acc rows year).
Proof.
  intros rows. unfold Descriptive.rollupAvgActualCostByMonth_acc.
  apply foldl_filter_skip. intros st r Hr.
  unfold Descriptive.rollupAvgActualCostByMonth_step.
  destruct (new_Date (start_date r)); [|reflexivity].
  rewrite (not_finite_false _ Hr), andb_false_r. reflexivity.
Qed.

Lemma coCostByMonth_skips (year : Z) :
  skips_non_finite co_cost (fun rows => Descriptive.coCostByMonth rows year).
Proof.
  intros rows. unfold Descriptive.coCostByMonth.
  apply foldl_filter_skip. intros st r Hr.
  destruct (new_Date (co_date r)); [|reflexivity].
  rewrite (not_finite_false _ Hr), andb_false_r. reflexivity.
Qed.

Lemma sumSafe_skips : skips_non_finite (fun v : num => v) Descriptive.sumSafe.
Proof.
  intros rows. unfold Descriptive.sumSafe.
  apply foldl_filter_skip. intros st r Hr.
  rewrite (not_finite_false _ Hr). reflexivity.
Qed.

End Aggregation.

Section ChangeOrderCostByYear.
Import JS Data Spec.

Lemma or_default_not_NaN (o : option num) : or_default o (Num 0) <> NaN.
Proof.
  destruct o as [a|]; simpl; [|discriminate].
  unfold or_else. destruct (truthy a) eqn:E; [|discriminate].
  intros ->. discriminate E.
Qed.

Lemma or_else_or_default (o : option num) :
  or_else (or_default o (Num 0)) (Num 0) = or_default o (Num 0).
Proof.
  destruct o as [a|]; simpl.
  - unfold or_else at 2 3. destruct (truthy a) eqn:E.
    + unfold or_else. rewrite E. reflexivity.
    + unfold or_else. destruct (truthy (Num 0)); reflexivity.
  - unfold or_else. destruct (truthy (Num 0)); reflexivity.
Qed.

Lemma add_zero_r (a : num) : a <> NaN -> add a (Num 0) = a.
Proof.
  intros Ha. destruct a as [x| | |]; simpl; try reflexivity.
  f_equal. lra.
Qed.

Lemma total_at_obj_add (m : gmap (option Z) num) (k j : option Z) (v : num) :
  total_at (obj_add m k v) j =
  if decide (k = j) then or_else (add (total_at m k) v) (Num 0)
  else total_at m j.
Proof.
  unfold total_at, obj_add. destruct (decide (k = j)) as [->|Hne].
  - rewrite lookup_insert_eq. reflexivity.
  - rewrite lookup_insert_ne by exact Hne. reflexivity.
Qed.

Lemma total_at_obj_add_zero (m : gmap (option Z) num) (k j : option Z) :
  total_at (obj_add m k (Num 0)) j = total_at m j.
Proof.
  rewrite total_at_obj_add. destruct (decide (k = j)) as [->|]; [|reflexivity].
  unfold total_at. rewrite add_zero_r by apply or_default_not_NaN.
  apply or_else_or_default.
Qed.

Lemma coCostByYear_totals_from (rows : list change_order) :
  forall m1 m2 : gmap (option Z) num,
    (forall y, total_at m1 y = total_at m2 y) ->
    forall y,
      total_at (foldl Descriptive.coCostByYear_step m1 rows) y =
      total_at (foldl Descriptive.coCostByYear_step m2
                  (filter (fun r => isFinite (co_cost r) = true) rows)) y.
Proof.
  induction rows as [|r rows IH]; intros m1 m2 Hm y; [apply Hm|].
  rewrite filter_cons. destruct (decide (isFinite (co_cost r) = true)) as [Hr|Hr];
    simpl; apply IH; intros j; unfold Descriptive.coCostByYear_step.
  - destruct (new_Date (co_date r)) as [t|]; [|apply Hm].
    rewrite !total_at_obj_add, !Hm. reflexivity.
  - destruct (new_Date (co_date r)) as [t|]; [|apply Hm].
    rewrite (not_finite_false _ Hr), total_at_obj_add_zero. apply Hm.
Qed.

End ChangeOrderCostByYear.

Section NonFiniteRows.
Import JS Data Spec.

(** C3, as the code has it.  Every rollup that computes a mean by year or
    by month leaves both its running sums and its running counts untouched
    on a row whose numeric field is NaN or not finite, and so do the
    change-order cost-by-month rollup and the safe sum; the change-order
    cost-by-year rollup adds such a row as zero: the total read for each
    year counts the finite costs only. *)
Theorem rollups_and_non_finite_rows :
  (forall accessor,
     skips_non_finite accessor
       (fun rows => Diagnostic.rollupAvgByYear_acc rows accessor)) /\
  (forall year accessor,
     skips_non_finite accessor
       (fun rows => Diagnostic.rollupAvgByMonth_acc rows year accessor)) /\
  skips_non_finite actual_cost Descriptive.rollupAvgActualCostByYear_acc /\
  (forall year,
     skips_non_finite actual_cost
       (fun rows => Descriptive.rollupAvgActualCostByMonth_acc rows year)) /\
  skips_non_finite actual_cost Predictive.avgActualCostByYear_acc /\
  skips_non_finite Diagnostic.schedVarAccessor
    Predictive.avgScheduleVarianceByYear_acc /\
  (forall year,
     skips_non_finite co_cost (fun rows => Descriptive.coCostByMonth rows year)) /\
  skips_non_finite (fun v : num => v) Descriptive.sumSafe /\
  (forall rows y,
     total_at (Descriptive.coCostByYear rows) y =
     total_at (Descriptive.coCostByYear
                 (filter (fun r => isFinite (co_cost r) = true) rows)) y).
Proof.
  repeat split.
  - apply rollupAvgByYear_acc_skips.
  - apply rollupAvgByMonth_acc_skips.
  - apply rollupAvgActualCostByYear_acc_skips.
  - apply rollupAvgActualCostByMonth_acc_skips.
  - apply avgActualCostByYear_acc_skips.
  - apply avgScheduleVarianceByYear_acc_skips.
  - apply coCostByMonth_skips.
  - apply sumSafe_skips.
  - intros rows y. unfold Descriptive.coCostByYear.
    apply coCostByYear_totals_from. reflexivity.
Qed.

(** The means themselves are then those of the finite rows. *)
Lemma mean_rollups_skip :
  (forall accessor,
     skips_non_finite accessor
       (fun rows => Diagnostic.rollupAvgByYear rows accessor)) /\
  (forall year accessor,
     skips_non_finite accessor
       (fun rows => Diagnostic.rollupAvgByMonth rows year accessor)) /\
  skips_non_finite actual_cost Descriptive.rollupAvgActualCostByYear /\
  (forall year,
     skips_non_finite actual_cost
       (fun rows => Descriptive.rollupAvgActualCostByMonth rows year)) /\
  skips_non_finite actual_cost Predictive.avgActualCostByYear /\
  skips_non_finite Diagnostic.schedVarAccessor
    Predictive.avgScheduleVarianceByYear.
Proof.
  pose proof rollupAvgByYear_acc_skips as H1.
  pose proof rollupAvgByMonth_acc_skips as H2.
  pose proof rollupAvgActualCostByYear_acc_skips as H3.
  pose proof rollupAvgActualCostByMonth_acc_skips as H4.
  pose proof avgActualCostByYear_acc_skips as H5.
  pose proof avgScheduleVarianceByYear_acc_skips as H6.
  repeat split; intros; intros rows.
  - unfold Diagnostic.rollupAvgByYear. rewrite <- (H1 accessor rows). reflexivity.
  - unfold Diagnostic.rollupAvgByMonth. rewrite <- (H2 year accessor rows). reflexivity.
  - unfold Descriptive.rollupAvgActualCostByYear. rewrite <- (H3 rows). reflexivity.
  - unfold Descriptive.rollupAvgActualCostByMonth. rewrite <- (H4 year rows). reflexivity.
  - unfold Predictive.avgActualCostByYear. rewrite <- (H5 rows). reflexivity.
  - unfold Predictive.avgScheduleVarianceByYear. rewrite <- (H6 rows). reflexivity.
Qed.

(** C3, as stated, fails on the change-order cost-by-year rollup: a change
    order dated 2021-03-01 whose cost is NaN gives the year 2021 an entry
    (of value 0), where passing over the row would leave the rollup
    empty. *)
Lemma coCostByYear_adds_nan_row_as_zero :
  let r := ChangeOrder "P1" NaN "Scope Change" (iso 2021 3 1) in
  Descriptive.coCostByYear [r] = {[ Some 2021%Z := Num 0 ]} /\
  Descriptive.coCostByYear (filter (fun r => isFinite (co_cost r) = true) [r]) = ∅ /\
  ~ skips_non_finite co_cost Descriptive.coCostByYear.
Proof.
  intros r.
  assert (H1 : Descriptive.coCostByYear [r] = {[ Some 2021%Z := Num 0 ]}).
  { unfold Descriptive.coCostByYear, r. simpl.
    unfold Descriptive.coCostByYear_step. simpl.
    replace (year_of_ms (utc 2021 3 1)) with 2021%Z by reflexivity.
    unfold obj_add. rewrite lookup_empty. simpl.
    rewrite insert_empty. f_equal. f_equal. lra. }
  assert (H2 : Descriptive.coCostByYear
                 (filter (fun r => isFinite (co_cost r) = true) [r]) = ∅).
  { reflexivity. }
  split; [exact H1|]. split; [exact H2|].
  intros Hskip. specialize (Hskip [r]). rewrite H1, H2 in Hskip.
  revert Hskip. apply insert_non_empty.
Qed.

End NonFiniteRows.

Section RiskHistogram.
Import JS Data Spec.

Lemma le_of_Z (k n : Z) : le (of_Z k) (of_Z n) = (k <=? n)%Z.
Proof.
  unfold le, of_Z, Rleb. destruct (Rle_dec (IZR k) (IZR n)) as [H|H]; symmetry.
  - apply Z.leb_le, le_IZR, H.
  - apply Z.leb_gt, lt_IZR. lra.
Qed.

Lemma foldl_cons_eq {A B : Type} (f : A -> B -> A) (a : A) (x : B) (l : list B) :
  foldl f a (x :: l) = foldl f (f a x) l.
Proof. reflexivity. Qed.

Lemma riskHistogram_step_cases (s : num) (a0 a1 a2 a3 a4 : nat) :
  let h := Predictive.riskHistogram_step [a0; a1; a2; a3; a4] s in
  h = [S a0; a1; a2; a3; a4] \/ h = [a0; S a1; a2; a3; a4] \/
  h = [a0; a1; S a2; a3; a4] \/ h = [a0; a1; a2; S a3; a4] \/
  h = [a0; a1; a2; a3; S a4].
Proof.
  unfold Predictive.riskHistogram_step.
  destruct (le s (Num 20)); [|destruct (le s (Num 40));
    [|destruct (le s (Num 60)); [|destruct (le s (Num 80))]]];
    cbn; tauto.
Qed.

Lemma riskHistogram_total_from (scores : list num) :
  forall a0 a1 a2 a3 a4 : nat,
  exists b0 b1 b2 b3 b4 : nat,
    foldl Predictive.riskHistogram_step [a0; a1; a2; a3; a4] scores
      = [b0; b1; b2; b3; b4] /\
    (b0 + b1 + b2 + b3 + b4 = a0 + a1 + a2 + a3 + a4 + length scores)%nat.
Proof.
  induction scores as [|s scores IH]; intros a0 a1 a2 a3 a4.
  - exists a0, a1, a2, a3, a4. split; [reflexivity|simpl; lia].
  - rewrite foldl_cons_eq.
    destruct (riskHistogram_step_cases s a0 a1 a2 a3 a4) as [E|[E|[E|[E|E]]]];
      rewrite E;
      match goal with
      | |- context [foldl _ [?c0; ?c1; ?c2; ?c3; ?c4] scores] =>
          destruct (IH c0 c1 c2 c3 c4) as (b0 & b1 & b2 & b3 & b4 & -> & Hs)
      end;
      exists b0, b1, b2, b3, b4; (split; [reflexivity|simpl length; lia]).
Qed.

Lemma riskHistogram_step_of_Z (k : Z) (a0 a1 a2 a3 a4 : nat) :
  Predictive.riskHistogram_step [a0; a1; a2; a3; a4] (of_Z k) =
  if (k <=? 20)%Z then [S a0; a1; a2; a3; a4]
  else if (k <=? 40)%Z then [a0; S a1; a2; a3; a4]
  else if (k <=? 60)%Z then [a0; a1; S a2; a3; a4]
  else if (k <=? 80)%Z then [a0; a1; a2; S a3; a4]
  else [a0; a1; a2; a3; S a4].
Proof.
  unfold Predictive.riskHistogram_step.
  change (Num 20) with (of_Z 20). change (Num 40) with (of_Z 40).
  change (Num 60) with (of_Z 60). change (Num 80) with (of_Z 80).
  rewrite !le_of_Z.
  destruct (k <=? 20)%Z; [|destruct (k <=? 40)%Z;
    [|destruct (k <=? 60)%Z; [|destruct (k <=? 80)%Z]]]; reflexivity.
Qed.

Lemma riskHistogram_bins_from (ks : list Z) :
  (forall k, k ∈ ks -> (0 <= k <= 100)%Z) ->
  forall a0 a1 a2 a3 a4 : nat,
    foldl Predictive.riskHistogram_step [a0; a1; a2; a3; a4] (of_Z <$> ks) =
    [ (a0 + length (filter (in_bin (0, 20)%Z) ks))%nat;
      (a1 + length (filter (in_bin (21, 40)%Z) ks))%nat;
      (a2 + length (filter (in_bin (41, 60)%Z) ks))%nat;
      (a3 + length (filter (in_bin (61, 80)%Z) ks))%nat;
      (a4 + length (filter (in_bin (81, 100)%Z) ks))%nat ].
Proof.
  induction ks as [|k ks IH]; intros Hr a0 a1 a2 a3 a4.
  - simpl. repeat f_equal; lia.
  - assert (Hk : (0 <= k <= 100)%Z) by (apply Hr; left).
    assert (Hks : forall j, j ∈ ks -> (0 <= j <= 100)%Z)
      by (intros j Hj; apply Hr; right; exact Hj).
    rewrite fmap_cons, foldl_cons_eq, riskHistogram_step_of_Z, !filter_cons.
    destruct (k <=? 20)%Z eqn:E1; [|destruct (k <=? 40)%Z eqn:E2;
      [|destruct (k <=? 60)%Z eqn:E3; [|destruct (k <=? 80)%Z eqn:E4]]];
      rewrite (IH Hks);
      repeat case_decide; unfold in_bin in *; simpl in *;
      try (exfalso; lia); repeat f_equal; simpl; lia.
Qed.

(** C10.  The risk histogram puts every score in exactly one bin: the five
    counts always add up to the number of scores, and on rounded scores
    between 0 and 100 the count of each bin is the number of scores in the
    range that its label names, each score lying in the range of one bin
    only. *)
Theorem risk_histogram_partitions_scores :
  (forall scores : list num,
     length (Predictive.riskHistogram scores) = 5%nat /\
     sum_list (Predictive.riskHistogram scores) = length scores) /\
  (forall ks : list Z,
     (forall k, k ∈ ks -> (0 <= k <= 100)%Z) ->
     Predictive.riskHistogram (of_Z <$> ks)
       = (fun b => length (filter (in_bin b) ks)) <$> bin_bounds /\
     (forall k, k ∈ ks ->
        exists (i : nat) (b : Z * Z),
          bin_bounds !! i = Some b /\ in_bin b k /\
          forall (j : nat) (b' : Z * Z),
            bin_bounds !! j = Some b' -> in_bin b' k -> j = i)).
Proof.
  split.
  - intros scores. unfold Predictive.riskHistogram. simpl replicate.
    destruct (riskHistogram_total_from scores 0 0 0 0 0)
      as (b0 & b1 & b2 & b3 & b4 & -> & Hs).
    split; [reflexivity|]. simpl. lia.
  - intros ks Hr. split.
    + unfold Predictive.riskHistogram. simpl replicate.
      rewrite (riskHistogram_bins_from ks Hr). reflexivity.
    + intros k Hk. specialize (Hr k Hk).
      assert (Hcases : (k <= 20 \/ 21 <= k <= 40 \/ 41 <= k <= 60 \/
                        61 <= k <= 80 \/ 81 <= k)%Z) by lia.
      destruct Hcases as [H|[H|[H|[H|H]]]];
        [exists 0%nat, (0, 20)%Z | exists 1%nat, (21, 40)%Z
        | exists 2%nat, (41, 60)%Z | exists 3%nat, (61, 80)%Z
        | exists 4%nat, (81, 100)%Z];
        (split; [reflexivity|]); (split; [unfold in_bin; simpl; lia|]);
        intros j b' Hj Hb';
        do 5 (destruct j as [|j];
              [simpl in Hj; inversion Hj; subst b'; unfold in_bin in Hb';
               simpl in Hb'; try reflexivity; exfalso; lia|]);
        discriminate Hj.
Qed.

Lemma risk_histogram_partitions_scores_witness :
  (forall k, k ∈ [0; 20; 21; 100; 57]%Z -> (0 <= k <= 100)%Z) /\
  Predictive.riskHistogram (of_Z <$> [0; 20; 21; 100; 57]%Z) = [2; 1; 1; 0; 1]%nat.
Proof.
  assert (Hr : forall k, k ∈ [0; 20; 21; 100; 57]%Z -> (0 <= k <= 100)%Z).
  { intros k Hk. repeat (apply elem_of_cons in Hk as [->|Hk]; [lia|]).
    apply elem_of_nil in Hk. destruct Hk. }
  split; [exact Hr|].
  rewrite (proj1 (proj2 risk_histogram_partitions_scores _ Hr)).
  reflexivity.
Defined.

(** In [render] every project is counted in one bin, whatever its score
    (a score below 0 falls in the first bin, a NaN score in the last). *)
Lemma histogram_counts_every_project (projects : list project)
    (cos : list change_order) :
  sum_list (Predictive.riskHistogram (Predictive.riskScores projects cos))
  = length projects.
Proof.
  unfold Predictive.riskHistogram. simpl replicate.
  destruct (riskHistogram_total_from (Predictive.riskScores projects cos) 0 0 0 0 0)
    as (b0 & b1 & b2 & b3 & b4 & -> & Hs).
  unfold Predictive.riskScores in Hs. rewrite length_fmap in Hs.
  simpl. lia.
Qed.

(** The three dashboards compute the per-project totals alike. *)
Lemma per_project_totals_agree (cos : list change_order) :
  Prescriptive.changeOrderTotals cos = Predictive.changeOrderTotalsByProject cos /\
  Diagnostic.coTotalsPerProject cos = Predictive.changeOrderTotalsByProject cos.
Proof. split; reflexivity. Qed.

End RiskHistogram.

Section ReasonMapping.
Import JS Data Spec.
Import Diagnostic.

(** *** Tokens at the head of a text *)

Lemma after_prefix_app (t l : list ascii) : after_prefix t (t ++ l) = Some l.
Proof.
  induction t as [|c t IH]; [reflexivity|].
  cbn [app after_prefix]. rewrite decide_True by reflexivity. exact IH.
Qed.

Lemma after_prefix_Some (t l l' : list ascii) :
  after_prefix t l = Some l' -> l = t ++ l'.
Proof.
  revert l. induction t as [|c t IH]; intros l; cbn [after_prefix].
  - intros [= ->]. reflexivity.
  - destruct l as [|d l]; [discriminate|].
    destruct (decide (c = d)) as [->|]; [|discriminate].
    intros H. rewrite (IH _ H). reflexivity.
Qed.

Lemma after_prefix_more (t l l' l2 : list ascii) :
  after_prefix t l = Some l' -> after_prefix t (l ++ l2) = Some (l' ++ l2).
Proof.
  intros H. rewrite (after_prefix_Some _ _ _ H), <- app_assoc.
  apply after_prefix_app.
Qed.

Lemma after_token_Some (toks : list (list ascii)) (l l' : list ascii) :
  after_token toks l = Some l' -> exists t, t ∈ toks /\ l = t ++ l'.
Proof.
  induction toks as [|t toks IH]; cbn [after_token]; [discriminate|].
  destruct (after_prefix t l) as [l1|] eqn:E.
  - intros [= <-]. exists t. split; [left|apply after_prefix_Some, E].
  - intros H. destruct (IH H) as (t' & Ht' & Hl).
    exists t'. split; [right; exact Ht'|exact Hl].
Qed.

Lemma after_token_more (toks : list (list ascii)) (l l' l2 : list ascii) :
  after_token toks l = Some l' -> is_Some (after_token toks (l ++ l2)).
Proof.
  induction toks as [|t toks IH]; cbn [after_token]; [discriminate|].
  destruct (after_prefix t l) as [l1|] eqn:E.
  - intros _. rewrite (after_prefix_more _ _ _ l2 E). eexists; reflexivity.
  - intros H. destruct (after_prefix t (l ++ l2)); [eexists; reflexivity|].
    apply IH, H.
Qed.

Lemma after_token_less (toks : list (list ascii)) (l l2 : list ascii) :
  after_token toks (l ++ l2) = None -> after_token toks l = None.
Proof.
  intros H. destruct (after_token toks l) as [l'|] eqn:E; [|reflexivity].
  destruct (after_token_more toks l l' l2 E) as [x Hx]. congruence.
Qed.

Lemma after_token_nil (toks : list (list ascii)) :
  Forall (fun t => t <> []) toks -> after_token toks [] = None.
Proof.
  induction 1 as [|t toks Ht _ IH]; [reflexivity|].
  cbn [after_token]. destruct t as [|c t]; [congruence|exact IH].
Qed.

Lemma rev_concat {A : Type} (ws : list (list A)) :
  rev (concat ws) = concat (@rev A <$> rev ws).
Proof.
  induction ws as [|t ws IH]; [reflexivity|].
  cbn [concat rev]. rewrite rev_app_distr, IH, fmap_app, concat_app.
  cbn [fmap list_fmap concat]. rewrite app_nil_r. reflexivity.
Qed.

Section Tokens.
Variable toks : list (list ascii).
Hypothesis toks_nonempty : Forall (fun t => t <> []) toks.
Hypothesis toks_prefix_free :
  forall t l, t ∈ toks -> after_token toks (t ++ l) = Some l.

Lemma after_token_shorter (l l' : list ascii) :
  after_token toks l = Some l' -> (length l' < length l)%nat.
Proof.
  intros H. destruct (after_token_Some _ _ _ H) as (t & Ht & ->).
  pose proof (proj1 (Forall_forall _ _) toks_nonempty t Ht) as Hne.
  rewrite length_app. destruct t; [congruence|]. cbn [length]. lia.
Qed.

Lemma drop_tokens_fuel (f1 : nat) :
  forall (f2 : nat) (l : list ascii),
    (length l <= f1)%nat -> (length l <= f2)%nat ->
    drop_tokens f1 toks l = drop_tokens f2 toks l.
Proof.
  induction f1 as [|f1 IH]; intros f2 l H1 H2.
  - destruct l; [|cbn [length] in H1; lia].
    destruct f2; [reflexivity|].
    cbn [drop_tokens]. rewrite (after_token_nil _ toks_nonempty). reflexivity.
  - destruct f2 as [|f2].
    + destruct l; [|cbn [length] in H2; lia].
      cbn [drop_tokens]. rewrite (after_token_nil _ toks_nonempty). reflexivity.
    + cbn [drop_tokens]. destruct (after_token toks l) as [l'|] eqn:E; [|reflexivity].
      pose proof (after_token_shorter _ _ E). apply IH; lia.
Qed.

Lemma drop_tokens_done (fuel : nat) :
  forall l : list ascii,
    (length l <= fuel)%nat -> after_token toks (drop_tokens fuel toks l) = None.
Proof.
  induction fuel as [|fuel IH]; intros l Hl.
  - destruct l; [|cbn [length] in Hl; lia].
    apply (after_token_nil _ toks_nonempty).
  - cbn [drop_tokens]. destruct (after_token toks l) as [l'|] eqn:E; [|exact E].
    pose proof (after_token_shorter _ _ E). apply IH. lia.
Qed.

Lemma drop_tokens_fixed (fuel : nat) (l : list ascii) :
  after_token toks l = None -> drop_tokens fuel toks l = l.
Proof.
  intros H. destruct fuel; [reflexivity|]. cbn [drop_tokens]. rewrite H.
  reflexivity.
Qed.

Lemma drop_tokens_suffix (fuel : nat) :
  forall l : list ascii, exists pre, l = pre ++ drop_tokens fuel toks l.
Proof.
  induction fuel as [|fuel IH]; intros l; [exists []; reflexivity|].
  cbn [drop_tokens]. destruct (after_token toks l) as [l'|] eqn:E;
    [|exists []; reflexivity].
  destruct (after_token_Some _ _ _ E) as (t & _ & ->).
  destruct (IH l') as [pre Hpre]. exists (t ++ pre).
  rewrite <- app_assoc, <- Hpre. reflexivity.
Qed.

Lemma drop_tokens_run (ws : list (list ascii)) (l : list ascii) :
  Forall (fun t => t ∈ toks) ws ->
  drop_tokens (length (concat ws ++ l)) toks (concat ws ++ l)
  = drop_tokens (length l) toks l.
Proof.
  induction 1 as [|t ws Ht _ IH]; [reflexivity|].
  cbn [concat]. rewrite <- app_assoc.
  set (L := concat ws ++ l) in *.
  pose proof (proj1 (Forall_forall _ _) toks_nonempty t Ht) as Hne.
  destruct t as [|c t]; [congruence|].
  change (length ((c :: t) ++ L)) with (S (length (t ++ L))).
  cbn [drop_tokens]. rewrite (toks_prefix_free (c :: t) L Ht).
  rewrite (drop_tokens_fuel (length (t ++ L)) (length L) L);
    [exact IH|rewrite length_app; lia|lia].
Qed.

End Tokens.

(** *** White space *)

Lemma white_space_nonempty : Forall (fun t => t <> []) white_space.
Proof. unfold white_space. repeat constructor; discriminate. Qed.

Lemma white_space_rev_nonempty : Forall (fun t => t <> []) white_space_rev.
Proof. unfold white_space_rev. repeat constructor; discriminate. Qed.

Lemma white_space_prefix_free (t l : list ascii) :
  t ∈ white_space -> after_token white_space (t ++ l) = Some l.
Proof.
  unfold white_space at 1. intros Ht.
  repeat (apply elem_of_cons in Ht as [->|Ht]; [reflexivity|]).
  apply elem_of_nil in Ht. contradiction.
Qed.

Lemma white_space_rev_prefix_free (t l : list ascii) :
  t ∈ white_space_rev -> after_token white_space_rev (t ++ l) = Some l.
Proof.
  unfold white_space_rev at 1. intros Ht.
  repeat (apply elem_of_cons in Ht as [->|Ht]; [reflexivity|]).
  apply elem_of_nil in Ht. contradiction.
Qed.

Lemma white_space_rev_spec : white_space_rev = @rev ascii <$> white_space.
Proof. reflexivity. Qed.

Lemma drop_space_run (ws : list (list ascii)) (l : list ascii) :
  white_run ws -> drop_space (concat ws ++ l) = drop_space l.
Proof.
  intros H. unfold drop_space.
  apply (drop_tokens_run white_space white_space_nonempty
           white_space_prefix_free ws l H).
Qed.

Lemma drop_space_fixed (l : list ascii) :
  after_token white_space l = None -> drop_space l = l.
Proof. apply drop_tokens_fixed. Qed.

Lemma drop_space_end_run (ws : list (list ascii)) (l : list ascii) :
  white_run ws -> drop_space_end (l ++ concat ws) = drop_space_end l.
Proof.
  intros H. unfold drop_space_end. f_equal.
  assert (Hws : Forall (fun t => t ∈ white_space_rev) (@rev ascii <$> rev ws)).
  { rewrite white_space_rev_spec. apply Forall_fmap, Forall_rev.
    eapply Forall_impl; [exact H|].
    intros t Ht. apply (list_elem_of_fmap_2 (@rev ascii)), Ht. }
  rewrite <- (length_rev (l ++ concat ws)), <- (length_rev l).
  rewrite rev_app_distr, rev_concat.
  apply (drop_tokens_run white_space_rev white_space_rev_nonempty
           white_space_rev_prefix_free _ _ Hws).
Qed.

Lemma drop_space_end_fixed (l : list ascii) :
  after_token white_space_rev (rev l) = None -> drop_space_end l = l.
Proof.
  intros H. unfold drop_space_end.
  rewrite (drop_tokens_fixed _ _ _ H). apply rev_involutive.
Qed.

Lemma trim_between_spaces (ws1 ws2 : list (list ascii)) (core : list ascii) :
  white_run ws1 -> white_run ws2 ->
  after_token white_space (core ++ concat ws2) = None ->
  after_token white_space_rev (rev core) = None ->
  trim (string_of_list_ascii (concat ws1 ++ core ++ concat ws2))
  = string_of_list_ascii core.
Proof.
  intros H1 H2 Hh Ht. unfold trim.
  rewrite list_ascii_of_string_of_list_ascii.
  rewrite (drop_space_run _ _ H1), (drop_space_fixed _ Hh).
  rewrite (drop_space_end_run _ _ H2), (drop_space_end_fixed _ Ht).
  reflexivity.
Qed.

Lemma trim_idem (s : string) : trim (trim s) = trim s.
Proof.
  unfold trim. rewrite list_ascii_of_string_of_list_ascii. f_equal.
  set (l1 := drop_space (list_ascii_of_string s)).
  assert (H1 : after_token white_space l1 = None).
  { apply (drop_tokens_done _ white_space_nonempty). reflexivity. }
  set (r := drop_tokens (length l1) white_space_rev (rev l1)).
  assert (Hr : after_token white_space_rev r = None).
  { apply (drop_tokens_done _ white_space_rev_nonempty).
    rewrite length_rev. reflexivity. }
  assert (Hend : drop_space_end l1 = rev r) by reflexivity.
  rewrite Hend.
  destruct (drop_tokens_suffix white_space_rev (length l1) (rev l1)) as [pre Hpre].
  fold r in Hpre.
  assert (Hl1 : l1 = rev r ++ rev pre).
  { rewrite <- rev_app_distr, <- Hpre, rev_involutive. reflexivity. }
  rewrite drop_space_fixed.
  - apply drop_space_end_fixed. rewrite rev_involutive. exact Hr.
  - apply (after_token_less _ _ (rev pre)). rewrite <- Hl1. exact H1.
Qed.

(** *** Codes and labels *)

Lemma span_zeros_repeat (n : nat) (c : ascii) (l : list ascii) :
  c <> "0"%char ->
  span_zeros (repeat "0"%char n ++ c :: l) = (n, c :: l).
Proof.
  intros Hc. induction n as [|n IH]; simpl.
  - destruct (decide (c = "0"%char)); [contradiction|reflexivity].
  - rewrite IH. reflexivity.
Qed.

Lemma rev_repeat {A : Type} (x : A) (n : nat) : rev (repeat x n) = repeat x n.
Proof.
  induction n as [|n IH]; [reflexivity|].
  simpl. rewrite IH. clear IH.
  induction n as [|n IH]; [reflexivity|]. simpl. rewrite IH. reflexivity.
Qed.

Lemma strip_dot_zeros_suffix (l : list ascii) (n : nat) :
  strip_dot_zeros (string_of_list_ascii (l ++ dot_zeros (S n)))
  = string_of_list_ascii l.
Proof.
  unfold strip_dot_zeros, dot_zeros.
  rewrite list_ascii_of_string_of_list_ascii.
  rewrite rev_app_distr.
  replace (rev ("."%char :: repeat "0"%char (S n)) ++ rev l)
    with (repeat "0"%char (S n) ++ "."%char :: rev l).
  2:{ change (rev ("."%char :: repeat "0"%char (S n)))
        with (rev (repeat "0"%char (S n)) ++ ["."%char]).
      rewrite rev_repeat, <- app_assoc. reflexivity. }
  rewrite span_zeros_repeat by discriminate.
  destruct (decide ("."%char = "."%char)); [|contradiction].
  rewrite rev_involutive. reflexivity.
Qed.

Lemma REASON_MAP_reason_label (k : string) :
  REASON_MAP k = match reason_label k with
                 | Some l => Label l
                 | None => if inherited k then Member else NoLabel
                 end.
Proof.
  unfold REASON_MAP, reason_label, reason_labels, assoc.
  repeat (destruct (decide (k = _)) as [->|?];
          [reflexivity|destruct (decide (_ = k)) as [<-|_]; [congruence|]]).
  reflexivity.
Qed.

Lemma reason_label_stripped (k l : string) :
  reason_label k = Some l -> reason_label (strip_dot_zeros k) = Some l.
Proof.
  unfold reason_label, reason_labels, assoc.
  repeat (destruct (decide (_ = k)) as [<-|?]; [intros H; exact H|]).
  discriminate.
Qed.

Lemma inherited_stripped (k : string) :
  inherited k = true -> strip_dot_zeros k = k.
Proof.
  unfold inherited. intros H. apply bool_decide_eq_true in H.
  unfold Object_prototype in H.
  repeat (apply elem_of_cons in H as [->|H]; [reflexivity|]).
  apply elem_of_nil in H. contradiction.
Qed.

(** The stored reason, by cases: the label of the code that is left when
    the dot and the zeros are stripped; else the member of
    [Object.prototype] that the trimmed text, or what is left of it, names;
    else "Unspecified" for a blank text and the trimmed text itself. *)
Lemma normalizeReason_cases (o : option string) :
  normalizeReason o =
  match reason_label (strip_dot_zeros (trim (default "" o))) with
  | Some l => Reason l
  | None =>
      if inherited (trim (default "" o))
         || inherited (strip_dot_zeros (trim (default "" o)))
      then ReasonMember
      else Reason (if decide (trim (default "" o) = "") then "Unspecified"
                   else trim (default "" o))
  end.
Proof.
  unfold normalizeReason. set (raw := trim (default "" o)).
  rewrite !REASON_MAP_reason_label.
  destruct (reason_label raw) as [l|] eqn:E.
  { rewrite (reason_label_stripped _ _ E). reflexivity. }
  destruct (inherited raw) eqn:Hin.
  { rewrite (inherited_stripped _ Hin), E. reflexivity. }
  cbn [orb].
  destruct (reason_label (strip_dot_zeros raw)) as [l|]; [reflexivity|].
  destruct (inherited (strip_dot_zeros raw)); reflexivity.
Qed.

Lemma written_code_normalized (c : ascii) (n : nat) (ws1 ws2 : list (list ascii)) :
  (forall l, after_token white_space (c :: l) = None) ->
  (forall l, after_token white_space_rev (c :: l) = None) ->
  c <> "."%char ->
  white_run ws1 -> white_run ws2 ->
  let raw := trim (written_code ws1 (String c EmptyString) n ws2) in
  raw = string_of_list_ascii (c :: dot_zeros n) /\
  strip_dot_zeros raw = String c EmptyString.
Proof.
  intros Hh Ht Hdot H1 H2 raw. unfold raw, written_code.
  change (list_ascii_of_string (String c EmptyString) ++ dot_zeros n)
    with (c :: dot_zeros n).
  rewrite trim_between_spaces; try assumption.
  - split; [reflexivity|]. destruct n as [|n].
    + unfold strip_dot_zeros, dot_zeros. simpl.
      destruct (decide (c = "0"%char)) as [->|_]; reflexivity.
    + apply (strip_dot_zeros_suffix [c] n).
  - apply Hh.
  - destruct n as [|n]; [apply Ht|].
    change (rev (c :: dot_zeros (S n)))
      with ((rev (repeat "0"%char (S n)) ++ ["."%char]) ++ [c]).
    rewrite rev_repeat. reflexivity.
Qed.

(** C8, as the code has it.  A reason that reads, between white space, as
    one of the codes 0 to 3, bare or followed by a dot and zeros, takes the
    label of the code; a blank or absent reason becomes "Unspecified"; any
    other reason is kept as its trimmed text, unless that text, or what is
    left of it when a final dot and zeros are stripped, is the name of a
    member of [Object.prototype]: the loader then stores the member, which
    is no text. *)
Theorem reason_normalization :
  (forall code label ws1 ws2 n,
     (code, label) ∈ reason_labels ->
     white_run ws1 -> white_run ws2 ->
     normalizeReason (Some (written_code ws1 code n ws2)) = Reason label) /\
  (forall o, trim (default "" o) = "" -> normalizeReason o = Reason "Unspecified") /\
  (forall o,
     trim (default "" o) <> "" ->
     reason_label (strip_dot_zeros (trim (default "" o))) = None ->
     inherited (trim (default "" o)) = false ->
     inherited (strip_dot_zeros (trim (default "" o))) = false ->
     normalizeReason o = Reason (trim (default "" o))) /\
  (forall o,
     inherited (trim (default "" o)) = true \/
     (reason_label (strip_dot_zeros (trim (default "" o))) = None /\
      inherited (strip_dot_zeros (trim (default "" o))) = true) ->
     normalizeReason o = ReasonMember) /\
  normalizeReason (Some "2") = Reason "Unforeseen Conditions" /\
  normalizeReason (Some "0.0") = Reason "Scope Change" /\
  normalizeReason (Some "") = Reason "Unspecified" /\
  normalizeReason None = Reason "Unspecified".
Proof.
  split; [|split; [|split; [|split]]].
  - intros code label ws1 ws2 n Hin H1 H2.
    rewrite normalizeReason_cases. cbn [default from_option Datatypes.id].
    unfold reason_labels in Hin.
    repeat (apply elem_of_cons in Hin as [Hin|Hin];
            [inversion Hin; subst code label;
             match goal with
             | |- context [written_code _ (String ?c EmptyString) _ _] =>
                 destruct (written_code_normalized c n ws1 ws2
                             ltac:(intros l; reflexivity)
                             ltac:(intros l; reflexivity)
                             ltac:(discriminate) H1 H2)
                   as [_ ->]
             end; reflexivity|]).
    apply elem_of_nil in Hin. destruct Hin.
  - intros o Ho. rewrite normalizeReason_cases, Ho. reflexivity.
  - intros o Hne Hnone Hi1 Hi2.
    rewrite normalizeReason_cases, Hnone, Hi1, Hi2. cbn [orb].
    destruct (decide (trim (default "" o) = "")); [contradiction|reflexivity].
  - intros o [Hi|[Hnone Hi]]; rewrite normalizeReason_cases.
    + rewrite (inherited_stripped _ Hi), Hi.
      assert (Hl : reason_label (trim (default "" o)) = None).
      { revert Hi. generalize (trim (default "" o)). intros k Hk.
        unfold inherited in Hk. apply bool_decide_eq_true in Hk.
        unfold Object_prototype in Hk.
        repeat (apply elem_of_cons in Hk as [->|Hk]; [reflexivity|]).
        apply elem_of_nil in Hk. contradiction. }
      rewrite Hl. reflexivity.
    + rewrite Hnone, Hi, orb_true_r. reflexivity.
  - repeat split; reflexivity.
Qed.

Lemma reason_normalization_witness :
  normalizeReason
    (Some (written_code [[" "%char]; ["194"%char; "160"%char]] "3" 2 [[" "%char]]))
  = Reason "Design Revision" /\
  normalizeReason (Some "   ") = Reason "Unspecified" /\
  normalizeReason (Some "2.5") = Reason "2.5" /\
  normalizeReason (Some "constructor") = ReasonMember.
Proof.
  split; [|split; [|split]].
  - apply (proj1 reason_normalization "3" "Design Revision").
    + unfold reason_labels. do 3 right. left.
    + unfold white_run.
      repeat (constructor; [compute_done|]).
      constructor.
    + unfold white_run.
      repeat (constructor; [compute_done|]).
      constructor.
  - apply (proj1 (proj2 reason_normalization) (Some "   ")). reflexivity.
  - apply (proj1 (proj2 (proj2 reason_normalization)) (Some "2.5")).
    + discriminate.
    + reflexivity.
    + reflexivity.
    + reflexivity.
  - apply (proj1 (proj2 (proj2 (proj2 reason_normalization))) (Some "constructor")).
    left. reflexivity.
Defined.

(** C8, as stated, fails on a reason that is neither blank nor a code: the
    reason "Weather" stays "Weather", it does not become "Unspecified". *)
Lemma unmapped_reason_is_kept :
  normalizeReason (Some "Weather") = Reason "Weather" /\
  reason_label (strip_dot_zeros (trim "Weather")) = None /\
  ~ unmapped_reasons_become_unspecified.
Proof.
  split; [reflexivity|]. split; [reflexivity|].
  intros H. specialize (H (Some "Weather")). discriminate H.
Qed.

End ReasonMapping.

(* ===================================================================== *)
(** ** Finite numbers *)
(* ===================================================================== *)

Section FiniteNumbers.
Import JS.
Local Open Scope R_scope.

Lemma Rltb_true (x y : R) : Rltb x y = true <-> x < y.
Proof. unfold Rltb. destruct (Rlt_dec x y); split; intros; try discriminate; tauto. Qed.

Lemma Rltb_false (x y : R) : Rltb x y = false <-> y <= x.
Proof.
  unfold Rltb. destruct (Rlt_dec x y); split; intros; try discriminate;
    try reflexivity; lra.
Qed.

Lemma Rleb_true (x y : R) : Rleb x y = true <-> x <= y.
Proof. unfold Rleb. destruct (Rle_dec x y); split; intros; try discriminate; tauto. Qed.

Lemma Rleb_false (x y : R) : Rleb x y = false <-> y < x.
Proof.
  unfold Rleb. destruct (Rle_dec x y); split; intros; try discriminate;
    try reflexivity; lra.
Qed.

Lemma Reqb_false (x y : R) : x <> y -> Reqb x y = false.
Proof. unfold Reqb. destruct (Req_dec_T x y); [contradiction|reflexivity]. Qed.

Lemma Reqb_refl (x : R) : Reqb x x = true.
Proof. unfold Reqb. destruct (Req_dec_T x x); [reflexivity|contradiction]. Qed.

Lemma div_Num (x y : R) : y <> 0 -> div (Num x) (Num y) = Num (x / y).
Proof. intros Hy. unfold div. rewrite (Reqb_false _ _ Hy). reflexivity. Qed.

Lemma Math_max_Num (x y : R) : Math_max (Num x) (Num y) = Num (Rmax x y).
Proof.
  unfold Math_max, lt, Rltb, Rmax.
  destruct (Rlt_dec x y), (Rle_dec x y); try reflexivity; try lra;
    f_equal; lra.
Qed.

Lemma Math_min_Num (x y : R) : Math_min (Num x) (Num y) = Num (Rmin x y).
Proof.
  unfold Math_min, lt, Rltb, Rmin.
  destruct (Rlt_dec y x), (Rle_dec x y); try reflexivity; try lra;
    f_equal; lra.
Qed.

Lemma clamp_Num (v lo hi : R) :
  clamp (Num v) (Num lo) (Num hi) = Num (Rmax lo (Rmin hi v)).
Proof. unfold clamp. rewrite Math_min_Num, Math_max_Num. reflexivity. Qed.

Lemma or_else_Num (x : R) : or_else (Num x) (Num 0) = Num x.
Proof.
  unfold or_else, truthy, Reqb. destruct (Req_dec_T x 0) as [->|]; reflexivity.
Qed.

Lemma Math_log10_Num (x : R) : 0 < x -> Math_log10 (Num x) = Num (ln x / ln 10).
Proof.
  intros Hx. unfold Math_log10. rewrite (proj2 (Rltb_true 0 x) Hx). reflexivity.
Qed.

Lemma ln_10_pos : 0 < ln 10.
Proof. rewrite <- ln_1. apply ln_increasing; lra. Qed.

Lemma of_Z_add_of_nat (z : Z) (n : nat) :
  add (of_Z z) (of_nat n) = of_Z (z + Z.of_nat n).
Proof. unfold add, of_Z, of_nat. rewrite plus_IZR, <- INR_IZR_INZ. reflexivity. Qed.

Lemma day_ms_nonzero : IZR ms_per_day <> 0.
Proof. apply not_0_IZR. discriminate. Qed.

Lemma day_ms_pos : 0 < IZR ms_per_day.
Proof. apply IZR_lt. reflexivity. Qed.

(** Reads of a plain object *)

Lemma get_own (m : gmap string num) (k : string) (a : num) :
  m !! k = Some a -> get m k = VNum a.
Proof. unfold get. intros ->. reflexivity. Qed.

Lemma read_own (m : gmap string num) (k : string) (a : num) :
  m !! k = Some a -> Number (or_num (get m k) (Num 0)) = or_else a (Num 0).
Proof. intros H. rewrite (get_own _ _ _ H). reflexivity. Qed.

Lemma read_ordinary (m : gmap string num) (k : string) :
  inherited k = false ->
  Number (or_num (get m k) (Num 0)) = or_default (m !! k) (Num 0).
Proof.
  intros H. unfold get. rewrite H. destruct (m !! k); reflexivity.
Qed.

Lemma read_member (m : gmap string num) (k : string) :
  m !! k = None -> inherited k = true ->
  Number (or_num (get m k) (Num 0)) = NaN.
Proof. intros H1 H2. unfold get. rewrite H1, H2. reflexivity. Qed.

Lemma read_empty (k : string) :
  inherited k = false -> Number (or_num (get ∅ k) (Num 0)) = Num 0.
Proof. intros H. rewrite (read_ordinary _ _ H), lookup_empty. reflexivity. Qed.

End FiniteNumbers.

(* ===================================================================== *)
(** ** Trend fitting: short series and projection *)
(* ===================================================================== *)

Section Projection.
Import JS Data Predictive.
Local Open Scope R_scope.

Lemma small_series {A : Type} (m : gmap Z A) :
  (size m < 2)%nat -> m = ∅ \/ exists k v, m = {[k := v]}.
Proof.
  rewrite <- length_map_to_list. intros Hlen.
  destruct (map_to_list m) as [|[k v] [|kv l]] eqn:E.
  - left. apply map_to_list_empty_iff, E.
  - right. exists k, v. rewrite <- (list_to_map_to_list m), E. simpl.
    apply insert_empty.
  - simpl in Hlen. lia.
Qed.

Lemma linReg_empty : linReg ∅ = Regression (Num 0) (Num 0) [] [].
Proof. unfold linReg. rewrite map_to_list_empty. reflexivity. Qed.

Lemma linReg_singleton (k : Z) (v : num) :
  linReg {[k := v]} = Regression (or_else v (Num 0)) (Num 0) [k] [v].
Proof.
  unfold linReg. rewrite map_to_list_singleton.
  cbn [fmap list_fmap fst]. change (merge_sort Z.le [k]) with [k].
  cbn [length]. destruct (decide (1 < 2)%nat) as [_|Hn]; [|lia].
  cbn [fmap list_fmap]. rewrite lookup_singleton_eq. reflexivity.
Qed.

Lemma forecast_loop (f g : nat -> num) (idx : list nat) :
  forall out : list num * list num,
    foldl (fun (out : list num * list num) (i : nat) =>
             (out.1 ++ [f i], out.2 ++ [g i])) out idx
    = (out.1 ++ (f <$> idx), out.2 ++ (g <$> idx)).
Proof.
  induction idx as [|i idx IH]; intros [l1 l2]; simpl.
  - rewrite !app_nil_r. reflexivity.
  - rewrite IH. simpl. rewrite <- !app_assoc. reflexivity.
Qed.

Lemma forecastNextYears_unfold (a b lastYear : num) (h : nat) :
  forecastNextYears a b lastYear (Z.of_nat h) =
  ((fun i => add lastYear (of_nat i)) <$> seq 1 h,
   (fun i => add a (mul b (add lastYear (of_nat i)))) <$> seq 1 h).
Proof.
  unfold forecastNextYears. rewrite Nat2Z.id.
  apply (forecast_loop (fun i => add lastYear (of_nat i))
                       (fun i => add a (mul b (add lastYear (of_nat i))))).
Qed.

(** C5.  A series with fewer than two points is fitted by the flat line
    through its only value (through 0 when it is empty), and the projection
    over a horizon [h] lists, in order, the [h] years that follow the last
    observed one, each with the value [a + b * year]. *)
Theorem degenerate_fit_and_projection :
  (forall m : gmap Z R,
     (size m < 2)%nat ->
     let fit := linReg (Num <$> m) in
     reg_b fit = Num 0 /\
     reg_a fit = Num (match map_to_list m with (_, v) :: _ => v | [] => 0 end)) /\
  (forall (a b : R) (lastYear : Z) (h : nat),
     let out := forecastNextYears (Num a) (Num b) (of_Z lastYear) (Z.of_nat h) in
     out.1 = (fun i => of_Z (lastYear + Z.of_nat i)) <$> seq 1 h /\
     out.2 = (fun i => Num (a + b * IZR (lastYear + Z.of_nat i))) <$> seq 1 h /\
     length out.1 = h /\ length out.2 = h) /\
  (let fit := linReg {[ 2022%Z := Num 500 ]} in
   reg_a fit = Num 500 /\ reg_b fit = Num 0 /\
   forecastNextYears (reg_a fit) (reg_b fit) (of_Z 2022) 3
   = ([Num 2023; Num 2024; Num 2025], [Num 500; Num 500; Num 500])).
Proof.
  split; [|split].
  - intros m Hm fit. subst fit.
    destruct (small_series m Hm) as [->|(k & v & ->)].
    + rewrite fmap_empty, linReg_empty, map_to_list_empty. split; reflexivity.
    + rewrite map_fmap_singleton, linReg_singleton, map_to_list_singleton.
      cbn [reg_a reg_b]. rewrite or_else_Num. split; reflexivity.
  - intros a b lastYear h out. subst out.
    rewrite forecastNextYears_unfold. cbn [fst snd].
    repeat split.
    + apply list_fmap_ext. intros _ i _. apply of_Z_add_of_nat.
    + apply list_fmap_ext. intros _ i _.
      rewrite of_Z_add_of_nat. reflexivity.
    + rewrite length_fmap, length_seq. reflexivity.
    + rewrite length_fmap, length_seq. reflexivity.
  - cbv zeta. rewrite linReg_singleton. cbn [reg_a reg_b].
    rewrite or_else_Num. split; [reflexivity|]. split; [reflexivity|].
    change 3%Z with (Z.of_nat 3). rewrite forecastNextYears_unfold.
    cbn [seq fmap list_fmap]. rewrite !of_Z_add_of_nat.
    simpl Z.add.
    unfold of_Z, mul, add. f_equal; repeat f_equal; lra.
Qed.

Lemma degenerate_fit_and_projection_witness :
  (size ({[ 2022%Z := 500%R ]} : gmap Z R) < 2)%nat /\
  reg_b (linReg (Num <$> ({[ 2022%Z := 500%R ]} : gmap Z R))) = Num 0 /\
  reg_a (linReg (Num <$> ({[ 2022%Z := 500%R ]} : gmap Z R))) = Num 500.
Proof.
  assert (H : (size ({[ 2022%Z := 500%R ]} : gmap Z R) < 2)%nat).
  { rewrite map_size_singleton. lia. }
  split; [exact H|].
  destruct (proj1 degenerate_fit_and_projection _ H) as [Hb Ha].
  split; [exact Hb|]. rewrite Ha, map_to_list_singleton. reflexivity.
Defined.

End Projection.

(* ===================================================================== *)
(** ** Portfolio overrun probability *)
(* ===================================================================== *)

Section OverrunProbability.
Import JS Data Spec Predictive.
Local Open Scope R_scope.

Lemma foldl_add_Num (l : list R) (a : R) :
  foldl add (Num a) (Num <$> l) = Num (a + Rsum l).
Proof.
  revert a. induction l as [|x l IH]; intros a; simpl.
  - f_equal. lra.
  - rewrite IH. f_equal. lra.
Qed.

Lemma sum_Num (l : list R) : sum (Num <$> l) = Num (Rsum l).
Proof. unfold sum. rewrite foldl_add_Num. f_equal. lra. Qed.

Lemma INR_length_nonzero {A : Type} (x : A) (l : list A) : INR (length (x :: l)) <> 0.
Proof. apply not_0_INR. discriminate. Qed.

Lemma mean_Num (l : list R) : mean (Num <$> l) = Num (Rmean l).
Proof.
  destruct l as [|x l]; [reflexivity|].
  assert (E : mean (Num <$> x :: l)
              = div (sum (Num <$> x :: l)) (of_nat (length (Num <$> x :: l))))
    by reflexivity.
  rewrite E, sum_Num, length_fmap. unfold of_nat.
  rewrite div_Num by apply INR_length_nonzero. reflexivity.
Qed.

Lemma schedule_variance_days (r : project) :
  schedule_variance r = from_option Num NaN (variance_days r).
Proof.
  unfold schedule_variance, variance_days, parseDate.
  destruct (planned_end r) as [|[pe|]], (actual_end r) as [|[ae|]];
    try reflexivity.
  cbn [new_Date Date_sub from_option]. unfold day_ms, of_Z.
  rewrite div_Num by apply day_ms_nonzero. reflexivity.
Qed.

Lemma finite_variances (rows : list project) :
  filter (fun v => isFinite v = true) (schedule_variance <$> rows)
  = Num <$> omap variance_days rows.
Proof.
  induction rows as [|r rows IH]; [reflexivity|].
  rewrite fmap_cons, filter_cons, schedule_variance_days. simpl omap.
  destruct (variance_days r) as [d|]; simpl.
  - rewrite IH. reflexivity.
  - exact IH.
Qed.

Lemma eligible_budget_and_cost (r : project) :
  eligible r = true <-> is_Some (budget_and_cost r).
Proof.
  unfold eligible, budget_and_cost, gt, lt.
  destruct (planned_budget r) as [b| | |], (actual_cost r) as [c| | |]; simpl;
    try (split; [discriminate|intros [? ?]; discriminate]).
  - destruct (decide (0 < b)) as [Hb|Hb].
    + rewrite (proj2 (Rltb_true 0 b) Hb). split; [eauto|reflexivity].
    + rewrite (proj2 (Rltb_false 0 b)) by lra.
      split; [discriminate|intros [? ?]; discriminate].
  - destruct (Rltb 0 b); simpl; split; try discriminate; intros [? ?]; discriminate.
  - destruct (Rltb 0 b); simpl; split; try discriminate; intros [? ?]; discriminate.
  - destruct (Rltb 0 b); simpl; split; try discriminate; intros [? ?]; discriminate.
Qed.

Lemma eligible_counts (rows : list project) :
  let elig := filter (fun r => eligible r = true) rows in
  length elig = length (omap budget_and_cost rows) /\
  length (filter (fun r => gt (actual_cost r) (planned_budget r) = true) elig)
  = length (filter (fun p => p.1 < p.2) (omap budget_and_cost rows)).
Proof.
  induction rows as [|r rows [IH1 IH2]]; [split; reflexivity|].
  cbv zeta in *. rewrite filter_cons. simpl omap.
  pose proof (eligible_budget_and_cost r) as He.
  destruct (decide (eligible r = true)) as [Hr|Hr].
  - destruct (proj1 He Hr) as [[b c] Hbc]. rewrite Hbc.
    split; [simpl; rewrite IH1; reflexivity|].
    assert (Hgt : gt (actual_cost r) (planned_budget r) = Rltb b c).
    { unfold budget_and_cost in Hbc.
      destruct (planned_budget r) as [b'| | |]; try discriminate.
      destruct (actual_cost r) as [c'| | |]; try discriminate.
      destruct (decide (0 < b')); [|discriminate].
      inversion Hbc; subst b' c'. reflexivity. }
    rewrite !filter_cons. cbn [fst snd].
    destruct (decide (gt (actual_cost r) (planned_budget r) = true)) as [H1|H1];
      destruct (decide (b < c)) as [H2|H2]; rewrite Hgt in H1.
    + simpl. rewrite IH2. reflexivity.
    + exfalso. apply H2, Rltb_true, H1.
    + exfalso. apply H1, Rltb_true, H2.
    + exact IH2.
  - destruct (budget_and_cost r) as [p|] eqn:Hbc.
    + exfalso. apply Hr, He. eauto.
    + split; assumption.
Qed.

Lemma baseline_range (rows : list project) : 0 <= baseline rows <= 1.
Proof.
  unfold baseline. destruct (omap budget_and_cost rows) as [|p el]; [lra|].
  set (l := p :: el).
  assert (Hpos : 0 < INR (length l)) by (apply lt_0_INR; simpl; lia).
  assert (Hle : INR (length (filter (fun p => p.1 < p.2) l)) <= INR (length l))
    by (apply le_INR, length_filter).
  assert (H0 : 0 <= INR (length (filter (fun p => p.1 < p.2) l)))
    by apply pos_INR.
  split.
  - apply Rmult_le_pos; [exact H0|]. apply Rlt_le, Rinv_0_lt_compat, Hpos.
  - apply Rmult_le_reg_r with (INR (length l)); [exact Hpos|].
    unfold Rdiv. rewrite Rmult_assoc, Rinv_l by lra. lra.
Qed.

Lemma Rclamp_range (x lo hi : R) : lo <= hi -> lo <= Rclamp x lo hi <= hi.
Proof.
  intros H. unfold Rclamp, Rmax, Rmin.
  repeat match goal with |- context [Rle_dec ?a ?b] => destruct (Rle_dec a b) end.
  all: split; lra.
Qed.

Lemma Rclamp_min_max (x : R) : Rmin 1 (Rmax 0 x) = Rclamp x 0 1.
Proof.
  unfold Rclamp.
  destruct (Rle_dec 0 x) as [H0|H0]; destruct (Rle_dec 1 x) as [H1|H1].
  - rewrite (Rmax_right 0 x), (Rmin_left 1 x), Rmax_right by lra. reflexivity.
  - rewrite (Rmax_right 0 x), (Rmin_right 1 x), Rmax_right by lra. reflexivity.
  - lra.
  - rewrite (Rmax_left 0 x), (Rmin_right 1 0), (Rmin_right 1 x), Rmax_left by lra.
    reflexivity.
Qed.

Lemma base_is_baseline (rows : list project) :
  let elig := filter (fun r => eligible r = true) rows in
  match elig with
  | [] => Num 0
  | _ => div (of_nat (length (filter (fun r => gt (actual_cost r) (planned_budget r) = true) elig)))
             (of_nat (length elig))
  end = Num (baseline rows).
Proof.
  destruct (eligible_counts rows) as [H1 H2]. cbv zeta in *.
  unfold baseline.
  destruct (filter (fun r => eligible r = true) rows) as [|r el] eqn:E1;
    destruct (omap budget_and_cost rows) as [|p ps] eqn:E2;
    try discriminate H1; [reflexivity|].
  unfold of_nat. rewrite div_Num by apply INR_length_nonzero.
  rewrite H1, H2. reflexivity.
Qed.

Lemma adjusted_empty : baseline [] = 0 /\ adjusted [] = 0.
Proof.
  split; [reflexivity|]. unfold adjusted, baseline, Rclamp. simpl.
  destruct (decide (0 < 0)) as [H|_]; [lra|].
  rewrite Rmin_right, Rmax_left by lra. reflexivity.
Qed.

(** C6.  The portfolio overrun estimate returns the documented baseline and
    adjusted probabilities; both lie between 0 and 1, and both are 0 on an
    empty list of rows. *)
Theorem portfolio_overrun_estimate :
  forall rows : list project,
    portfolioOverrunProbability rows
      = OverrunProbability (Num (baseline rows)) (Num (adjusted rows)) /\
    0 <= baseline rows <= 1 /\
    0 <= adjusted rows <= 1 /\
    portfolioOverrunProbability [] = OverrunProbability (Num 0) (Num 0).
Proof.
  assert (Hmain : forall rows,
    portfolioOverrunProbability rows
      = OverrunProbability (Num (baseline rows)) (Num (adjusted rows))).
  { intros rows. unfold portfolioOverrunProbability.
    rewrite (base_is_baseline rows), finite_variances, mean_Num.
    f_equal. unfold adjusted. rewrite <- Rclamp_min_max.
    unfold gt, lt.
    destruct (decide (0 < Rmean (omap variance_days rows))) as [H|H].
    - rewrite (proj2 (Rltb_true _ _) H).
      cbn [add]. rewrite Math_max_Num, Math_min_Num. reflexivity.
    - rewrite (proj2 (Rltb_false _ _)) by lra.
      cbn [add]. rewrite Math_max_Num, Math_min_Num. reflexivity. }
  intros rows. split; [apply Hmain|]. split; [apply baseline_range|].
  split; [apply Rclamp_range; lra|].
  rewrite Hmain. destruct adjusted_empty as [-> ->]. reflexivity.
Qed.

End OverrunProbability.

(* ===================================================================== *)
(** ** Savings estimate *)
(* ===================================================================== *)

Section Savings.
Import JS Data Spec Prescriptive.
Local Open Scope R_scope.

Lemma scheduleSlipDays_days (p : project) :
  scheduleSlipDays p = Num (default 0 (variance_days p)).
Proof.
  unfold scheduleSlipDays, variance_days, parseDate.
  destruct (planned_end p) as [|[pe|]], (actual_end p) as [|[ae|]];
    try reflexivity.
  cbn [new_Date Date_isNaN orb Date_sub default from_option].
  unfold day_ms, of_Z. rewrite div_Num by apply day_ms_nonzero. reflexivity.
Qed.

Lemma slip_nonneg (p : project) :
  Math_max (Num 0) (scheduleSlipDays p) = Num (slip_days p).
Proof. rewrite scheduleSlipDays_days, Math_max_Num. reflexivity. Qed.

Lemma Rmax_1_nonzero (b : R) : Rmax 1 b <> 0.
Proof. pose proof (Rmax_l 1 b). lra. Qed.

Lemma chooseAction_category (u : R) (p : project) (coTot slip over : num) :
  chooseAction u p coTot slip over ∈ categories.
Proof.
  unfold chooseAction, categories.
  repeat match goal with
         | |- context [if ?c then _ else _] => destruct c
         end; set_solver.
Qed.

(** C9, as the code has it.  For each of the four categories the savings
    estimate is the documented one, computed on the planned budget raised
    to at least 1: the cap is 7% of [max(1, budget)] and the change-order
    share of the scope rate is taken over [max(1, budget)].  On a budget of
    1 or more this is the documented estimate itself. *)
Theorem savings_estimate :
  forall (p : project) (cat : string) (b overrun coTotal : R),
    planned_budget p = Num b ->
    cat ∈ categories ->
    estimateSavings p cat (Num overrun) (Num coTotal)
    = Num (savings cat (Rmax 1 b) overrun coTotal (slip_days p)) /\
    (1 <= b ->
     estimateSavings p cat (Num overrun) (Num coTotal)
     = Num (savings cat b overrun coTotal (slip_days p))).
Proof.
  intros p cat b overrun coTotal Hb Hcat.
  assert (Hmain : estimateSavings p cat (Num overrun) (Num coTotal)
                  = Num (savings cat (Rmax 1 b) overrun coTotal (slip_days p))).
  { unfold estimateSavings, savings, pct.
    rewrite Hb, slip_nonneg, Math_max_Num.
    rewrite (div_Num coTotal) by apply Rmax_1_nonzero.
    rewrite (div_Num (slip_days p) 180) by lra.
    rewrite !Math_min_Num. cbn [add mul].
    unfold categories in Hcat.
    repeat (destruct (decide (cat = _)) as [_|?];
            [cbn [add mul]; rewrite Math_min_Num, Math_max_Num; reflexivity|]).
    exfalso.
    repeat (apply elem_of_cons in Hcat as [Hcat|Hcat]; [contradiction|]).
    apply elem_of_nil in Hcat. exact Hcat. }
  split; [exact Hmain|].
  intros H1. rewrite Hmain, (Rmax_right 1 b) by lra. reflexivity.
Qed.

Lemma savings_estimate_witness :
  let p := Project "P1" (iso 2022 1 10) (iso 2023 1 1) (iso 2023 2 15)
                   (Num 1000000) (Num 1200000) in
  planned_budget p = Num 1000000 /\
  "Scope alignment" ∈ categories /\
  1 <= 1000000 /\
  estimateSavings p "Scope alignment" (Num 200000) (Num 50000)
  = Num (savings "Scope alignment" 1000000 200000 50000 (slip_days p)).
Proof.
  intros p.
  assert (Hb : planned_budget p = Num 1000000) by reflexivity.
  assert (Hc : "Scope alignment" ∈ categories) by (left).
  assert (H1 : 1 <= 1000000) by lra.
  split; [exact Hb|]. split; [exact Hc|]. split; [exact H1|].
  exact (proj2 (savings_estimate p "Scope alignment" 1000000 200000 50000 Hb Hc) H1).
Defined.

(** C9, as stated, fails below a budget of 1: for a project without a
    planned budget (parsed as 0), an overrun of 10 and the category
    "Design clarification", the estimate is 0.07, where 7% of the budget
    caps the documented estimate at 0. *)
Lemma savings_cap_uses_raised_budget :
  let p := Project "P1" (iso 2022 1 10) (iso 2023 1 1) Blank (Num 0) (Num 10) in
  estimateSavings p "Design clarification" (Num 10) (Num 0) = Num 0.07 /\
  savings "Design clarification" 0 10 0 (slip_days p) = 0 /\
  ~ savings_on_planned_budget.
Proof.
  intros p.
  assert (H1 : estimateSavings p "Design clarification" (Num 10) (Num 0) = Num 0.07).
  { unfold estimateSavings, p. cbn [planned_budget].
    rewrite Math_max_Num.
    destruct (decide ("Design clarification" = "Scope alignment")) as [E|_];
      [discriminate E|].
    destruct (decide ("Design clarification" = "Design clarification")) as [_|E];
      [|contradiction].
    cbn [add mul]. rewrite Math_min_Num, Math_max_Num. f_equal.
    rewrite (Rmax_left 1 0) by lra.
    rewrite Rmin_left by lra. rewrite Rmax_right by lra. lra. }
  assert (H2 : savings "Design clarification" 0 10 0 (slip_days p) = 0).
  { unfold savings, pct.
    destruct (decide ("Design clarification" = "Scope alignment")) as [E|_];
      [discriminate E|].
    destruct (decide ("Design clarification" = "Design clarification")) as [_|E];
      [|contradiction].
    rewrite Rmin_left by lra. rewrite Rmax_right by lra. lra. }
  split; [exact H1|]. split; [exact H2|].
  intros Hclaim.
  specialize (Hclaim p "Design clarification" 0 10 0 eq_refl
                ltac:(unfold categories; set_solver)).
  rewrite H1, H2 in Hclaim. inversion Hclaim. lra.
Qed.

End Savings.

(* ===================================================================== *)
(** ** Rule-variant risk score *)
(* ===================================================================== *)

Section RuleScore.
Import JS Data Spec Predictive.
Local Open Scope R_scope.

Lemma Int_part_IZR_plus_half (z : Z) : Int_part (IZR z + / 2) = z.
Proof. symmetry. apply Int_part_spec. lra. Qed.

Lemma round_IZR (z : Z) : round (IZR z) = IZR z.
Proof. unfold round. rewrite Int_part_IZR_plus_half. reflexivity. Qed.

Lemma Int_part_le (x y : R) : x <= y -> (Int_part x <= Int_part y)%Z.
Proof.
  intros H. destruct (base_Int_part x) as [Hx1 Hx2].
  destruct (base_Int_part y) as [Hy1 Hy2].
  apply Z.lt_succ_r, lt_IZR. rewrite succ_IZR. lra.
Qed.

Lemma round_mono (x y : R) : x <= y -> round x <= round y.
Proof. intros H. unfold round. apply IZR_le, Int_part_le. lra. Qed.

Lemma ruleRiskScore_slip (row : project) :
  well_dated (planned_end row) -> well_dated (actual_end row) ->
  match parseDate (planned_end row), parseDate (actual_end row) with
  | Some pe, Some ae => Math_max (Num 0) (div (Date_sub ae pe) day_ms)
  | _, _ => Num 0
  end = Num (slip_days row).
Proof.
  unfold well_dated, slip_days, variance_days, parseDate. intros Hp Ha.
  destruct (planned_end row) as [|[pe|]], (actual_end row) as [|[ae|]];
    try congruence; cbn [default from_option Datatypes.id];
    try (rewrite Rmax_left by lra; reflexivity).
  cbn [new_Date Date_sub]. unfold day_ms, of_Z.
  rewrite div_Num by apply day_ms_nonzero. apply Math_max_Num.
Qed.

Lemma Rmax_1_pos (b : R) : 0 < Rmax 1 b.
Proof. pose proof (Rmax_l 1 b). lra. Qed.

(** The score on a row with a finite budget and well-formed dates: the
    rounded weighted sum, capped at 100 from above only. *)
Lemma ruleRiskScore_finite (row : project) (coMap : gmap string num) (b t : R) :
  planned_budget row = Num b ->
  well_dated (planned_end row) -> well_dated (actual_end row) ->
  co_read coMap row = Num t ->
  ruleRiskScore row coMap
  = Num (Rmin 100 (round (rule_raw b (slip_days row) t))).
Proof.
  intros Hb Hp Ha Ht. unfold ruleRiskScore. unfold co_read in Ht.
  rewrite (ruleRiskScore_slip row Hp Ha), Hb, Ht, Math_max_Num.
  rewrite Math_log10_Num by apply Rmax_1_pos.
  cbn [mul add Math_round]. rewrite Math_min_Num. reflexivity.
Qed.

Lemma log10_1 : log10 1 = 0.
Proof. unfold log10. rewrite ln_1. unfold Rdiv. lra. Qed.

Lemma log10_million : log10 1000000 = 6.
Proof.
  unfold log10. replace 1000000 with (10 ^ 6) by (simpl; lra).
  rewrite ln_pow by lra. simpl INR. pose proof ln_10_pos. field. lra.
Qed.

Lemma log10_nonneg (x : R) : 1 <= x -> 0 <= log10 x.
Proof.
  intros Hx. unfold log10. pose proof ln_10_pos as H10.
  assert (0 <= ln x).
  { destruct Hx as [Hx|<-]; [|rewrite ln_1; lra].
    rewrite <- ln_1. apply Rlt_le, ln_increasing; lra. }
  apply Rmult_le_pos; [assumption|]. apply Rlt_le, Rinv_0_lt_compat, H10.
Qed.

Lemma slip_days_nonneg (p : project) : 0 <= slip_days p.
Proof. unfold slip_days. apply Rmax_l. Qed.

(** Where the weighted sum is not below -1/2, capping the rounded sum at
    100 is the documented clamp to 0..100 followed by rounding. *)
Lemma capped_round_is_rule_score (b s t : R) :
  - / 2 <= rule_raw b s t ->
  Rmin 100 (round (rule_raw b s t)) = rule_score b s t /\
  0 <= rule_score b s t <= 100.
Proof.
  intros Hraw. unfold rule_score. set (x := rule_raw b s t) in *.
  assert (H0 : round 0 = 0) by apply (round_IZR 0).
  assert (H100 : round 100 = 100) by apply (round_IZR 100).
  assert (Hlow : 0 <= round x).
  { replace 0 with (round (- / 2)).
    - apply round_mono, Hraw.
    - unfold round. f_equal. symmetry. apply Int_part_spec. lra. }
  unfold Rclamp.
  destruct (Rle_dec 100 x) as [Hx|Hx].
  - rewrite (Rmin_left 100 x), (Rmax_right 0 100), H100 by lra.
    pose proof (round_mono 100 x Hx) as Hm. rewrite H100 in Hm.
    rewrite Rmin_left by lra. lra.
  - rewrite (Rmin_right 100 x) by lra.
    assert (Hx100 : round x <= 100)
      by (rewrite <- H100; apply round_mono; lra).
    rewrite Rmin_right by lra.
    destruct (Rle_dec 0 x) as [Hx0|Hx0].
    + rewrite (Rmax_right 0 x) by lra. lra.
    + rewrite (Rmax_left 0 x), H0 by lra.
      assert (round x <= 0) by (rewrite <- H0; apply round_mono; lra). lra.
Qed.

(** With a change-order total that is not negative the score is the
    documented one, between 0 and 100. *)
Lemma ruleRiskScore_documented (row : project) (coMap : gmap string num) (b t : R) :
  planned_budget row = Num b ->
  well_dated (planned_end row) -> well_dated (actual_end row) ->
  co_read coMap row = Num t ->
  0 <= t ->
  ruleRiskScore row coMap = Num (rule_score b (slip_days row) t) /\
  0 <= rule_score b (slip_days row) t <= 100.
Proof.
  intros Hb Hp Ha Ht Hpos.
  rewrite (ruleRiskScore_finite row coMap b t Hb Hp Ha Ht).
  assert (Hraw : - / 2 <= rule_raw b (slip_days row) t).
  { unfold rule_raw. pose proof (log10_nonneg (Rmax 1 b) (Rmax_l 1 b)).
    pose proof (slip_days_nonneg row). nra. }
  destruct (capped_round_is_rule_score _ _ _ Hraw) as [-> Hr].
  split; [reflexivity|exact Hr].
Qed.

Lemma slip_days_example :
  slip_days (Project "P1" (iso 2022 1 10) (iso 2023 1 1) (iso 2023 2 15)
                     (Num 1000000) (Num 1200000)) = 45.
Proof.
  unfold slip_days, variance_days, iso. cbn [planned_end actual_end default from_option Datatypes.id].
  replace (utc 2023 2 15 - utc 2023 1 1)%Z with (45 * ms_per_day)%Z by reflexivity.
  rewrite mult_IZR. pose proof day_ms_nonzero.
  replace (45 * IZR ms_per_day / IZR ms_per_day) with 45 by (field; assumption).
  apply Rmax_right. lra.
Qed.

(** The documented example: a budget of 1,000,000, planned end 2023-01-01,
    actual end 2023-02-15 (45 days late) and no change orders give the
    score 100. *)
Lemma rule_score_example :
  ruleRiskScore (Project "P1" (iso 2022 1 10) (iso 2023 1 1) (iso 2023 2 15)
                         (Num 1000000) (Num 1200000)) ∅ = Num 100.
Proof.
  set (p := Project _ _ _ _ _ _).
  assert (Hco : co_read ∅ p = Num 0) by (apply read_empty; reflexivity).
  destruct (ruleRiskScore_documented p ∅ 1000000 0 eq_refl
              ltac:(discriminate) ltac:(discriminate) Hco ltac:(lra)) as [-> _].
  f_equal. unfold rule_score, rule_raw, p.
  rewrite slip_days_example, (Rmax_right 1 1000000), log10_million by lra.
  unfold Rclamp. rewrite Rmin_left, Rmax_right by lra. apply (round_IZR 100).
Qed.

Lemma slip_days_blank (id : string) (sd pe : date_text) (b c : num) :
  slip_days (Project id sd pe Blank b c) = 0.
Proof.
  unfold slip_days, variance_days. cbn [planned_end actual_end].
  destruct pe as [|[t|]]; cbn [default from_option Datatypes.id];
    apply Rmax_left; lra.
Qed.

Lemma rule_raw_no_budget (b t : R) :
  b <= 1 -> rule_raw b 0 t = 0.000005 * t.
Proof.
  intros Hb. unfold rule_raw. rewrite (Rmax_left 1 b), log10_1 by lra. lra.
Qed.

(** C1 on the code.  The code rounds the weighted sum and caps it at 100,
    without the lower bound of the documented clamp: for a project with a
    budget of 1, no actual end and change orders that sum to -1,000,000
    the score is -5, where the documented formula gives 0. *)
Theorem rule_score_below_documented_clamp :
  let p := Project "P7" (iso 2022 3 1) (iso 2022 9 1) Blank (Num 1) (Num 1) in
  let coMap : gmap string num := {[ "P7" := Num (-1000000) ]} in
  ruleRiskScore p coMap = Num (-5) /\
  rule_score 1 (slip_days p) (-1000000) = 0.
Proof.
  intros p coMap.
  assert (Hs : slip_days p = 0) by apply slip_days_blank.
  split.
  - rewrite (ruleRiskScore_finite p coMap 1 (-1000000));
      [|reflexivity|discriminate|discriminate|].
    + rewrite Hs, rule_raw_no_budget by lra. f_equal.
      replace (0.000005 * -1000000) with (IZR (-5)) by lra.
      rewrite round_IZR. apply Rmin_right. lra.
    + unfold co_read, coMap. cbn [project_id p].
      rewrite (read_own _ _ _ (lookup_singleton_eq _ _)).
      unfold or_else, truthy. rewrite Reqb_false by lra. reflexivity.
  - rewrite Hs. unfold rule_score. rewrite rule_raw_no_budget by lra.
    unfold Rclamp. rewrite Rmin_right, Rmax_left by lra. apply (round_IZR 0).
Qed.

Lemma changeOrderTotalsByProject_one (id reason : string) (d : date_text) (c : R) :
  id <> "" -> inherited id = false ->
  changeOrderTotalsByProject [ChangeOrder id (Num c) reason d] = {[ id := Num c ]}.
Proof.
  intros Hid Hin. unfold changeOrderTotalsByProject.
  cbn [foldl co_project_id co_cost isFinite].
  unfold id_or_missing. destruct (decide (id = "")); [contradiction|].
  unfold str_add, get. rewrite lookup_empty, Hin. cbn [or_num add].
  rewrite insert_empty. f_equal. f_equal. lra.
Qed.

(** C2 on the code.  The scorer is a function of its input, but its score
    can leave the range 0..100 from below: for a project without a planned
    budget (parsed as 0) and one change order of -200,000 (a credit) the
    per-project total is -200,000 and the score is -1. *)
Theorem rule_score_negative_on_credit :
  let p := Project "P1" (iso 2022 3 1) (iso 2022 9 1) Blank (Num 0) (Num 0) in
  let cos := [ChangeOrder "P1" (Num (-200000)) "Client Request" (iso 2022 5 1)] in
  changeOrderTotalsByProject cos = {[ "P1" := Num (-200000) ]} /\
  ruleRiskScore p (changeOrderTotalsByProject cos) = Num (-1) /\
  le (Num 0) (ruleRiskScore p (changeOrderTotalsByProject cos)) = false.
Proof.
  intros p cos.
  assert (Hm : changeOrderTotalsByProject cos = {[ "P1" := Num (-200000) ]})
    by (apply changeOrderTotalsByProject_one; [discriminate|reflexivity]).
  assert (Hs : ruleRiskScore p (changeOrderTotalsByProject cos) = Num (-1)).
  { rewrite Hm.
    rewrite (ruleRiskScore_finite p _ 0 (-200000));
      [|reflexivity|discriminate|discriminate|].
    - rewrite (slip_days_blank _ _ _ _ _ : slip_days p = 0),
        rule_raw_no_budget by lra.
      f_equal. replace (0.000005 * -200000) with (IZR (-1)) by lra.
      rewrite round_IZR. apply Rmin_right. lra.
    - unfold co_read. cbn [project_id p].
      rewrite (read_own _ _ _ (lookup_singleton_eq _ _)).
      unfold or_else, truthy. rewrite Reqb_false by lra. reflexivity. }
  split; [exact Hm|]. split; [exact Hs|].
  rewrite Hs. unfold le. apply Rleb_false. lra.
Qed.

End RuleScore.

(* ===================================================================== *)
(** ** Least-squares fit *)
(* ===================================================================== *)

Section Sums.
Import JS Data Spec.
Local Open Scope R_scope.

Lemma Rsum_cons (x : R) (l : list R) : Rsum (x :: l) = x + Rsum l.
Proof. reflexivity. Qed.

Lemma Rsum_perm (l1 l2 : list R) : l1 ≡ₚ l2 -> Rsum l1 = Rsum l2.
Proof.
  induction 1 as [|x l1 l2 _ IH|x y l|l1 l2 l3 _ IH1 _ IH2];
    rewrite ?Rsum_cons; try lra; congruence.
Qed.

Lemma Rsum_fmap_perm {A : Type} (f : A -> R) (l1 l2 : list A) :
  l1 ≡ₚ l2 -> Rsum (f <$> l1) = Rsum (f <$> l2).
Proof. intros H. apply Rsum_perm, fmap_Permutation, H. Qed.

Lemma Rsum_fmap_ext {A : Type} (f g : A -> R) (l : list A) :
  (forall x, x ∈ l -> f x = g x) -> Rsum (f <$> l) = Rsum (g <$> l).
Proof.
  induction l as [|x l IH]; intros H; [reflexivity|].
  rewrite !fmap_cons. rewrite (Rsum_cons (f x)), (Rsum_cons (g x)).
  rewrite (H x) by left. rewrite IH; [reflexivity|].
  intros y Hy. apply H. right. exact Hy.
Qed.

Lemma Rsum_nonneg {A : Type} (f : A -> R) (l : list A) :
  (forall x, 0 <= f x) -> 0 <= Rsum (f <$> l).
Proof.
  intros H. induction l as [|x l IH]; [simpl; lra|].
  rewrite fmap_cons, Rsum_cons. specialize (H x). lra.
Qed.

Lemma foldl_add_map {A : Type} (g : A -> num) (gr : A -> R) (l : list A) :
  (forall x, g x = Num (gr x)) ->
  forall a : R,
    foldl (fun acc x => add acc (g x)) (Num a) l = Num (a + Rsum (gr <$> l)).
Proof.
  intros Hg. induction l as [|x l IH]; intros a.
  - simpl. f_equal. lra.
  - rewrite fmap_cons, Rsum_cons. cbn [foldl].
    rewrite Hg. cbn [add]. rewrite IH. f_equal. lra.
Qed.

Lemma foldl_fmap_shift {A B C : Type} (f : A -> C -> A) (h : B -> C)
    (a : A) (l : list B) :
  foldl f a (h <$> l) = foldl (fun acc x => f acc (h x)) a l.
Proof. revert a. induction l as [|x l IH]; intros a; simpl; [reflexivity|apply IH]. Qed.

(** The loop [xs.reduce((a,_,i) => a + xs[i]*ys[i], 0)] on finite lists *)
Lemma foldl_products_from (lx ly : list R) :
  length lx = length ly ->
  forall a : R,
    foldl (fun acc i => add acc (mul (to_num ((Num <$> lx) !! i))
                                     (to_num ((Num <$> ly) !! i))))
          (Num a) (seq 0 (length lx))
    = Num (a + Rsum (zip_with Rmult lx ly)).
Proof.
  revert ly. induction lx as [|x lx IH]; intros [|y ly] Hlen a;
    try discriminate Hlen.
  - simpl. f_equal. lra.
  - cbn [length seq foldl]. rewrite <- fmap_S_seq, foldl_fmap_shift.
    cbn [fmap list_fmap lookup list_lookup to_num default from_option
         Datatypes.id mul add zip_with].
    rewrite (IH ly) by (simpl in Hlen; lia).
    f_equal. rewrite Rsum_cons. lra.
Qed.

Lemma foldl_products (lx ly : list R) (n : nat) (a : R) :
  n = length lx -> n = length ly ->
  foldl (fun acc i => add acc (mul (to_num ((Num <$> lx) !! i))
                                   (to_num ((Num <$> ly) !! i))))
        (Num a) (seq 0 n)
  = Num (a + Rsum (zip_with Rmult lx ly)).
Proof. intros -> H. apply foldl_products_from. exact H. Qed.

Lemma zip_with_fmap_same {A : Type} (f g : A -> R) (l : list A) :
  zip_with Rmult (f <$> l) (g <$> l) = (fun x => f x * g x) <$> l.
Proof.
  induction l as [|x l IH]; [reflexivity|].
  rewrite !fmap_cons. cbn [zip_with]. rewrite IH. reflexivity.
Qed.

End Sums.

Section FitOnFiniteSeries.
Import JS Data Spec Predictive.
Local Open Scope R_scope.

Variable m : gmap Z R.

Lemma keys_of_fmap : (map_to_list (Num <$> m)).*1 = (map_to_list m).*1.
Proof.
  rewrite map_to_list_fmap, <- list_fmap_compose.
  apply list_fmap_ext. intros i [k v] _. reflexivity.
Qed.

Lemma sorted_years_perm : sorted_years m ≡ₚ (map_to_list m).*1.
Proof. apply merge_sort_Permutation. Qed.

Lemma sorted_years_length : length (sorted_years m) = size m.
Proof.
  rewrite (Permutation_length sorted_years_perm).
  rewrite length_fmap. apply length_map_to_list.
Qed.

Lemma key_value (x : Z) : x ∈ sorted_years m -> m !! x = Some (value_at m x).
Proof.
  intros Hx. rewrite sorted_years_perm in Hx.
  apply list_elem_of_fmap in Hx as ([k v] & -> & Hkv).
  apply elem_of_map_to_list in Hkv. unfold value_at. simpl. rewrite Hkv.
  reflexivity.
Qed.

Lemma ys_finite :
  (fun x => to_num ((Num <$> m) !! x)) <$> sorted_years m = Num <$> (value_at m <$> sorted_years m).
Proof.
  rewrite <- list_fmap_compose. apply list_fmap_ext. intros i x Hx.
  apply list_elem_of_lookup_2, key_value in Hx.
  rewrite lookup_fmap, Hx. reflexivity.
Qed.

Lemma sum_over_keys (g : Z * R -> R) :
  Rsum ((fun x => g (x, (value_at m) x)) <$> sorted_years m) = Rsum (g <$> map_to_list m).
Proof.
  rewrite (Rsum_fmap_perm _ _ _ sorted_years_perm).
  rewrite <- list_fmap_compose. apply Rsum_fmap_ext. intros [k v] Hkv.
  apply elem_of_map_to_list in Hkv. unfold value_at. simpl. rewrite Hkv.
  reflexivity.
Qed.

Lemma sums_of_series :
  Rsum (IZR <$> sorted_years m) = Sx (points m) /\
  Rsum (value_at m <$> sorted_years m) = Sy (points m) /\
  Rsum ((fun x => x * x) <$> (IZR <$> sorted_years m)) = Sxx (points m) /\
  Rsum (zip_with Rmult (IZR <$> sorted_years m) (value_at m <$> sorted_years m)) = Sxy (points m) /\
  INR (length (sorted_years m)) = npts (points m).
Proof.
  unfold Sx, Sy, Sxx, Sxy, npts, points.
  rewrite <- !list_fmap_compose, zip_with_fmap_same, length_fmap.
  repeat split.
  - apply (sum_over_keys (fun kv => IZR kv.1)).
  - apply (sum_over_keys (fun kv => kv.2)).
  - apply (sum_over_keys (fun kv => IZR kv.1 * IZR kv.1)).
  - apply (sum_over_keys (fun kv => IZR kv.1 * kv.2)).
  - rewrite sorted_years_length, length_map_to_list. reflexivity.
Qed.

(** The fit of a series of two or more finite values, in real numbers *)
Lemma linReg_finite :
  (2 <= size m)%nat ->
  reg_b (linReg (Num <$> m)) = Num (fit_slope (points m)) /\
  reg_a (linReg (Num <$> m)) = Num (fit_intercept (points m)).
Proof.
  intros Hsize. unfold linReg. rewrite keys_of_fmap.
  change (merge_sort Z.le (map_to_list m).*1) with (sorted_years m).
  destruct (decide (length (sorted_years m) < 2)%nat) as [Hlt|_];
    [rewrite sorted_years_length in Hlt; lia|].
  cbn [reg_a reg_b].
  rewrite ys_finite.
  replace (of_Z <$> sorted_years m) with (Num <$> (IZR <$> sorted_years m))
    by (rewrite <- list_fmap_compose; reflexivity).
  change (foldl (fun a b => add a b) (Num 0) (Num <$> (IZR <$> sorted_years m)))
    with (foldl add (Num 0) (Num <$> (IZR <$> sorted_years m))).
  change (foldl (fun a b => add a b) (Num 0) (Num <$> (value_at m <$> sorted_years m)))
    with (foldl add (Num 0) (Num <$> (value_at m <$> sorted_years m))).
  rewrite !foldl_add_Num.
  rewrite (foldl_fmap_shift (fun a b => add a (mul b b)) Num).
  rewrite (foldl_add_map (fun x => mul (Num x) (Num x)) (fun x => x * x))
    by reflexivity.
  rewrite (foldl_products (IZR <$> sorted_years m) (value_at m <$> sorted_years m))
    by (rewrite length_fmap; reflexivity).
  destruct sums_of_series as (-> & -> & -> & -> & Hn).
  unfold of_nat. rewrite Hn.
  cbn [mul sub add neg]. rewrite Math_max_Num.
  rewrite div_Num by apply Rmax_1_nonzero.
  assert (Hb : (npts (points m) * (0 + Sxy (points m))
                + - ((0 + Sx (points m)) * (0 + Sy (points m))))
               / Rmax 1 (npts (points m) * (0 + Sxx (points m))
                         + - ((0 + Sx (points m)) * (0 + Sx (points m))))
               = fit_slope (points m)).
  { unfold fit_slope. rewrite !Rplus_0_l. reflexivity. }
  rewrite Hb. split; [reflexivity|].
  cbn [mul sub add neg].
  assert (Hnz : npts (points m) <> 0).
  { rewrite <- Hn, sorted_years_length. apply not_0_INR. lia. }
  rewrite div_Num by exact Hnz.
  unfold fit_intercept. rewrite !Rplus_0_l. reflexivity.
Qed.

End FitOnFiniteSeries.

Section LeastSquares.
Import JS Data Spec Predictive.
Local Open Scope R_scope.

Lemma sums_cons (p : R * R) (pts : list (R * R)) :
  Sx (p :: pts) = p.1 + Sx pts /\
  Sy (p :: pts) = p.2 + Sy pts /\
  Sxx (p :: pts) = p.1 * p.1 + Sxx pts /\
  Sxy (p :: pts) = p.1 * p.2 + Sxy pts /\
  Syy (p :: pts) = p.2 * p.2 + Syy pts /\
  npts (p :: pts) = 1 + npts pts.
Proof.
  unfold Sx, Sy, Sxx, Sxy, Syy, npts. rewrite !fmap_cons, !Rsum_cons.
  repeat split. change (length (p :: pts)) with (S (length pts)).
  rewrite S_INR. lra.
Qed.

Lemma sse_cons (p : R * R) (pts : list (R * R)) (a b : R) :
  sse (p :: pts) a b = (p.2 - (a + b * p.1)) * (p.2 - (a + b * p.1)) + sse pts a b.
Proof. unfold sse. rewrite fmap_cons, Rsum_cons. reflexivity. Qed.

(** The sum of squared residuals as a polynomial in the line *)
Lemma sse_expand (pts : list (R * R)) (a b : R) :
  sse pts a b =
  Syy pts - 2 * a * Sy pts - 2 * b * Sxy pts
  + npts pts * a * a + 2 * a * b * Sx pts + b * b * Sxx pts.
Proof.
  induction pts as [|p pts IH].
  - unfold sse, Syy, Sy, Sxy, Sx, Sxx, npts. simpl. lra.
  - destruct (sums_cons p pts) as (-> & -> & -> & -> & -> & ->).
    rewrite sse_cons, IH. ring.
Qed.

Lemma shift_expand (pts : list (R * R)) (da db : R) :
  Rsum ((fun p => (da + db * p.1) * (da + db * p.1)) <$> pts) =
  npts pts * da * da + 2 * da * db * Sx pts + db * db * Sxx pts.
Proof.
  induction pts as [|p pts IH].
  - unfold Sx, Sxx, npts. simpl. lra.
  - destruct (sums_cons p pts) as (-> & _ & -> & _ & _ & ->).
    rewrite fmap_cons, Rsum_cons, IH. ring.
Qed.

(** A line that satisfies the two normal equations has the least sum of
    squared residuals. *)
Lemma normal_equations_minimize (pts : list (R * R)) (a b : R) :
  Sy pts - npts pts * a - b * Sx pts = 0 ->
  Sxy pts - a * Sx pts - b * Sxx pts = 0 ->
  forall a' b', sse pts a b <= sse pts a' b'.
Proof.
  intros N1 N2 a' b'.
  pose proof (Rsum_nonneg (fun p : R * R => ((a' - a) + (b' - b) * p.1)
                                            * ((a' - a) + (b' - b) * p.1))
                pts (fun p => Rle_0_sqr _)) as Hsq.
  rewrite shift_expand in Hsq. rewrite !sse_expand.
  assert (E : Syy pts - 2 * a' * Sy pts - 2 * b' * Sxy pts
              + npts pts * a' * a' + 2 * a' * b' * Sx pts + b' * b' * Sxx pts
              - (Syy pts - 2 * a * Sy pts - 2 * b * Sxy pts
                 + npts pts * a * a + 2 * a * b * Sx pts + b * b * Sxx pts)
              = npts pts * (a' - a) * (a' - a)
                + 2 * (a' - a) * (b' - b) * Sx pts
                + (b' - b) * (b' - b) * Sxx pts
                - 2 * (a' - a) * (Sy pts - npts pts * a - b * Sx pts)
                - 2 * (b' - b) * (Sxy pts - a * Sx pts - b * Sxx pts))
    by ring.
  rewrite N1, N2 in E. lra.
Qed.

Lemma sq_dist_sum (x : R) (l : list R) :
  Rsum ((fun y => (x - y) * (x - y)) <$> l) =
  INR (length l) * x * x - 2 * x * Rsum l + Rsum ((fun y => y * y) <$> l).
Proof.
  induction l as [|y l IH]; [simpl; lra|].
  rewrite !fmap_cons, !Rsum_cons, IH.
  change (length (y :: l)) with (S (length l)). rewrite S_INR. ring.
Qed.

Lemma int_sq_dist (x y : Z) : x <> y -> 1 <= (IZR x - IZR y) * (IZR x - IZR y).
Proof.
  intros H. rewrite <- minus_IZR, <- mult_IZR. apply IZR_le. nia.
Qed.

(** [n·Σx² − (Σx)²] grows by at least the number of earlier years when
    one more year, different from all of them, is added *)
Lemma spread_step (x : Z) (l : list Z) :
  x ∉ l ->
  INR (length l)
  <= (INR (length (x :: l)) * Rsum ((fun y => y * y) <$> (IZR <$> x :: l))
      - Rsum (IZR <$> x :: l) * Rsum (IZR <$> x :: l))
     - (INR (length l) * Rsum ((fun y => y * y) <$> (IZR <$> l))
        - Rsum (IZR <$> l) * Rsum (IZR <$> l)).
Proof.
  intros Hx. rewrite !fmap_cons, !Rsum_cons.
  change (length (x :: l)) with (S (length l)). rewrite S_INR.
  assert (Hsum : INR (length l)
                 <= Rsum ((fun y => (IZR x - y) * (IZR x - y)) <$> (IZR <$> l))).
  { induction l as [|y l IH]; [simpl; lra|].
    rewrite !fmap_cons, Rsum_cons.
    change (length (y :: l)) with (S (length l)). rewrite S_INR.
    apply not_elem_of_cons in Hx as [Hxy Hx].
    pose proof (int_sq_dist x y Hxy). specialize (IH Hx). lra. }
  rewrite sq_dist_sum, length_fmap in Hsum. lra.
Qed.

Lemma spread_nonneg (l : list Z) :
  NoDup l ->
  0 <= INR (length l) * Rsum ((fun y => y * y) <$> (IZR <$> l))
       - Rsum (IZR <$> l) * Rsum (IZR <$> l).
Proof.
  induction 1 as [|x k Hx _ IH]; [simpl; lra|].
  pose proof (spread_step x k Hx). pose proof (pos_INR (length k)). lra.
Qed.

(** [n·Σx² − (Σx)²] is at least 1 on two or more distinct integers *)
Lemma spread_of_distinct_years (l : list Z) :
  NoDup l -> (2 <= length l)%nat ->
  1 <= INR (length l) * Rsum ((fun y => y * y) <$> (IZR <$> l))
       - Rsum (IZR <$> l) * Rsum (IZR <$> l).
Proof.
  intros Hnd Hlen. destruct Hnd as [|x k Hx Hk]; [simpl in Hlen; lia|].
  pose proof (spread_step x k Hx) as H1. pose proof (spread_nonneg k Hk) as H2.
  assert (1 <= INR (length k)).
  { simpl in Hlen. change 1 with (INR 1). apply le_INR. lia. }
  lra.
Qed.

Lemma points_years (m : gmap Z R) :
  (fun p : R * R => p.1) <$> points m = IZR <$> (map_to_list m).*1.
Proof. unfold points. rewrite <- !list_fmap_compose. reflexivity. Qed.

Lemma spread_of_series (m : gmap Z R) :
  (2 <= size m)%nat ->
  1 <= npts (points m) * Sxx (points m) - Sx (points m) * Sx (points m).
Proof.
  intros Hsize.
  pose proof (spread_of_distinct_years (map_to_list m).*1
                (NoDup_fst_map_to_list m)) as H.
  rewrite length_fmap, length_map_to_list in H. specialize (H Hsize).
  unfold npts, Sxx, Sx.
  replace ((fun p : R * R => p.1 * p.1) <$> points m)
    with ((fun y => y * y) <$> ((fun p : R * R => p.1) <$> points m))
    by (rewrite <- list_fmap_compose; reflexivity).
  rewrite points_years. unfold points.
  rewrite length_fmap, length_map_to_list. exact H.
Qed.

Lemma npts_of_series (m : gmap Z R) :
  (2 <= size m)%nat -> 2 <= npts (points m).
Proof.
  intros H. unfold npts, points. rewrite length_fmap, length_map_to_list.
  change 2 with (INR 2). apply le_INR, H.
Qed.

Lemma fit_normal_equations (pts : list (R * R)) :
  2 <= npts pts ->
  1 <= npts pts * Sxx pts - Sx pts * Sx pts ->
  Sy pts - npts pts * fit_intercept pts - fit_slope pts * Sx pts = 0 /\
  Sxy pts - fit_intercept pts * Sx pts - fit_slope pts * Sxx pts = 0.
Proof.
  intros Hn HD. unfold fit_intercept.
  set (b := fit_slope pts).
  assert (Hb : b * (npts pts * Sxx pts - Sx pts * Sx pts)
               = npts pts * Sxy pts - Sx pts * Sy pts).
  { unfold b, fit_slope. rewrite Rmax_right by exact HD. field. lra. }
  assert (H1 : Sy pts - npts pts * ((Sy pts - b * Sx pts) / npts pts)
               - b * Sx pts = 0) by (field; lra).
  split; [exact H1|].
  apply Rmult_eq_reg_l with (npts pts); [|lra].
  rewrite Rmult_0_r.
  replace (npts pts * (Sxy pts - (Sy pts - b * Sx pts) / npts pts * Sx pts
                       - b * Sxx pts))
    with (npts pts * Sxy pts - Sx pts * Sy pts
          - b * (npts pts * Sxx pts - Sx pts * Sx pts)) by (field; lra).
  rewrite Hb. lra.
Qed.

Lemma centered_products (pts : list (R * R)) (c d : R) :
  Rsum ((fun p => (p.1 - c) * (p.2 - d)) <$> pts)
  = Sxy pts - c * Sy pts - d * Sx pts + npts pts * c * d.
Proof.
  induction pts as [|p pts IH].
  - unfold Sxy, Sy, Sx, npts. simpl. lra.
  - destruct (sums_cons p pts) as (-> & -> & _ & -> & _ & ->).
    rewrite fmap_cons, Rsum_cons, IH. ring.
Qed.

Lemma centered_squares (pts : list (R * R)) (c : R) :
  Rsum ((fun p => (p.1 - c) * (p.1 - c)) <$> pts)
  = Sxx pts - 2 * c * Sx pts + npts pts * c * c.
Proof.
  induction pts as [|p pts IH].
  - unfold Sxx, Sx, npts. simpl. lra.
  - destruct (sums_cons p pts) as (-> & _ & -> & _ & _ & ->).
    rewrite fmap_cons, Rsum_cons, IH. ring.
Qed.

(** The documented formulas are those of the reference definition. *)
Lemma fit_is_reference_ols (pts : list (R * R)) :
  2 <= npts pts ->
  1 <= npts pts * Sxx pts - Sx pts * Sx pts ->
  fit_slope pts = ols_slope pts /\ fit_intercept pts = ols_intercept pts.
Proof.
  intros Hn HD.
  assert (Hs : fit_slope pts = ols_slope pts).
  { unfold fit_slope, ols_slope. rewrite Rmax_right by exact HD.
    rewrite centered_products, centered_squares. unfold xbar, ybar.
    replace (Sxx pts - 2 * (Sx pts / npts pts) * Sx pts
             + npts pts * (Sx pts / npts pts) * (Sx pts / npts pts))
      with ((npts pts * Sxx pts - Sx pts * Sx pts) / npts pts) by (field; lra).
    replace (Sxy pts - Sx pts / npts pts * Sy pts - Sy pts / npts pts * Sx pts
             + npts pts * (Sx pts / npts pts) * (Sy pts / npts pts))
      with ((npts pts * Sxy pts - Sx pts * Sy pts) / npts pts) by (field; lra).
    field. split; lra. }
  split; [exact Hs|].
  unfold fit_intercept, ols_intercept, xbar, ybar. rewrite Hs. field. lra.
Qed.

(** C4.  On a series of two or more years the fit returns the documented
    slope and intercept; this line has the least sum of squared residuals
    over the points of the series, and it is the line of the reference
    least-squares definition. *)
Theorem least_squares_fit :
  forall m : gmap Z R,
    (2 <= size m)%nat ->
    let pts := points m in
    let fit := linReg (Num <$> m) in
    reg_b fit = Num (fit_slope pts) /\
    reg_a fit = Num (fit_intercept pts) /\
    (forall a b : R, sse pts (fit_intercept pts) (fit_slope pts) <= sse pts a b) /\
    fit_slope pts = ols_slope pts /\
    fit_intercept pts = ols_intercept pts.
Proof.
  intros m Hsize pts fit.
  pose proof (npts_of_series m Hsize) as Hn.
  pose proof (spread_of_series m Hsize) as HD.
  destruct (linReg_finite m Hsize) as [Hb Ha].
  destruct (fit_normal_equations (points m) Hn HD) as [N1 N2].
  destruct (fit_is_reference_ols (points m) Hn HD) as [Hs Hi].
  split; [exact Hb|]. split; [exact Ha|].
  split; [|split; assumption].
  apply normal_equations_minimize; assumption.
Qed.

Lemma least_squares_fit_witness :
  let m : gmap Z R := {[ 2020%Z := 10; 2021%Z := 30 ]} in
  (2 <= size m)%nat /\
  reg_b (linReg (Num <$> m)) = Num (fit_slope (points m)) /\
  (forall a b : R,
     sse (points m) (fit_intercept (points m)) (fit_slope (points m))
     <= sse (points m) a b).
Proof.
  intros m.
  assert (H : (2 <= size m)%nat).
  { unfold m. rewrite map_size_insert_None, map_size_singleton; [lia|].
    apply lookup_singleton_ne. discriminate. }
  split; [exact H|].
  destruct (least_squares_fit m H) as (Hb & _ & Hmin & _).
  split; [exact Hb|exact Hmin].
Defined.

End LeastSquares.

(* ===================================================================== *)
(** ** Spread-variant risk score *)
(* ===================================================================== *)

Section SpreadScore.
Import JS Data Spec Prescriptive.
Local Open Scope R_scope.

Lemma foldl_Rmin_le (l : list R) (a : R) :
  foldl Rmin a l <= a /\ forall y, y ∈ l -> foldl Rmin a l <= y.
Proof.
  revert a. induction l as [|x l IH]; intros a; simpl.
  - split; [lra|]. intros y Hy. apply elem_of_nil in Hy. destruct Hy.
  - destruct (IH (Rmin a x)) as [H1 H2].
    pose proof (Rmin_l a x). pose proof (Rmin_r a x).
    split; [lra|]. intros y Hy.
    apply elem_of_cons in Hy as [->|Hy]; [lra|apply H2, Hy].
Qed.

Lemma foldl_Rmin_in (l : list R) (a : R) : foldl Rmin a l ∈ a :: l.
Proof.
  revert a. induction l as [|x l IH]; intros a; simpl; [left|].
  specialize (IH (Rmin a x)). apply elem_of_cons in IH as [E|IH].
  - rewrite E. unfold Rmin. destruct (Rle_dec a x); [left|right; left].
  - right. right. exact IH.
Qed.

Lemma foldl_Rmax_ge (l : list R) (a : R) :
  a <= foldl Rmax a l /\ forall y, y ∈ l -> y <= foldl Rmax a l.
Proof.
  revert a. induction l as [|x l IH]; intros a; simpl.
  - split; [lra|]. intros y Hy. apply elem_of_nil in Hy. destruct Hy.
  - destruct (IH (Rmax a x)) as [H1 H2].
    pose proof (Rmax_l a x). pose proof (Rmax_r a x).
    split; [lra|]. intros y Hy.
    apply elem_of_cons in Hy as [->|Hy]; [lra|apply H2, Hy].
Qed.

Lemma foldl_Rmax_in (l : list R) (a : R) : foldl Rmax a l ∈ a :: l.
Proof.
  revert a. induction l as [|x l IH]; intros a; simpl; [left|].
  specialize (IH (Rmax a x)). apply elem_of_cons in IH as [E|IH].
  - rewrite E. unfold Rmax. destruct (Rle_dec a x); [right; left|left].
  - right. right. exact IH.
Qed.

Lemma Rlist_min_spec (l : list R) :
  l <> [] -> Rlist_min l ∈ l /\ forall y, y ∈ l -> Rlist_min l <= y.
Proof.
  destruct l as [|x l]; [congruence|]. intros _. unfold Rlist_min.
  split; [apply foldl_Rmin_in|].
  destruct (foldl_Rmin_le l x) as [H1 H2].
  intros y Hy. apply elem_of_cons in Hy as [->|Hy]; [exact H1|apply H2, Hy].
Qed.

Lemma Rlist_max_spec (l : list R) :
  l <> [] -> Rlist_max l ∈ l /\ forall y, y ∈ l -> y <= Rlist_max l.
Proof.
  destruct l as [|x l]; [congruence|]. intros _. unfold Rlist_max.
  split; [apply foldl_Rmax_in|].
  destruct (foldl_Rmax_ge l x) as [H1 H2].
  intros y Hy. apply elem_of_cons in Hy as [->|Hy]; [exact H1|apply H2, Hy].
Qed.

Lemma d3_min_from (l : list R) (a : R) :
  foldl (fun mn v =>
           match mn with
           | None => if ge v v then Some v else None
           | Some m => if gt m v then Some v else mn
           end) (Some (Num a)) (Num <$> l)
  = Some (Num (foldl Rmin a l)).
Proof.
  revert a. induction l as [|x l IH]; intros a; [reflexivity|].
  rewrite fmap_cons. cbn [foldl]. unfold gt, lt.
  destruct (Rltb x a) eqn:E.
  - apply Rltb_true in E. rewrite IH, (Rmin_right a x) by lra. reflexivity.
  - apply Rltb_false in E. rewrite IH, (Rmin_left a x) by lra. reflexivity.
Qed.

Lemma d3_max_from (l : list R) (a : R) :
  foldl (fun mx v =>
           match mx with
           | None => if ge v v then Some v else None
           | Some m => if lt m v then Some v else mx
           end) (Some (Num a)) (Num <$> l)
  = Some (Num (foldl Rmax a l)).
Proof.
  revert a. induction l as [|x l IH]; intros a; [reflexivity|].
  rewrite fmap_cons. cbn [foldl]. unfold lt.
  destruct (Rltb a x) eqn:E.
  - apply Rltb_true in E. rewrite IH, (Rmax_right a x) by lra. reflexivity.
  - apply Rltb_false in E. rewrite IH, (Rmax_left a x) by lra. reflexivity.
Qed.

Lemma d3_min_finite (l : list R) :
  l <> [] -> d3_min (Num <$> l) = Some (Num (Rlist_min l)).
Proof.
  destruct l as [|x l]; [congruence|]. intros _.
  unfold d3_min. rewrite fmap_cons. cbn [foldl]. unfold ge, le.
  rewrite (proj2 (Rleb_true x x)) by lra. apply d3_min_from.
Qed.

Lemma d3_max_finite (l : list R) :
  l <> [] -> d3_max (Num <$> l) = Some (Num (Rlist_max l)).
Proof.
  destruct l as [|x l]; [congruence|]. intros _.
  unfold d3_max. rewrite fmap_cons. cbn [foldl]. unfold ge, le.
  rewrite (proj2 (Rleb_true x x)) by lra. apply d3_max_from.
Qed.

Lemma finite_num (a : num) : isFinite a = true -> exists x, a = Num x.
Proof. destruct a as [x| | |]; try discriminate. eauto. Qed.

Lemma overrun_nonneg (p : project) : 0 <= overrun p.
Proof.
  unfold overrun. destruct (planned_budget p), (actual_cost p);
    try lra; apply Rmax_l.
Qed.

Lemma co_total_nonneg (coMap : gmap string num) (p : project) :
  0 <= co_total coMap p.
Proof.
  unfold co_total. destruct (co_read _ _); try lra; apply Rmax_l.
Qed.

Lemma costOverrun_floor (p : project) (b : R) :
  planned_budget p = Num b ->
  Math_max (Num 0) (costOverrun p) = Num (overrun p).
Proof.
  intros Hb. unfold costOverrun, overrun. rewrite Hb. cbn [isFinite negb orb].
  destruct (actual_cost p) as [c| | |]; cbn [isFinite negb sub neg add];
    rewrite Math_max_Num; try (rewrite Rmax_left by lra; reflexivity).
  reflexivity.
Qed.

Lemma ratio_log (x d : R) :
  0 <= x -> 0 < d ->
  Math_log10 (add (Num 1) (div (Num x) (Num d))) = Num (log10 (1 + x / d)).
Proof.
  intros Hx Hd. rewrite div_Num by lra. cbn [add].
  apply Math_log10_Num.
  assert (0 <= x / d) by (apply Rmult_le_pos; [lra|apply Rlt_le, Rinv_0_lt_compat, Hd]).
  lra.
Qed.

(** The raw composite on finite inputs, in real numbers *)
Lemma raw_composite_finite (coMap : gmap string num) (p : project) :
  finite_inputs coMap p ->
  raw_composite p coMap = Num (computed_raw coMap p).
Proof.
  intros [Hb Ht].
  apply finite_num in Hb as [b Hb]. apply finite_num in Ht as [t Ht].
  unfold raw_composite, computed_raw, spread_raw.
  rewrite (costOverrun_floor p b Hb), slip_nonneg.
  assert (Hco : co_total coMap p = Rmax 0 t) by (unfold co_total; rewrite Ht; reflexivity).
  unfold co_read in Ht.
  assert (Hbud : budget_of p = b) by (unfold budget_of; rewrite Hb; reflexivity).
  rewrite Ht, Hb, !Math_max_Num, <- Hco, Hbud.
  rewrite Math_log10_Num by apply Rmax_1_pos.
  rewrite !ratio_log
    by first [apply Rmax_1_pos | apply co_total_nonneg | apply overrun_nonneg].
  rewrite (div_Num (slip_days p) 60) by lra.
  reflexivity.
Qed.

(** The loop that assigns the scores: a key that is not an id of the
    cohort is left alone, and with distinct ids every project keeps the
    score computed at its turn. *)
Lemma assign_scores (G : nat -> num -> num) (raws : list (string * num)) :
  forall (m0 : gmap string num) (k0 : nat),
    let res := (foldl (fun (st : gmap string num * nat) (r : string * num) =>
                         (<[r.1 := G st.2 r.2]> st.1, S st.2))
                      (m0, k0) raws).1 in
    (forall k, k ∉ raws.*1 -> res !! k = m0 !! k) /\
    (NoDup raws.*1 ->
     forall i r, raws !! i = Some r -> res !! r.1 = Some (G (k0 + i)%nat r.2)).
Proof.
  induction raws as [|r0 raws IH]; intros m0 k0 res.
  - split; [reflexivity|]. intros _ i r Hr. discriminate Hr.
  - subst res. cbn [foldl fst snd]. rewrite fmap_cons.
    destruct (IH (<[r0.1 := G k0 r0.2]> m0) (S k0)) as [IH1 IH2].
    split.
    + intros k Hk. apply not_elem_of_cons in Hk as [Hne Hk].
      rewrite (IH1 k Hk). apply lookup_insert_ne. congruence.
    + intros Hnd i r Hr. apply NoDup_cons in Hnd as [Hnin Hnd].
      destruct i as [|i].
      * inversion Hr; subst r. rewrite (IH1 _ Hnin), lookup_insert_eq.
        rewrite Nat.add_0_r. reflexivity.
      * rewrite (IH2 Hnd i r Hr). do 2 f_equal. lia.
Qed.

(** An assignment [acc[id] = v] stores [v] under every id but "__proto__". *)
Lemma put_storable (o : gmap string num) (k : string) (a : num) :
  k <> "__proto__" -> put o k a = <[k := a]> o.
Proof. intros H. unfold put. destruct (decide (k = "__proto__")); [contradiction|reflexivity]. Qed.

Lemma put_all_storable (G : nat -> num -> num) (raws : list (string * num)) :
  Forall (fun r : string * num => r.1 <> "__proto__") raws ->
  forall st : gmap string num * nat,
    foldl (fun (st : gmap string num * nat) (r : string * num) =>
             (put st.1 r.1 (G st.2 r.2), S st.2)) st raws
    = foldl (fun (st : gmap string num * nat) (r : string * num) =>
               (<[r.1 := G st.2 r.2]> st.1, S st.2)) st raws.
Proof.
  induction 1 as [|r raws Hr _ IH]; intros st; [reflexivity|].
  cbn [foldl]. rewrite (put_storable _ _ _ Hr). apply IH.
Qed.

Lemma storable_raws (f : project -> num) (ps : list project) :
  storable_ids ps ->
  Forall (fun r : string * num => r.1 <> "__proto__")
         ((fun p => (project_id p, f p)) <$> ps).
Proof.
  intros H. apply Forall_fmap. exact H.
Qed.

Lemma no_jitter_zero (rnd : rng) (k : nat) :
  no_jitter rnd -> randJitter (rnd k) (Num 2) = Num 0.
Proof.
  intros H. unfold randJitter. rewrite (H k). cbn [mul sub add neg].
  f_equal. lra.
Qed.

Lemma or_else_nonzero (x : R) : x <> 0 -> or_else (Num x) (Num 1) = Num x.
Proof. intros H. unfold or_else, truthy. rewrite Reqb_false by exact H. reflexivity. Qed.

(** One score: the min–max normalization of the raw composite *)
Lemma normalized_score (mn mx x : R) :
  mn < mx -> mn <= x <= mx ->
  clamp (add (mul (div (sub (Num x) (Num mn)) (Num (mx - mn))) (Num 100)) (Num 0))
        (Num 0) (Num 100)
  = Num ((x - mn) / (mx - mn) * 100) /\
  0 <= (x - mn) / (mx - mn) * 100 <= 100.
Proof.
  intros Hlt Hx. cbn [sub neg add]. rewrite div_Num by lra.
  cbn [mul add]. rewrite clamp_Num.
  assert (Hr : 0 <= (x - mn) / (mx - mn) <= 1).
  { split.
    - apply Rmult_le_pos; [lra|]. apply Rlt_le, Rinv_0_lt_compat. lra.
    - apply Rmult_le_reg_r with (mx - mn); [lra|].
      unfold Rdiv. rewrite Rmult_assoc, Rinv_l by lra. lra. }
  split; [|lra].
  change (x + - mn) with (x - mn).
  rewrite Rmin_right, Rmax_right by lra. f_equal. lra.
Qed.

Lemma finite_raws (coMap : gmap string num) (ps : list project) :
  Forall (finite_inputs coMap) ps ->
  (fun p => (project_id p, raw_composite p coMap)) <$> ps
  = (fun p => (project_id p, Num (computed_raw coMap p))) <$> ps.
Proof.
  intros Hfin. apply list_fmap_ext. intros i p Hp.
  rewrite raw_composite_finite; [reflexivity|].
  exact (proj1 (Forall_lookup _ _) Hfin i p Hp).
Qed.

Lemma distinct_raws_spread (l : list R) (x y : R) :
  x ∈ l -> y ∈ l -> x <> y -> Rlist_min l < Rlist_max l.
Proof.
  intros Hx Hy Hne.
  assert (Hl : l <> []) by (intros ->; apply elem_of_nil in Hx; exact Hx).
  destruct (Rlist_min_spec l Hl) as [_ Hmin].
  destruct (Rlist_max_spec l Hl) as [_ Hmax].
  pose proof (Hmin x Hx). pose proof (Hmin y Hy).
  pose proof (Hmax x Hx). pose proof (Hmax y Hy).
  destruct (Rlt_le_dec (Rlist_min l) (Rlist_max l)) as [Hlt|Hle]; [exact Hlt|].
  exfalso. apply Hne. lra.
Qed.

(** The scores of a cohort without jitter, on finite inputs: the common
    form of the loop, with the minimum and the maximum of the raw
    composites in place. *)
Lemma computeRiskScores_finite (rnd : rng) (ps : list project)
    (coMap : gmap string num) :
  storable_ids ps ->
  Forall (finite_inputs coMap) ps ->
  ps <> [] ->
  Rlist_min (computed_raw coMap <$> ps) <> Rlist_max (computed_raw coMap <$> ps) ->
  computeRiskScores rnd ps coMap
  = (foldl (fun (st : gmap string num * nat) (r : string * num) =>
              (<[r.1 := clamp (add (mul (div (sub r.2
                           (Num (Rlist_min (computed_raw coMap <$> ps))))
                           (Num (Rlist_max (computed_raw coMap <$> ps)
                                 - Rlist_min (computed_raw coMap <$> ps))))
                           (Num 100))
                           (randJitter (rnd st.2) (Num 2)))
                     (Num 0) (Num 100)]> st.1, S st.2))
           (∅, 0%nat)
           ((fun p => (project_id p, Num (computed_raw coMap p))) <$> ps)).1.
Proof.
  intros Hst Hfin Hne Hspan. unfold computeRiskScores.
  rewrite (finite_raws coMap ps Hfin).
  replace (((fun p => (project_id p, Num (computed_raw coMap p))) <$> ps).*2)
    with (Num <$> (computed_raw coMap <$> ps))
    by (rewrite <- !list_fmap_compose; reflexivity).
  assert (Hl : computed_raw coMap <$> ps <> [])
    by (destruct ps; [congruence|discriminate]).
  rewrite (d3_min_finite _ Hl), (d3_max_finite _ Hl).
  cbn [to_num default from_option Datatypes.id sub neg add].
  rewrite or_else_nonzero by lra.
  f_equal.
  apply (put_all_storable
           (fun k v => clamp (add (mul (div (add v
                         (neg (Num (Rlist_min (computed_raw coMap <$> ps)))))
                         (Num (Rlist_max (computed_raw coMap <$> ps)
                               + - Rlist_min (computed_raw coMap <$> ps))))
                         (Num 100))
                         (randJitter (rnd k) (Num 2)))
                    (Num 0) (Num 100))).
  apply storable_raws, Hst.
Qed.

(** C7, as the code has it.  Without jitter, for a cohort whose projects
    have distinct ids, none of them "__proto__", whose budgets are finite
    and whose change-order totals, as the scorer reads them from the map,
    are finite (which leaves out an id such as "constructor" that the map
    has no number for: the read then yields a member of [Object.prototype]),
    and whose raw composites (ratios taken over [max(1, budget)]) are not
    all equal, every project is assigned the min–max normalization of its
    raw composite; the scores lie between 0 and 100, the smallest is 0 and
    the largest is 100. *)
Theorem spread_scores_normalized :
  forall (rnd : rng) (ps : list project) (coMap : gmap string num),
    no_jitter rnd ->
    NoDup (project_id <$> ps) ->
    storable_ids ps ->
    Forall (finite_inputs coMap) ps ->
    (exists p q, p ∈ ps /\ q ∈ ps /\
                 computed_raw coMap p <> computed_raw coMap q) ->
    (forall p, p ∈ ps ->
       computeRiskScores rnd ps coMap !! project_id p
       = Some (Num (normalized (computed_raw coMap <$> ps)
                               (computed_raw coMap p)))) /\
    spans_0_100 (computeRiskScores rnd ps coMap).
Proof.
  intros rnd ps coMap Hj Hnd Hst Hfin (p0 & q0 & Hp0 & Hq0 & Hne).
  set (l := computed_raw coMap <$> ps).
  assert (Hps : ps <> []) by (intros ->; apply elem_of_nil in Hp0; exact Hp0).
  assert (Hl : l <> []) by (unfold l; destruct ps; [congruence|discriminate]).
  assert (Hlt : Rlist_min l < Rlist_max l).
  { apply (distinct_raws_spread l (computed_raw coMap p0) (computed_raw coMap q0));
      [apply list_elem_of_fmap_2, Hp0|apply list_elem_of_fmap_2, Hq0|exact Hne]. }
  destruct (Rlist_min_spec l Hl) as [Hmin_in Hmin].
  destruct (Rlist_max_spec l Hl) as [Hmax_in Hmax].
  rewrite (computeRiskScores_finite rnd ps coMap Hst Hfin Hps) by (fold l; lra).
  fold l.
  set (G := fun (k : nat) (v : num) =>
              clamp (add (mul (div (sub v (Num (Rlist_min l)))
                                   (Num (Rlist_max l - Rlist_min l)))
                              (Num 100))
                         (randJitter (rnd k) (Num 2)))
                    (Num 0) (Num 100)).
  set (raws := (fun p => (project_id p, Num (computed_raw coMap p))) <$> ps).
  destruct (assign_scores G raws ∅ 0) as [A1 A2]. cbv zeta in A1, A2.
  set (res := (foldl _ (∅, 0%nat) raws).1) in *.
  assert (Hids : raws.*1 = project_id <$> ps)
    by (unfold raws; rewrite <- list_fmap_compose; reflexivity).
  rewrite Hids in A1, A2. specialize (A2 Hnd).
  assert (Hscore : forall p, p ∈ ps ->
            res !! project_id p = Some (Num (normalized l (computed_raw coMap p))) /\
            0 <= normalized l (computed_raw coMap p) <= 100).
  { intros p Hp. apply list_elem_of_lookup_1 in Hp as [i Hi].
    assert (Hr : raws !! i = Some (project_id p, Num (computed_raw coMap p)))
      by (unfold raws; rewrite list_lookup_fmap, Hi; reflexivity).
    pose proof (A2 i _ Hr) as Hres. cbn [fst snd] in Hres.
    rewrite Hres. unfold G.
    rewrite (no_jitter_zero rnd _ Hj).
    assert (Hx : Rlist_min l <= computed_raw coMap p <= Rlist_max l).
    { assert (Hin : computed_raw coMap p ∈ l)
        by (apply list_elem_of_fmap_2, (list_elem_of_lookup_2 _ i), Hi).
      split; [apply Hmin, Hin|apply Hmax, Hin]. }
    destruct (normalized_score _ _ _ Hlt Hx) as [-> Hrange].
    split; [reflexivity|exact Hrange]. }
  split; [intros p Hp; apply Hscore, Hp|].
  split; [|split].
  - intros k v Hk.
    destruct (decide (k ∈ project_id <$> ps)) as [Hin|Hnin].
    + apply list_elem_of_fmap in Hin as (p & -> & Hp).
      destruct (Hscore p Hp) as [Hv Hr]. rewrite Hv in Hk.
      inversion Hk; subst v. eauto.
    + rewrite (A1 k Hnin), lookup_empty in Hk. discriminate Hk.
  - apply list_elem_of_fmap in Hmin_in as (p & Hraw & Hp).
    exists (project_id p). rewrite (proj1 (Hscore p Hp)). do 2 f_equal.
    unfold normalized. rewrite <- Hraw. unfold Rdiv. lra.
  - apply list_elem_of_fmap in Hmax_in as (p & Hraw & Hp).
    exists (project_id p). rewrite (proj1 (Hscore p Hp)). do 2 f_equal.
    unfold normalized. rewrite <- Hraw. field. lra.
Qed.

Lemma log10_10 : log10 10 = 1.
Proof. unfold log10. pose proof ln_10_pos. field. lra. Qed.

Lemma log10_lt (x y : R) : 0 < x -> x < y -> log10 x < log10 y.
Proof.
  intros Hx Hxy. unfold log10. pose proof ln_10_pos as H10.
  pose proof (ln_increasing x y Hx Hxy).
  apply Rmult_lt_compat_r; [apply Rinv_0_lt_compat, H10|assumption].
Qed.

Lemma in_flight_finite (id : string) (b c : R) :
  inherited id = false -> finite_inputs ∅ (in_flight id b c).
Proof.
  intros Hid. split; [reflexivity|]. unfold co_read. cbn [in_flight project_id].
  rewrite (read_empty _ Hid). reflexivity.
Qed.

(** The raw composite of a project in flight without change orders *)
Lemma in_flight_raw (d : R -> R) (id : string) (b c : R) :
  spread_raw d ∅ (in_flight id b c)
  = 18 * (log10 (Rmax 1 b) - 4.5) + 18 * log10 (1 + Rmax 0 (c - b) / d b).
Proof.
  unfold spread_raw.
  assert (Hslip : slip_days (in_flight id b c) = 0) by apply slip_days_blank.
  rewrite Hslip.
  assert (Hco : co_total ∅ (in_flight id b c) = 0).
  { unfold co_total, co_read, get. cbn [in_flight project_id].
    rewrite lookup_empty.
    destruct (inherited id); cbn [or_num Number];
      [reflexivity|]. apply Rmax_left. lra. }
  rewrite Hco. unfold budget_of, overrun. cbn [in_flight planned_budget actual_cost].
  replace (1 + 0 / d b) with 1 by (unfold Rdiv; lra).
  rewrite log10_1. unfold Rdiv at 1. lra.
Qed.

Lemma on_budget_raw (d : R -> R) (id : string) (b : R) :
  spread_raw d ∅ (in_flight id b b) = 18 * (log10 (Rmax 1 b) - 4.5).
Proof.
  rewrite in_flight_raw.
  replace (b - b) with 0 by lra. rewrite (Rmax_left 0 0) by lra.
  replace (1 + 0 / d b) with 1 by (unfold Rdiv; lra).
  rewrite log10_1. lra.
Qed.

Lemma raws_1_10 (d : R -> R) (id1 id2 : string) :
  spread_raw d ∅ (in_flight id1 1 1) = -81 /\
  spread_raw d ∅ (in_flight id2 10 10) = -63.
Proof.
  rewrite !on_budget_raw, (Rmax_left 1 1), (Rmax_right 1 10) by lra.
  rewrite log10_1, log10_10. split; lra.
Qed.

Lemma no_jitter_half : no_jitter (fun _ => 1 / 2).
Proof. intros k. reflexivity. Qed.

Lemma spread_scores_normalized_witness :
  let ps := [in_flight "A" 1 1; in_flight "B" 10 10] in
  let rnd : rng := fun _ => 1 / 2 in
  no_jitter rnd /\
  NoDup (project_id <$> ps) /\
  storable_ids ps /\
  Forall (finite_inputs ∅) ps /\
  (exists p q, p ∈ ps /\ q ∈ ps /\ computed_raw ∅ p <> computed_raw ∅ q) /\
  spans_0_100 (computeRiskScores rnd ps ∅).
Proof.
  intros ps rnd.
  assert (H1 : no_jitter rnd) by apply no_jitter_half.
  assert (H2 : NoDup (project_id <$> ps)).
  { unfold ps. cbn. apply NoDup_cons. split.
    - intros H. apply list_elem_of_singleton in H. discriminate H.
    - apply NoDup_singleton. }
  assert (H0 : storable_ids ps).
  { unfold ps. constructor; [discriminate|]. constructor; [discriminate|constructor]. }
  assert (H3 : Forall (finite_inputs ∅) ps).
  { unfold ps. constructor; [apply in_flight_finite; reflexivity|].
    constructor; [apply in_flight_finite; reflexivity|constructor]. }
  assert (H4 : exists p q, p ∈ ps /\ q ∈ ps /\ computed_raw ∅ p <> computed_raw ∅ q).
  { exists (in_flight "A" 1 1), (in_flight "B" 10 10).
    split; [left|]. split; [right; left|].
    destruct (raws_1_10 (Rmax 1) "A" "B") as [Ha Hb].
    unfold computed_raw. rewrite Ha, Hb. lra. }
  split; [exact H1|]. split; [exact H2|]. split; [exact H0|].
  split; [exact H3|]. split; [exact H4|].
  exact (proj2 (spread_scores_normalized rnd ps ∅ H1 H2 H0 H3 H4)).
Defined.

(** Two projects whose raw composites differ: the later one of the two
    gets 100 and the other one 0, each under its own id. *)
Lemma two_project_scores (rnd : rng) (p q : project) (coMap : gmap string num) :
  no_jitter rnd ->
  storable_ids [p; q] ->
  finite_inputs coMap p -> finite_inputs coMap q ->
  computed_raw coMap p < computed_raw coMap q ->
  computeRiskScores rnd [p; q] coMap
  = <[project_id q := Num 100]> (<[project_id p := Num 0]> ∅).
Proof.
  intros Hj Hst Hp Hq Hlt.
  assert (Hmin : Rlist_min (computed_raw coMap <$> [p; q]) = computed_raw coMap p)
    by (cbn; apply Rmin_left; lra).
  assert (Hmax : Rlist_max (computed_raw coMap <$> [p; q]) = computed_raw coMap q)
    by (cbn; apply Rmax_right; lra).
  rewrite computeRiskScores_finite;
    [|exact Hst|constructor; [exact Hp|constructor; [exact Hq|constructor]]
     |discriminate|rewrite Hmin, Hmax; lra].
  rewrite Hmin, Hmax. cbn [fmap list_fmap foldl fst snd].
  rewrite !(no_jitter_zero rnd _ Hj).
  destruct (normalized_score (computed_raw coMap p) (computed_raw coMap q)
              (computed_raw coMap p) Hlt ltac:(lra)) as [-> _].
  destruct (normalized_score (computed_raw coMap p) (computed_raw coMap q)
              (computed_raw coMap q) Hlt ltac:(lra)) as [-> _].
  f_equal; [f_equal; field; lra|].
  f_equal. f_equal. unfold Rdiv. lra.
Qed.

(** Two projects with the same raw composite both get 0. *)
Lemma equal_raw_scores (rnd : rng) (p q : project) (coMap : gmap string num) :
  no_jitter rnd ->
  storable_ids [p; q] ->
  finite_inputs coMap p -> finite_inputs coMap q ->
  computed_raw coMap p = computed_raw coMap q ->
  computeRiskScores rnd [p; q] coMap
  = <[project_id q := Num 0]> (<[project_id p := Num 0]> ∅).
Proof.
  intros Hj Hst Hp Hq Heq.
  assert (Hsp : project_id p <> "__proto__") by (inversion Hst; assumption).
  assert (Hsq : project_id q <> "__proto__")
    by (inversion Hst as [|? ? _ Hst']; inversion Hst'; assumption).
  unfold computeRiskScores.
  rewrite (finite_raws coMap [p; q])
    by (constructor; [exact Hp|constructor; [exact Hq|constructor]]).
  cbn [fmap list_fmap snd]. rewrite <- Heq.
  set (a := computed_raw coMap p).
  change [Num a; Num a] with (Num <$> [a; a]).
  rewrite d3_min_finite, d3_max_finite by discriminate.
  cbn [Rlist_min Rlist_max foldl]. rewrite Rmin_left, Rmax_left by lra.
  cbn [to_num default from_option Datatypes.id sub neg add].
  replace (a + - a) with 0 by lra.
  assert (Hspan : or_else (Num 0) (Num 1) = Num 1)
    by (unfold or_else, truthy; rewrite Reqb_refl; reflexivity).
  rewrite Hspan. cbn [foldl fst snd].
  rewrite !put_storable by assumption. rewrite !(no_jitter_zero rnd _ Hj).
  cbn [sub neg add]. rewrite div_Num by lra. cbn [mul add]. rewrite clamp_Num.
  replace (Rmax 0 (Rmin 100 ((a + - a) / 1 * 100 + 0))) with 0; [reflexivity|].
  replace ((a + - a) / 1 * 100 + 0) with 0 by (unfold Rdiv; lra).
  rewrite Rmin_right, Rmax_left by lra. reflexivity.
Qed.

(** C7, as stated, fails on two kinds of cohort.
    Two rows that share the id "A", with budgets 1 and 10: the scores are
    kept by id, the score 100 of the second row replaces the score 0 of the
    first, and no score 0 is left.
    Two projects with budgets 1/2 and 1/4 and an overrun of 1 each: the
    documented composites differ, but the code divides by [max(1, budget)],
    so its composites are equal, both scores are 0 and none is 100. *)
Lemma spread_scores_fail_to_span :
  let rnd : rng := fun _ => 1 / 2 in
  let shared := [in_flight "A" 1 1; in_flight "A" 10 10] in
  let small := [in_flight "A" (1/2) (3/2); in_flight "B" (1/4) (5/4)] in
  computeRiskScores rnd shared ∅ = {[ "A" := Num 100 ]} /\
  ~ spans_0_100 (computeRiskScores rnd shared ∅) /\
  documented_raw ∅ (in_flight "A" (1/2) (3/2))
    <> documented_raw ∅ (in_flight "B" (1/4) (5/4)) /\
  computeRiskScores rnd small ∅ = {[ "A" := Num 0; "B" := Num 0 ]} /\
  ~ spans_0_100 (computeRiskScores rnd small ∅) /\
  ~ spread_scores_span.
Proof.
  intros rnd shared small.
  destruct (raws_1_10 (Rmax 1) "A" "A") as [Ha Hb].
  destruct (raws_1_10 (fun b => b) "A" "A") as [Da Db].
  assert (S1 : computeRiskScores rnd shared ∅ = {[ "A" := Num 100 ]}).
  { unfold shared. rewrite two_project_scores;
      [|apply no_jitter_half
       |constructor; [discriminate|constructor; [discriminate|constructor]]
       |apply in_flight_finite; reflexivity|apply in_flight_finite; reflexivity
       |unfold computed_raw; rewrite Ha, Hb; lra].
    cbn [in_flight project_id]. rewrite insert_insert_eq. apply insert_empty. }
  assert (N1 : ~ spans_0_100 (computeRiskScores rnd shared ∅)).
  { rewrite S1. intros (_ & (k & Hk) & _).
    apply lookup_singleton_Some in Hk as [_ Hk]. inversion Hk. lra. }
  assert (D2 : documented_raw ∅ (in_flight "A" (1/2) (3/2))
               <> documented_raw ∅ (in_flight "B" (1/4) (5/4))).
  { unfold documented_raw. rewrite !in_flight_raw.
    rewrite !(Rmax_left 1) by lra.
    replace (3 / 2 - 1 / 2) with 1 by lra. replace (5 / 4 - 1 / 4) with 1 by lra.
    rewrite (Rmax_right 0 1) by lra.
    replace (1 + 1 / (1 / 2)) with 3 by field.
    replace (1 + 1 / (1 / 4)) with 5 by field.
    pose proof (log10_lt 3 5 ltac:(lra) ltac:(lra)). lra. }
  assert (S2 : computeRiskScores rnd small ∅ = {[ "A" := Num 0; "B" := Num 0 ]}).
  { unfold small. rewrite equal_raw_scores;
      [|apply no_jitter_half
       |constructor; [discriminate|constructor; [discriminate|constructor]]
       |apply in_flight_finite; reflexivity|apply in_flight_finite; reflexivity|].
    - cbn [in_flight project_id]. rewrite insert_empty.
      apply insert_insert_ne. discriminate.
    - unfold computed_raw. rewrite !in_flight_raw.
      rewrite !(Rmax_left 1) by lra.
      replace (3 / 2 - 1 / 2) with 1 by lra. replace (5 / 4 - 1 / 4) with 1 by lra.
      reflexivity. }
  assert (N2 : ~ spans_0_100 (computeRiskScores rnd small ∅)).
  { rewrite S2. intros (_ & _ & (k & Hk)).
    apply lookup_insert_Some in Hk as [[_ Hk]|[_ Hk]].
    - inversion Hk. lra.
    - apply lookup_singleton_Some in Hk as [_ Hk]. inversion Hk. lra. }
  repeat (split; [assumption|]).
  intros Hclaim. apply N1, Hclaim.
  - apply no_jitter_half.
  - simpl. lia.
  - constructor; [apply in_flight_finite; reflexivity|].
    constructor; [apply in_flight_finite; reflexivity|constructor].
  - exists (in_flight "A" 1 1), (in_flight "A" 10 10).
    split; [left|]. split; [right; left|].
    unfold documented_raw. rewrite Da, Db. lra.
Qed.

End SpreadScore.
(* ===================================================================== *)
(** ** Totals, counts and means by key *)
(* ===================================================================== *)

Section KeyedTotals.
Import JS Data Spec.
Local Open Scope R_scope.

Context {A K : Type} `{Countable K}.
Variable key : A -> option K.

Lemma foldl_ext_eq {S T : Type} (f g : S -> T -> S) (l : list T) :
  (forall s x, f s x = g s x) -> forall s, foldl f s l = foldl g s l.
Proof.
  intros Hfg. induction l as [|x l IH]; intros s; simpl; [reflexivity|].
  rewrite Hfg. apply IH.
Qed.

Lemma foldl_pair {S1 S2 T : Type} (f : S1 -> T -> S1) (g : S2 -> T -> S2)
    (l : list T) :
  forall (a : S1) (b : S2),
    foldl (fun (st : S1 * S2) x => (f st.1 x, g st.2 x)) (a, b) l
    = (foldl f a l, foldl g b l).
Proof.
  induction l as [|x l IH]; intros a b; simpl; [reflexivity|]. apply IH.
Qed.

Lemma Rsum_app (l1 l2 : list R) : Rsum (l1 ++ l2) = Rsum l1 + Rsum l2.
Proof.
  induction l1 as [|x l1 IH].
  - change (Rsum l2 = 0 + Rsum l2). lra.
  - change ((x :: l1) ++ l2) with (x :: (l1 ++ l2)).
    rewrite !Rsum_cons, IH. lra.
Qed.

Lemma rows_at_snoc (k : K) (rows : list A) (r : A) :
  rows_at key k (rows ++ [r]) =
  rows_at key k rows ++ (if decide (key r = Some k) then [r] else []).
Proof.
  unfold rows_at. rewrite filter_app. reflexivity.
Qed.

Lemma keyed_step_total (val : A -> R) (rows : list A) (k : K) :
  foldl (keyed_step key val) ∅ rows !! k = keyed_total key val rows k.
Proof.
  induction rows as [|r rows IH] using rev_ind.
  - simpl. rewrite lookup_empty. reflexivity.
  - rewrite foldl_app. cbn [foldl]. unfold keyed_total in *.
    rewrite rows_at_snoc. unfold keyed_step at 1.
    destruct (key r) as [k'|] eqn:Hk.
    + destruct (decide (k' = k)) as [->|Hne].
      * rewrite lookup_insert_eq, IH.
        rewrite decide_True by reflexivity.
        destruct (rows_at key k rows) as [|x l]; cbn [or_default app].
        -- cbn [fmap list_fmap]. rewrite Rsum_cons. unfold Rsum; simpl.
           do 2 f_equal. lra.
        -- rewrite or_else_Num. cbn [add].
           change (x :: l ++ [r]) with ((x :: l) ++ [r]).
           rewrite fmap_app, Rsum_app. cbn [fmap list_fmap].
           rewrite (Rsum_cons (val r) []). unfold Rsum at 3; simpl.
           do 2 f_equal. lra.
      * rewrite lookup_insert_ne by exact Hne. rewrite IH.
        rewrite decide_False by congruence. rewrite app_nil_r. reflexivity.
    + rewrite IH. rewrite decide_False by congruence.
      rewrite app_nil_r. reflexivity.
Qed.

Lemma Rsum_ones {B : Type} (l : list B) : Rsum ((fun _ => 1) <$> l) = INR (length l).
Proof.
  induction l as [|x l IH]; [reflexivity|].
  rewrite fmap_cons, Rsum_cons, IH. cbn [length]. rewrite S_INR. lra.
Qed.

Lemma keyed_step_count (rows : list A) (k : K) :
  foldl (keyed_step key (fun _ => 1)) ∅ rows !! k = keyed_count key rows k.
Proof.
  rewrite keyed_step_total. unfold keyed_total, keyed_count.
  destruct (rows_at key k rows) as [|x l] eqn:E; [reflexivity|].
  rewrite Rsum_ones. reflexivity.
Qed.

End KeyedTotals.

Section KeyedArrays.
Import JS Data Spec.
Local Open Scope R_scope.

Context {A : Type}.
Variable idx : A -> option nat.

Lemma indexed_step_length (val : A -> R) (rows : list A) (arr : list num) :
  length (foldl (indexed_step idx val) arr rows) = length arr.
Proof.
  revert arr. induction rows as [|r rows IH]; intros arr; [reflexivity|].
  cbn [foldl]. rewrite IH. unfold indexed_step, arr_add.
  destruct (idx r); [apply length_alter|reflexivity].
Qed.

Lemma indexed_step_total (val : A -> R) (n : nat) (rows : list A) (i : nat) :
  (i < n)%nat ->
  foldl (indexed_step idx val) (replicate n (Num 0)) rows !! i
  = Some (Num (Rsum (val <$> rows_at idx i rows))).
Proof.
  intros Hi. induction rows as [|r rows IH] using rev_ind.
  - cbn [foldl]. rewrite lookup_replicate_2 by exact Hi. reflexivity.
  - rewrite foldl_app. cbn [foldl]. rewrite rows_at_snoc.
    unfold indexed_step at 1.
    destruct (idx r) as [j|] eqn:Hj.
    + unfold arr_add. destruct (decide (j = i)) as [->|Hne].
      * rewrite list_lookup_alter, IH. cbn [fmap option_fmap option_map add].
        destruct (decide (Some i = Some i)) as [_|Hn]; [|congruence].
        rewrite decide_True by reflexivity.
        rewrite fmap_app, Rsum_app. cbn [fmap list_fmap].
        rewrite (Rsum_cons (val r) []). change (Rsum []) with 0.
        do 2 f_equal. lra.
      * rewrite list_lookup_alter_ne by exact Hne. rewrite IH.
        rewrite decide_False by congruence. rewrite app_nil_r. reflexivity.
    + rewrite IH. rewrite decide_False by congruence.
      rewrite app_nil_r. reflexivity.
Qed.

End KeyedArrays.

Section Rollups.
Import JS Data Spec Predictive Diagnostic Descriptive.
Local Open Scope R_scope.

Lemma finite_or_0_Num (a : num) :
  (if isFinite a then a else Num 0) = Num (finite_or_0 a).
Proof. destruct a; reflexivity. Qed.

Lemma or_default_keyed_total {A K : Type} `{EqDecision K} (key : A -> option K)
    (val : A -> R) (rows : list A) (o : option num) (k : K) :
  o = keyed_total key val rows k ->
  or_default o (Num 0) = Num (Rsum (val <$> rows_at key k rows)).
Proof.
  unfold keyed_total. intros ->.
  destruct (rows_at key k rows) as [|x l]; [reflexivity|].
  cbn [or_default]. apply or_else_Num.
Qed.

(** [m[k] = (m[k] || 0) + v] on a plain object: under a key that names no
    member of [Object.prototype] the sum is stored; under one that does, and
    for which the object has no number, the member is read, the sum is a
    text, and no number is stored. *)
Lemma str_add_ordinary (m : gmap string num) (k : string) (v : num) :
  inherited k = false ->
  str_add m k v = <[k := add (or_default (m !! k) (Num 0)) v]> m.
Proof.
  intros H. unfold str_add, get. rewrite H. destruct (m !! k); reflexivity.
Qed.

Lemma str_add_member (m : gmap string num) (k : string) (v : num) :
  inherited k = true -> m !! k = None -> str_add m k v = m.
Proof. intros H1 H2. unfold str_add, get. rewrite H2, H1. reflexivity. Qed.

Lemma str_add_lookup_ne (m : gmap string num) (k j : string) (v : num) :
  k <> j -> str_add m k v !! j = m !! j.
Proof.
  intros H. unfold str_add.
  destruct (or_num _ _); [apply lookup_insert_ne, H|reflexivity|reflexivity].
Qed.

Lemma str_add_keyed {A : Type} (kf : A -> string) (val : A -> R)
    (rows : list A) (j : string) :
  inherited j = false ->
  foldl (fun m r => str_add m (kf r) (Num (val r))) ∅ rows !! j
  = foldl (keyed_step (fun r => Some (kf r)) val) ∅ rows !! j.
Proof.
  intros Hj. induction rows as [|r rows IH] using rev_ind; [reflexivity|].
  rewrite !foldl_app. cbn [foldl]. unfold keyed_step at 1.
  destruct (decide (kf r = j)) as [E|N].
  - rewrite str_add_ordinary by (rewrite E; exact Hj).
    rewrite E, !lookup_insert_eq, IH. reflexivity.
  - rewrite str_add_lookup_ne, lookup_insert_ne by exact N. exact IH.
Qed.

Lemma str_add_no_member {A : Type} (kf : A -> string) (val : A -> num)
    (rows : list A) (j : string) :
  inherited j = true ->
  foldl (fun m r => str_add m (kf r) (val r)) ∅ rows !! j = None.
Proof.
  intros Hj. induction rows as [|r rows IH] using rev_ind; [apply lookup_empty|].
  rewrite foldl_app. cbn [foldl].
  destruct (decide (kf r = j)) as [E|N].
  - rewrite E, str_add_member by assumption. exact IH.
  - rewrite str_add_lookup_ne by exact N. exact IH.
Qed.

Lemma changeOrderTotalsByProject_keyed (cos : list change_order) (id : string) :
  inherited id = false ->
  changeOrderTotalsByProject cos !! id
  = keyed_total project_key (fun r => finite_or_0 (co_cost r)) cos id.
Proof.
  intros Hid. rewrite <- keyed_step_total.
  etransitivity;
    [|exact (str_add_keyed (fun r => id_or_missing (co_project_id r))
               (fun r => finite_or_0 (co_cost r)) cos id Hid)].
  unfold changeOrderTotalsByProject. f_equal. apply foldl_ext_eq. intros m r.
  cbv zeta. rewrite finite_or_0_Num. reflexivity.
Qed.

Lemma changeOrderTotalsByProject_member (cos : list change_order) (id : string) :
  inherited id = true -> changeOrderTotalsByProject cos !! id = None.
Proof. intros Hid. apply str_add_no_member, Hid. Qed.

Lemma changeOrderTotalsByProject_read (cos : list change_order) (id : string) :
  inherited id = false ->
  Number (or_num (get (changeOrderTotalsByProject cos) id) (Num 0))
  = Num (Rsum ((fun r => finite_or_0 (co_cost r)) <$> rows_at project_key id cos)).
Proof.
  intros Hid. rewrite (read_ordinary _ _ Hid).
  apply (or_default_keyed_total project_key (fun r => finite_or_0 (co_cost r)) cos).
  apply changeOrderTotalsByProject_keyed, Hid.
Qed.

(** X1.  [changeOrderTotalsByProject] (and its two copies
    [changeOrderTotals] and [coTotalsPerProject]) on a plain object.  Under
    an id that names no member of [Object.prototype], the total is the sum,
    taken in exact arithmetic, of the finite costs of the change orders
    filed under the id, the rows without an id being filed under
    "__missing__"; an id without change orders has no entry, and a caller
    that reads [coMap[id] || 0] gets that sum, 0 without change orders.
    Under an id that names a member of [Object.prototype], such as
    "constructor", no number is ever stored (the loop reads the member and
    appends the cost to it as text), and what a caller reads as
    [coMap[id] || 0] is NaN once it is used as a number. *)
Theorem change_order_totals_by_project (cos : list change_order) :
  (forall id, inherited id = false ->
     changeOrderTotalsByProject cos !! id
     = keyed_total project_key (fun r => finite_or_0 (co_cost r)) cos id /\
     Number (or_num (get (changeOrderTotalsByProject cos) id) (Num 0))
     = Num (Rsum ((fun r => finite_or_0 (co_cost r))
                    <$> rows_at project_key id cos))) /\
  (forall id, inherited id = true ->
     changeOrderTotalsByProject cos !! id = None /\
     Number (or_num (get (changeOrderTotalsByProject cos) id) (Num 0)) = NaN) /\
  Prescriptive.changeOrderTotals cos = changeOrderTotalsByProject cos /\
  coTotalsPerProject cos = changeOrderTotalsByProject cos.
Proof.
  split; [|split; [|split; reflexivity]].
  - intros id Hid. split.
    + apply changeOrderTotalsByProject_keyed, Hid.
    + apply changeOrderTotalsByProject_read, Hid.
  - intros id Hid.
    pose proof (changeOrderTotalsByProject_member cos id Hid) as Hn.
    split; [exact Hn|]. apply read_member; assumption.
Qed.

Lemma coTotalsPerProject_finite (cos : list change_order) (id : string) :
  inherited id = false ->
  exists t, Number (or_num (get (coTotalsPerProject cos) id) (Num 0)) = Num t.
Proof.
  intros Hid. eexists.
  change (coTotalsPerProject cos) with (changeOrderTotalsByProject cos).
  apply changeOrderTotalsByProject_read, Hid.
Qed.

Lemma coTotalsPerProject_member (cos : list change_order) (id : string) :
  inherited id = true ->
  Number (or_num (get (coTotalsPerProject cos) id) (Num 0)) = NaN.
Proof.
  intros Hid. apply read_member; [|exact Hid].
  apply (changeOrderTotalsByProject_member cos id Hid).
Qed.

Lemma coCountsPerProject_count (cos : list change_order) (id : string) :
  inherited id = false ->
  coCountsPerProject cos !! id = keyed_count project_key cos id.
Proof.
  intros Hid. rewrite <- keyed_step_count.
  exact (str_add_keyed (fun r => id_or_missing (co_project_id r))
           (fun _ => 1) cos id Hid).
Qed.

Lemma coCountsPerProject_member (cos : list change_order) (id : string) :
  inherited id = true -> coCountsPerProject cos !! id = None.
Proof. intros Hid. apply str_add_no_member, Hid. Qed.

(** X2.  The project counts by start year and the change-order counts by
    year: the entry of a year is the number of its rows.  Projects whose
    start date does not parse are counted under the key "NaN"; change
    orders whose date does not parse are counted nowhere. *)
Theorem counts_by_year :
  (forall (rows : list project) (y : option Z),
     rollupCountByYear rows !! y = keyed_count start_year_key rows y) /\
  (forall (rows : list change_order) (y : option Z),
     coCountByYear rows !! y = keyed_count co_year_key rows y) /\
  (forall rows : list change_order, coCountByYear rows !! None = None).
Proof.
  assert (Hco : forall (rows : list change_order) (y : option Z),
     coCountByYear rows !! y = keyed_count co_year_key rows y).
  { intros rows y. rewrite <- keyed_step_count. unfold coCountByYear.
    f_equal. apply foldl_ext_eq. intros m r.
    unfold keyed_step, co_year_key. destruct (new_Date (co_date r)); reflexivity. }
  split; [|split; [exact Hco|]].
  - intros rows y. rewrite <- keyed_step_count. reflexivity.
  - intros rows. rewrite Hco. unfold keyed_count.
    replace (rows_at co_year_key None rows) with (@nil change_order); [reflexivity|].
    unfold rows_at. induction rows as [|r rows IH]; [reflexivity|].
    rewrite filter_cons. rewrite decide_False; [exact IH|].
    unfold co_year_key. destruct (new_Date (co_date r)); congruence.
Qed.

(** X3.  The change-order cost of a year in [coCostByYear] is the sum of
    the finite costs of the change orders dated in that year; a year has an
    entry as soon as one change order is dated in it, whatever its cost. *)
Theorem coCostByYear_total (rows : list change_order) (y : option Z) :
  coCostByYear rows !! y
  = keyed_total co_year_key (fun r => finite_or_0 (co_cost r)) rows y.
Proof.
  rewrite <- keyed_step_total. unfold coCostByYear. f_equal.
  apply foldl_ext_eq. intros m r.
  unfold coCostByYear_step, keyed_step, co_year_key.
  destruct (new_Date (co_date r)); [|reflexivity].
  rewrite finite_or_0_Num. reflexivity.
Qed.

Lemma mean_of_sums {A : Type} (key : A -> option (option Z)) (val : A -> R)
    (rows : list A) (sums counts : gmap (option Z) num) (k : option Z) :
  sums !! k = keyed_total key val rows k ->
  counts !! k = keyed_count key rows k ->
  obj_ratio sums counts !! k = keyed_mean key val rows k.
Proof.
  intros Hs Hc. unfold obj_ratio. rewrite map_lookup_imap, Hs, Hc.
  unfold keyed_total, keyed_count, keyed_mean.
  destruct (rows_at key k rows) as [|x l]; [reflexivity|].
  cbn [mbind option_bind to_num default from_option Datatypes.id].
  unfold of_nat. rewrite div_Num by apply INR_length_nonzero.
  unfold Rmean. cbn [fmap list_fmap]. cbn [length]. rewrite length_fmap.
  reflexivity.
Qed.

Lemma rollupAvgByYear_acc_keyed (rows : list project) (accessor : project -> num) :
  rollupAvgByYear_acc rows accessor
  = (foldl (keyed_step (finite_year_key accessor)
                       (fun r => finite_or_0 (accessor r))) ∅ rows,
     foldl (keyed_step (finite_year_key accessor) (fun _ => 1)) ∅ rows).
Proof.
  unfold rollupAvgByYear_acc. rewrite <- foldl_pair. apply foldl_ext_eq.
  intros [s c] r. unfold rollupAvgByYear_step, keyed_step, finite_year_key.
  destruct (accessor r); reflexivity.
Qed.

(** X4.  [rollupAvgByYear]: the entry of a year is the arithmetic mean of
    the finite values of the rows that start in it; a year without a
    finite value has no entry. *)
Theorem rollupAvgByYear_mean (rows : list project) (accessor : project -> num)
    (y : option Z) :
  rollupAvgByYear rows accessor !! y
  = keyed_mean (finite_year_key accessor) (fun r => finite_or_0 (accessor r)) rows y.
Proof.
  unfold rollupAvgByYear. rewrite rollupAvgByYear_acc_keyed. cbn [fst snd].
  apply mean_of_sums; [apply keyed_step_total|apply keyed_step_count].
Qed.

(** X5.  The three other mean-by-year rollups are instances of
    [rollupAvgByYear]: the average actual cost by year of the descriptive
    and of the predictive dashboard is the rollup of [actual_cost], the
    average schedule variance by year of the predictive dashboard is the
    rollup of the schedule variance. *)
Theorem mean_rollups_coincide (rows : list project) :
  rollupAvgActualCostByYear rows = rollupAvgByYear rows actual_cost /\
  avgActualCostByYear rows = rollupAvgByYear rows actual_cost /\
  avgScheduleVarianceByYear rows = rollupAvgByYear rows schedVarAccessor.
Proof.
  unfold rollupAvgActualCostByYear, avgActualCostByYear,
    avgScheduleVarianceByYear, rollupAvgByYear.
  assert (H1 : rollupAvgActualCostByYear_acc rows = rollupAvgByYear_acc rows actual_cost).
  { apply foldl_ext_eq. intros st r.
    unfold rollupAvgActualCostByYear_step, rollupAvgByYear_step.
    destruct (isFinite (actual_cost r)); reflexivity. }
  assert (H2 : avgActualCostByYear_acc rows = rollupAvgByYear_acc rows actual_cost).
  { apply foldl_ext_eq. intros st r. reflexivity. }
  assert (H3 : avgScheduleVarianceByYear_acc rows
               = rollupAvgByYear_acc rows schedVarAccessor).
  { apply foldl_ext_eq. intros st r.
    unfold avgScheduleVarianceByYear_step, rollupAvgByYear_step, schedVarAccessor.
    destruct (parseDate (planned_end r)) as [[pe|]|];
      destruct (parseDate (actual_end r)) as [[ae|]|]; try reflexivity.
    cbn [Date_isNaN orb Date_sub]. unfold day_ms, of_Z.
    rewrite div_Num by apply day_ms_nonzero. reflexivity. }
  rewrite H1, H2, H3. auto.
Qed.

End Rollups.

Section Months.
Import JS Data Spec Predictive Diagnostic Descriptive.
Local Open Scope R_scope.

Lemma day_of_year_range (doe : Z) :
  (0 <= doe <= 146096)%Z ->
  (0 <= doe - (365 * ((doe - doe / 1460 + doe / 36524 - doe / 146096) / 365)
               + (doe - doe / 1460 + doe / 36524 - doe / 146096) / 365 / 4
               - (doe - doe / 1460 + doe / 36524 - doe / 146096) / 365 / 100)
   <= 365)%Z.
Proof. intros H. Z.to_euclidean_division_equations. lia. Qed.

Lemma month_of_ms_lt (t : Z) : (month_of_ms t < 12)%nat.
Proof.
  unfold month_of_ms, civil_from_days. cbn [fst snd].
  set (z := (t / ms_per_day + 719468)%Z).
  set (doe := (z - z / 146097 * 146097)%Z).
  assert (Hdoe : (0 <= doe <= 146096)%Z).
  { subst doe. Z.to_euclidean_division_equations. lia. }
  pose proof (day_of_year_range doe Hdoe) as Hdoy.
  set (doy := (doe - (365 * ((doe - doe / 1460 + doe / 36524 - doe / 146096) / 365)
               + (doe - doe / 1460 + doe / 36524 - doe / 146096) / 365 / 4
               - (doe - doe / 1460 + doe / 36524 - doe / 146096) / 365 / 100))%Z) in *.
  assert (Hmp : (0 <= (5 * doy + 2) / 153 <= 11)%Z).
  { Z.to_euclidean_division_equations. lia. }
  destruct ((5 * doy + 2) / 153 <? 10)%Z eqn:E; lia.
Qed.


Lemma month_in_lt (year : Z) (s : date_text) (i : nat) :
  month_in year s = Some i -> (i < 12)%nat.
Proof.
  unfold month_in. destruct (new_Date s) as [t|]; [|discriminate].
  destruct (year_of_ms t =? year)%Z; [|discriminate].
  intros [= <-]. apply month_of_ms_lt.
Qed.

Lemma month_in_year (year : Z) (s : date_text) :
  getFullYear (new_Date s) = Some year -> is_Some (month_in year s).
Proof.
  unfold month_in, getFullYear. destruct (new_Date s) as [t|]; [|discriminate].
  cbn [fmap option_fmap option_map]. intros [= ->].
  rewrite Z.eqb_refl. eexists; reflexivity.
Qed.

Lemma month_in_other_year (year : Z) (s : date_text) :
  getFullYear (new_Date s) <> Some year -> month_in year s = None.
Proof.
  unfold month_in, getFullYear. destruct (new_Date s) as [t|]; [|reflexivity].
  cbn [fmap option_fmap option_map]. intros Hne.
  destruct (Z.eqb_spec (year_of_ms t) year) as [He|Hn]; [|reflexivity].
  exfalso. apply Hne. f_equal. exact He.
Qed.

Lemma rollupCountByMonth_keyed (rows : list project) (year : Z) :
  rollupCountByMonth rows year
  = foldl (indexed_step (start_month_key year) (fun _ => 1))
          (replicate 12 (Num 0)) rows.
Proof.
  apply foldl_ext_eq. intros arr r.
  unfold indexed_step, start_month_key, month_in.
  destruct (new_Date (start_date r)) as [t|]; [|reflexivity].
  destruct (year_of_ms t =? year)%Z; reflexivity.
Qed.

Lemma coCountByMonth_keyed (rows : list change_order) (year : Z) :
  coCountByMonth rows year
  = foldl (indexed_step (co_month_key year) (fun _ => 1))
          (replicate 12 (Num 0)) rows.
Proof.
  apply foldl_ext_eq. intros arr r.
  unfold indexed_step, co_month_key, month_in.
  destruct (new_Date (co_date r)) as [t|]; [|reflexivity].
  destruct (year_of_ms t =? year)%Z; reflexivity.
Qed.

Lemma coCostByMonth_keyed (rows : list change_order) (year : Z) :
  coCostByMonth rows year
  = foldl (indexed_step (finite_co_month_key year) (fun r => finite_or_0 (co_cost r)))
          (replicate 12 (Num 0)) rows.
Proof.
  apply foldl_ext_eq. intros arr r.
  unfold indexed_step, finite_co_month_key, co_month_key, month_in.
  destruct (new_Date (co_date r)) as [t|]; [|destruct (isFinite (co_cost r)); reflexivity].
  destruct (year_of_ms t =? year)%Z; destruct (co_cost r); reflexivity.
Qed.

Lemma indexed_count {A : Type} (idx : A -> option nat) (n : nat) (rows : list A)
    (i : nat) :
  (i < n)%nat ->
  foldl (indexed_step idx (fun _ => 1)) (replicate n (Num 0)) rows !! i
  = Some (of_nat (length (rows_at idx i rows))).
Proof.
  intros Hi. rewrite (indexed_step_total idx _ n rows i Hi), Rsum_ones.
  reflexivity.
Qed.

(** X6.  The monthly counts of projects and of change orders: twelve
    entries, the entry of a month being the number of rows dated in that
    month of the year; every row dated in the year is counted in one of
    the twelve months. *)
Theorem counts_by_month (year : Z) :
  (forall rows : list project,
     length (rollupCountByMonth rows year) = 12%nat /\
     (forall i, (i < 12)%nat ->
        rollupCountByMonth rows year !! i
        = Some (of_nat (length (rows_at (start_month_key year) i rows)))) /\
     (forall r, r ∈ rows ->
        getFullYear (new_Date (start_date r)) = Some year ->
        exists i, (i < 12)%nat /\ r ∈ rows_at (start_month_key year) i rows)) /\
  (forall rows : list change_order,
     length (coCountByMonth rows year) = 12%nat /\
     (forall i, (i < 12)%nat ->
        coCountByMonth rows year !! i
        = Some (of_nat (length (rows_at (co_month_key year) i rows)))) /\
     (forall r, r ∈ rows ->
        getFullYear (new_Date (co_date r)) = Some year ->
        exists i, (i < 12)%nat /\ r ∈ rows_at (co_month_key year) i rows)).
Proof.
  split; intros rows.
  - rewrite rollupCountByMonth_keyed. split; [|split].
    + rewrite indexed_step_length. apply length_replicate.
    + intros i Hi. apply indexed_count, Hi.
    + intros r Hr Hy.
      destruct (month_in_year year (start_date r) Hy) as [i Hi].
      exists i. split; [apply (month_in_lt _ _ _ Hi)|].
      unfold rows_at. apply list_elem_of_filter. split; [exact Hi|exact Hr].
  - rewrite coCountByMonth_keyed. split; [|split].
    + rewrite indexed_step_length. apply length_replicate.
    + intros i Hi. apply indexed_count, Hi.
    + intros r Hr Hy.
      destruct (month_in_year year (co_date r) Hy) as [i Hi].
      exists i. split; [apply (month_in_lt _ _ _ Hi)|].
      unfold rows_at. apply list_elem_of_filter. split; [exact Hi|exact Hr].
Qed.

(** X7.  [coCostByMonth]: twelve entries, the entry of a month being the
    sum of the finite costs of the change orders dated in that month of the
    year. *)
Theorem coCostByMonth_total (rows : list change_order) (year : Z) :
  length (coCostByMonth rows year) = 12%nat /\
  forall i, (i < 12)%nat ->
    coCostByMonth rows year !! i
    = Some (Num (Rsum ((fun r => finite_or_0 (co_cost r))
                         <$> rows_at (finite_co_month_key year) i rows))).
Proof.
  rewrite coCostByMonth_keyed. split.
  - rewrite indexed_step_length. apply length_replicate.
  - intros i Hi. apply indexed_step_total, Hi.
Qed.

Lemma rollupAvgByMonth_acc_keyed (rows : list project) (year : Z)
    (accessor : project -> num) :
  rollupAvgByMonth_acc rows year accessor
  = (foldl (indexed_step (finite_month_key year accessor)
                         (fun r => finite_or_0 (accessor r)))
           (replicate 12 (Num 0)) rows,
     foldl (indexed_step (finite_month_key year accessor) (fun _ => 1))
           (replicate 12 (Num 0)) rows).
Proof.
  unfold rollupAvgByMonth_acc. rewrite <- foldl_pair. apply foldl_ext_eq.
  intros [s c] r.
  unfold rollupAvgByMonth_step, indexed_step, finite_month_key,
    start_month_key, month_in.
  destruct (new_Date (start_date r)) as [t|];
    [|destruct (isFinite (accessor r)); reflexivity].
  destruct (year_of_ms t =? year)%Z; destruct (accessor r); reflexivity.
Qed.

Lemma INR_zero_length {A : Type} (l : list A) : INR (length l) = 0 -> l = [].
Proof.
  destruct l as [|x l]; [reflexivity|].
  intros H. exfalso. exact (INR_length_nonzero x l H).
Qed.

Lemma rollupAvgActualCostByMonth_instance (rows : list project) (year : Z) :
  rollupAvgActualCostByMonth rows year = rollupAvgByMonth rows year actual_cost.
Proof.
  unfold rollupAvgActualCostByMonth, rollupAvgByMonth.
  assert (H : rollupAvgActualCostByMonth_acc rows year
              = rollupAvgByMonth_acc rows year actual_cost).
  { apply foldl_ext_eq. intros st r.
    unfold rollupAvgActualCostByMonth_step, rollupAvgByMonth_step.
    destruct (new_Date (start_date r)) as [t|]; [|reflexivity].
    destruct (year_of_ms t =? year)%Z; destruct (isFinite (actual_cost r));
      reflexivity. }
  rewrite H. reflexivity.
Qed.

(** X8.  [rollupAvgByMonth]: twelve entries, the entry of a month being
    the arithmetic mean of the finite values of the rows that start in that
    month of the year, and 0 for a month without such a row;
    [rollupAvgActualCostByMonth] is its instance on [actual_cost]. *)
Theorem rollupAvgByMonth_mean (rows : list project) (year : Z)
    (accessor : project -> num) :
  length (rollupAvgByMonth rows year accessor) = 12%nat /\
  (forall i, (i < 12)%nat ->
     rollupAvgByMonth rows year accessor !! i
     = Some (Num (Rmean ((fun r => finite_or_0 (accessor r))
                           <$> rows_at (finite_month_key year accessor) i rows)))) /\
  rollupAvgActualCostByMonth rows year = rollupAvgByMonth rows year actual_cost.
Proof.
  split; [|split].
  - unfold rollupAvgByMonth, arr_ratio. rewrite length_imap.
    rewrite rollupAvgByMonth_acc_keyed. cbn [fst].
    rewrite indexed_step_length. apply length_replicate.
  - intros i Hi. unfold rollupAvgByMonth, arr_ratio.
    rewrite rollupAvgByMonth_acc_keyed. cbn [fst snd].
    rewrite list_lookup_imap.
    rewrite (indexed_count _ 12 rows i Hi).
    rewrite (indexed_step_total _ _ 12 rows i Hi).
    cbn [fmap option_fmap option_map to_num default from_option Datatypes.id].
    f_equal. unfold of_nat, truthy.
    set (l := rows_at (finite_month_key year accessor) i rows).
    destruct (Req_dec_T (INR (length l)) 0) as [Hz|Hnz].
    + rewrite Hz, Reqb_refl. cbn [negb].
      rewrite (INR_zero_length l Hz). reflexivity.
    + rewrite (Reqb_false _ _ Hnz). cbn [negb].
      rewrite div_Num by exact Hnz. f_equal.
      unfold Rmean. destruct l as [|x l']; [exfalso; apply Hnz; reflexivity|].
      cbn [fmap list_fmap length]. rewrite length_fmap. reflexivity.
  - apply rollupAvgActualCostByMonth_instance.
Qed.

Lemma indexed_step_skip {A : Type} (idx : A -> option nat) (val : A -> R)
    (P : A -> Prop) `{!forall x, Decision (P x)} (rows : list A) (arr : list num) :
  (forall r, ~ P r -> idx r = None) ->
  foldl (indexed_step idx val) arr (filter P rows)
  = foldl (indexed_step idx val) arr rows.
Proof.
  intros Hskip. symmetry. apply foldl_filter_skip.
  intros s r Hr. unfold indexed_step. rewrite (Hskip r Hr). reflexivity.
Qed.

(** X9.  Selecting a year and then rolling up by the months of that year
    gives what the rollup gives on all rows: the monthly rollups are not
    changed by the year filter of the dashboards. *)
Theorem month_rollups_on_year_slice (year : Z) :
  (forall (rows : list project) accessor,
     rollupAvgByMonth (projSlice rows year) year accessor
     = rollupAvgByMonth rows year accessor) /\
  (forall rows : list project,
     rollupAvgActualCostByMonth (projSlice rows year) year
     = rollupAvgActualCostByMonth rows year) /\
  (forall rows : list project,
     rollupCountByMonth (projSlice rows year) year = rollupCountByMonth rows year) /\
  (forall rows : list change_order,
     coCountByMonth (coSlice rows year) year = coCountByMonth rows year) /\
  (forall rows : list change_order,
     coCostByMonth (coSlice rows year) year = coCostByMonth rows year).
Proof.
  assert (Havg : forall (rows : list project) accessor,
     rollupAvgByMonth (projSlice rows year) year accessor
     = rollupAvgByMonth rows year accessor).
  { intros rows accessor. unfold rollupAvgByMonth.
    rewrite !rollupAvgByMonth_acc_keyed. unfold projSlice. cbn [fst snd].
    rewrite !indexed_step_skip; [reflexivity| |];
      intros r Hr; unfold finite_month_key, start_month_key;
      rewrite (month_in_other_year _ _ Hr);
      destruct (isFinite (accessor r)); reflexivity. }
  split; [exact Havg|]. split; [|split; [|split]].
  - intros rows. rewrite !rollupAvgActualCostByMonth_instance. apply Havg.
  - intros rows. rewrite !rollupCountByMonth_keyed. unfold projSlice.
    apply indexed_step_skip. intros r Hr. apply month_in_other_year, Hr.
  - intros rows. rewrite !coCountByMonth_keyed. unfold coSlice.
    apply indexed_step_skip. intros r Hr. apply month_in_other_year, Hr.
  - intros rows. rewrite !coCostByMonth_keyed. unfold coSlice.
    apply indexed_step_skip. intros r Hr.
    unfold finite_co_month_key, co_month_key.
    rewrite (month_in_other_year _ _ Hr).
    destruct (isFinite (co_cost r)); reflexivity.
Qed.

End Months.

(* ===================================================================== *)
(** ** Rule score: cap, saturation, unparsable dates, monotonicity *)
(* ===================================================================== *)

Section RuleScoreBounds.
Import JS Data Spec Predictive.
Local Open Scope R_scope.

Lemma capped_round_at_most_100 (s : num) :
  gt (Math_min (Num 100) (Math_round s)) (Num 100) = false /\
  forall x, Math_min (Num 100) (Math_round s) = Num x ->
            exists k : Z, x = IZR k /\ (k <= 100)%Z.
Proof.
  destruct s as [y| | |]; cbn [Math_round].
  - rewrite Math_min_Num. unfold gt. cbn [lt]. split.
    + apply Rltb_false. apply Rmin_l.
    + intros x [= <-]. destruct (Rle_dec 100 (IZR (Int_part (y + / 2)))) as [Hle|Hgt].
      * exists 100%Z. split; [apply Rmin_left, Hle|lia].
      * exists (Int_part (y + / 2)). split; [apply Rmin_right; lra|].
        apply le_IZR. lra.
  - cbn. split; [apply Rltb_false; lra|].
    intros x [= <-]. exists 100%Z. split; [reflexivity|lia].
  - cbn. split; [reflexivity|discriminate].
  - cbn. split; [reflexivity|discriminate].
Qed.

(** X10.  [ruleRiskScore] never returns a number above 100, whatever the
    row and the change-order totals, and a finite score is a whole
    number. *)
Theorem ruleRiskScore_at_most_100 (row : project) (coMap : gmap string num) :
  gt (ruleRiskScore row coMap) (Num 100) = false /\
  forall x, ruleRiskScore row coMap = Num x ->
            exists k : Z, x = IZR k /\ (k <= 100)%Z.
Proof. unfold ruleRiskScore. apply capped_round_at_most_100. Qed.

Lemma log10_100000 : log10 100000 = 5.
Proof.
  unfold log10. replace 100000 with (10 ^ 5) by (simpl; lra).
  rewrite ln_pow by lra. simpl INR. pose proof ln_10_pos. field. lra.
Qed.

Lemma log10_le (x y : R) : 0 < x -> x <= y -> log10 x <= log10 y.
Proof.
  intros Hx [Hlt| ->]; [|lra].
  left. apply log10_lt; assumption.
Qed.

Lemma Rmin_100_mono (x y : R) : x <= y -> Rmin 100 x <= Rmin 100 y.
Proof.
  intros Hxy. unfold Rmin.
  destruct (Rle_dec 100 x), (Rle_dec 100 y); lra.
Qed.

Lemma rule_raw_mono (b b' s s' t t' : R) :
  b <= b' -> s <= s' -> t <= t' -> rule_raw b s t <= rule_raw b' s' t'.
Proof.
  intros Hb Hs Ht. unfold rule_raw.
  assert (Hl : log10 (Rmax 1 b) <= log10 (Rmax 1 b')).
  { apply log10_le; [apply Rmax_1_pos|].
    unfold Rmax. destruct (Rle_dec 1 b), (Rle_dec 1 b'); lra. }
  lra.
Qed.

(** X11.  Saturation: a project with a planned budget of 100,000 or more,
    end dates that are blank or parse, and a change-order total that, as
    the scorer reads it from the map ([coMap[id] || 0], taken as a number),
    is a number and not negative, has the rule score 100, and is counted at
    risk.  (An id such as "constructor", for which the map has no number,
    is read as a member of [Object.prototype]: that read is NaN, and the
    hypothesis on the total fails.) *)
Theorem ruleRiskScore_saturates (row : project) (coMap : gmap string num)
    (b t : R) :
  planned_budget row = Num b ->
  100000 <= b ->
  well_dated (planned_end row) -> well_dated (actual_end row) ->
  co_read coMap row = Num t ->
  0 <= t ->
  ruleRiskScore row coMap = Num 100 /\
  atRiskCount [ruleRiskScore row coMap] = 1%nat.
Proof.
  intros Hb Hlarge Hpe Hae Ht Htpos.
  assert (Hs : ruleRiskScore row coMap = Num 100).
  { rewrite (ruleRiskScore_finite row coMap b t Hb Hpe Hae Ht). f_equal.
    apply Rmin_left.
    rewrite <- (round_IZR 100). apply round_mono.
    pose proof (rule_raw_mono 100000 b 0 (slip_days row) 0 t Hlarge
                  (slip_days_nonneg row) Htpos) as Hm.
    unfold rule_raw at 1 in Hm.
    rewrite (Rmax_right 1 100000), log10_100000 in Hm by lra. lra. }
  split; [exact Hs|]. rewrite Hs. unfold atRiskCount.
  rewrite filter_cons, filter_nil.
  destruct (decide (ge (Num 100) (Num 70) = true)) as [_|Hn]; [reflexivity|].
  exfalso. apply Hn. unfold ge. cbn [le]. apply Rleb_true. lra.
Qed.

Lemma ruleRiskScore_saturates_witness :
  let row := Project "P1" (iso 2022 1 10) (iso 2023 1 1) Blank
                     (Num 250000) (Num 240000) in
  ruleRiskScore row ∅ = Num 100 /\ atRiskCount [ruleRiskScore row ∅] = 1%nat.
Proof.
  intros row.
  apply (ruleRiskScore_saturates row ∅ 250000 0).
  - reflexivity.
  - lra.
  - discriminate.
  - discriminate.
  - apply read_empty. reflexivity.
  - lra.
Defined.

Lemma add_NaN_r (a : num) : add a NaN = NaN.
Proof. destruct a; reflexivity. Qed.

Lemma ruleRiskScore_NaN (row : project) (coMap : gmap string num) :
  unparsable_end row -> ruleRiskScore row coMap = NaN.
Proof.
  intros (Hpe & Hae & Hbad). unfold ruleRiskScore.
  assert (Hslip :
    match parseDate (planned_end row), parseDate (actual_end row) with
    | Some pe, Some ae => Math_max (Num 0) (div (Date_sub ae pe) day_ms)
    | _, _ => Num 0
    end = NaN).
  { destruct (planned_end row) as [|[pe|]]; [contradiction| |];
      destruct (actual_end row) as [|[ae|]]; try contradiction;
      try reflexivity.
    destruct Hbad; discriminate. }
  rewrite Hslip. cbn [mul]. rewrite add_NaN_r. reflexivity.
Qed.

Lemma riskHistogram_NaN_from (n : nat) :
  forall a0 a1 a2 a3 a4 : nat,
    foldl riskHistogram_step [a0; a1; a2; a3; a4] (replicate n NaN)
    = [a0; a1; a2; a3; (a4 + n)%nat].
Proof.
  induction n as [|n IH]; intros a0 a1 a2 a3 a4.
  - cbn [replicate foldl]. rewrite Nat.add_0_r. reflexivity.
  - cbn [replicate]. rewrite foldl_cons_eq.
    change (riskHistogram_step [a0; a1; a2; a3; a4] NaN)
      with [a0; a1; a2; a3; S a4].
    rewrite IH. do 4 f_equal. f_equal. lia.
Qed.

(** X12.  A project whose two end dates are filled in, one of them with a
    text that does not parse, gets the score NaN.  A portfolio of such
    projects is drawn entirely in the last bin (81–100) of the risk
    histogram, while none of them is counted at risk. *)
Theorem unparsable_end_date_scores (ps : list project) (cos : list change_order) :
  Forall unparsable_end ps ->
  riskScores ps cos = replicate (length ps) NaN /\
  riskHistogram (riskScores ps cos) = [0; 0; 0; 0; length ps]%nat /\
  atRiskCount (riskScores ps cos) = 0%nat.
Proof.
  intros Hps.
  assert (Hs : riskScores ps cos = replicate (length ps) NaN).
  { unfold riskScores. induction Hps as [|p ps Hp Hps IH]; [reflexivity|].
    rewrite fmap_cons, IH, (ruleRiskScore_NaN _ _ Hp). reflexivity. }
  split; [exact Hs|]. rewrite Hs. split.
  - unfold riskHistogram. cbn [replicate]. apply riskHistogram_NaN_from.
  - unfold atRiskCount. clear Hs. induction (length ps) as [|n IH]; [reflexivity|].
    cbn [replicate]. rewrite filter_cons.
    destruct (decide (ge NaN (Num 70) = true)) as [Hn|_]; [discriminate|exact IH].
Qed.

Lemma unparsable_end_date_scores_witness :
  let p := Project "P1" (iso 2022 1 10) (iso 2023 1 1) (Text None)
                   (Num 1000) (Num 900) in
  riskScores [p] [] = [NaN] /\
  riskHistogram (riskScores [p] []) = [0; 0; 0; 0; 1]%nat /\
  atRiskCount (riskScores [p] []) = 0%nat.
Proof.
  intros p. apply (unparsable_end_date_scores [p] []).
  constructor; [|constructor].
  split; [discriminate|]. split; [discriminate|]. right. reflexivity.
Defined.

(** X13.  The rule score is monotone: with end dates that are blank or
    parse, and change-order totals that, as the scorer reads them from the
    maps ([coMap[id] || 0], taken as a number), are numbers, a project with
    no smaller budget, no shorter slip and no smaller change-order total
    has no smaller score.  (An id for which the read yields a member of
    [Object.prototype] is left out: that read is NaN.) *)
Theorem ruleRiskScore_monotone (row row' : project)
    (coMap coMap' : gmap string num) (b b' t t' : R) :
  planned_budget row = Num b -> planned_budget row' = Num b' ->
  well_dated (planned_end row) -> well_dated (actual_end row) ->
  well_dated (planned_end row') -> well_dated (actual_end row') ->
  co_read coMap row = Num t ->
  co_read coMap' row' = Num t' ->
  b <= b' -> slip_days row <= slip_days row' -> t <= t' ->
  exists s s' : R,
    ruleRiskScore row coMap = Num s /\
    ruleRiskScore row' coMap' = Num s' /\
    s <= s'.
Proof.
  intros Hb Hb' Hpe Hae Hpe' Hae' Ht Ht' Hbb Hss Htt.
  rewrite (ruleRiskScore_finite row coMap b t Hb Hpe Hae Ht).
  rewrite (ruleRiskScore_finite row' coMap' b' t' Hb' Hpe' Hae' Ht').
  eexists _, _. split; [reflexivity|]. split; [reflexivity|].
  apply Rmin_100_mono, round_mono, rule_raw_mono; assumption.
Qed.

Lemma ruleRiskScore_monotone_witness :
  let row := Project "P1" (iso 2022 1 10) (iso 2023 1 1) Blank (Num 100) (Num 90) in
  let row' := Project "P2" (iso 2022 1 10) (iso 2023 1 1) Blank (Num 2000) (Num 90) in
  exists s s' : R,
    ruleRiskScore row ∅ = Num s /\ ruleRiskScore row' ∅ = Num s' /\ s <= s'.
Proof.
  intros row row'.
  apply (ruleRiskScore_monotone row row' ∅ ∅ 100 2000 0 0).
  - reflexivity.
  - reflexivity.
  - discriminate.
  - discriminate.
  - discriminate.
  - discriminate.
  - apply read_empty. reflexivity.
  - apply read_empty. reflexivity.
  - lra.
  - unfold row, row'. rewrite !slip_days_blank. lra.
  - lra.
Defined.

End RuleScoreBounds.

(* ===================================================================== *)
(** ** Trend fit on data that lies on a line *)
(* ===================================================================== *)

Section ExactFit.
Import JS Data Spec Predictive.
Local Open Scope R_scope.

Lemma sums_on_line (alpha beta : R) (pts : list (R * R)) :
  (forall p, p ∈ pts -> p.2 = alpha + beta * p.1) ->
  Sy pts = npts pts * alpha + beta * Sx pts /\
  Sxy pts = alpha * Sx pts + beta * Sxx pts.
Proof.
  induction pts as [|p pts IH]; intros Hline.
  - unfold Sy, Sx, Sxy, Sxx, npts. cbn. lra.
  - destruct (sums_cons p pts) as (-> & -> & -> & -> & _ & ->).
    destruct IH as [-> ->].
    { intros q Hq. apply Hline. right. exact Hq. }
    rewrite (Hline p) by left. split; ring.
Qed.

Lemma points_on_line (alpha beta : R) (m : gmap Z R) :
  on_line alpha beta m ->
  forall p, p ∈ points m -> p.2 = alpha + beta * p.1.
Proof.
  intros Hline p Hp. unfold points in Hp.
  apply list_elem_of_fmap in Hp as ([k v] & -> & Hkv).
  apply elem_of_map_to_list in Hkv. cbn [fst snd].
  apply (Hline k v Hkv).
Qed.

(** X14.  On a series of two or more years whose values lie on a line
    [alpha + beta * year], [linReg] returns exactly that line, and
    [forecastNextYears] continues it. *)
Theorem linReg_recovers_line (m : gmap Z R) (alpha beta : R) :
  (2 <= size m)%nat ->
  on_line alpha beta m ->
  let fit := linReg (Num <$> m) in
  reg_a fit = Num alpha /\
  reg_b fit = Num beta /\
  forall (lastYear : Z) (h : nat),
    (forecastNextYears (reg_a fit) (reg_b fit) (of_Z lastYear) (Z.of_nat h)).2
    = (fun i => Num (alpha + beta * IZR (lastYear + Z.of_nat i))) <$> seq 1 h.
Proof.
  intros Hsize Hline fit. subst fit.
  destruct (linReg_finite m Hsize) as [Hb Ha].
  pose proof (spread_of_series m Hsize) as HD.
  pose proof (npts_of_series m Hsize) as Hn.
  destruct (sums_on_line alpha beta (points m) (points_on_line _ _ m Hline))
    as [Hsy Hsxy].
  assert (Hslope : fit_slope (points m) = beta).
  { unfold fit_slope. rewrite Rmax_right by lra. rewrite Hsy, Hsxy.
    field. lra. }
  assert (Hint : fit_intercept (points m) = alpha).
  { unfold fit_intercept. rewrite Hslope, Hsy. field. lra. }
  rewrite Ha, Hb, Hslope, Hint.
  split; [reflexivity|]. split; [reflexivity|].
  intros lastYear h. rewrite forecastNextYears_unfold. cbn [snd].
  apply list_fmap_ext. intros _ i _.
  rewrite of_Z_add_of_nat. reflexivity.
Qed.

Lemma linReg_recovers_line_witness :
  let m : gmap Z R := {[ 2020%Z := 10; 2021%Z := 30 ]} in
  reg_a (linReg (Num <$> m)) = Num (-40390) /\
  reg_b (linReg (Num <$> m)) = Num 20.
Proof.
  intros m.
  assert (Hsize : (2 <= size m)%nat).
  { unfold m. rewrite map_size_insert_None, map_size_singleton; [lia|].
    apply lookup_singleton_ne. discriminate. }
  assert (Hline : on_line (-40390) 20 m).
  { intros k v Hkv. unfold m in Hkv.
    apply lookup_insert_Some in Hkv as [[<- <-]|[_ Hkv]]; [lra|].
    apply lookup_singleton_Some in Hkv as [<- <-]. lra. }
  destruct (linReg_recovers_line m (-40390) 20 Hsize Hline) as (Ha & Hb & _).
  split; [exact Ha|exact Hb].
Defined.

End ExactFit.

(* ===================================================================== *)
(** ** Spread score: range, jitter, flat cohorts *)
(* ===================================================================== *)

Section SpreadScoreRange.
Import JS Data Spec Prescriptive.
Local Open Scope R_scope.

Lemma clamp_0_100 (v : num) : NaN_or_0_100 (clamp v (Num 0) (Num 100)).
Proof.
  destruct v as [x| | |].
  - right. rewrite clamp_Num. eexists. split; [reflexivity|].
    apply (Rclamp_range x 0 100). lra.
  - right. exists 100. split; [|lra].
    unfold clamp. cbn [Math_min lt]. rewrite Math_max_Num.
    f_equal. apply Rmax_right. lra.
  - right. exists 0. split; [|lra]. reflexivity.
  - left. reflexivity.
Qed.

Lemma put_lookup_ne (o : gmap string num) (k j : string) (a : num) :
  k <> j -> put o k a !! j = o !! j.
Proof.
  intros H. unfold put. destruct (decide (k = "__proto__")).
  - destruct (o !! k); [apply lookup_insert_ne, H|reflexivity].
  - apply lookup_insert_ne, H.
Qed.

Lemma put_proto (o : gmap string num) (k : string) (a : num) :
  o !! "__proto__" = None -> put o k a !! "__proto__" = None.
Proof.
  intros H. destruct (decide (k = "__proto__")) as [->|Hne].
  - unfold put. rewrite decide_True by reflexivity. rewrite H. exact H.
  - rewrite put_lookup_ne by exact Hne. exact H.
Qed.

(** The loop [acc[r.id] = G(r)]: every id of the cohort but "__proto__"
    gets a value; a key that is not an id of the cohort is left alone; and
    nothing is ever stored under "__proto__". *)
Lemma assign_all (G : nat -> num -> num) (P : num -> Prop)
    (raws : list (string * num)) (m0 : gmap string num) (k0 : nat) :
  (forall i r, r ∈ raws -> P (G i r.2)) ->
  forall k, k ∈ raws.*1 -> k <> "__proto__" ->
    exists v,
      (foldl (fun (st : gmap string num * nat) (r : string * num) =>
                (put st.1 r.1 (G st.2 r.2), S st.2))
             (m0, k0) raws).1 !! k = Some v /\ P v.
Proof.
  induction raws as [|r raws IH] using rev_ind; intros HP k Hk Hst.
  - apply elem_of_nil in Hk. contradiction.
  - rewrite foldl_app. cbn [foldl fst snd].
    destruct (decide (k = r.1)) as [->|Hne].
    + rewrite put_storable by exact Hst.
      rewrite lookup_insert_eq. eexists. split; [reflexivity|].
      apply HP. apply elem_of_app. right. left.
    + rewrite put_lookup_ne by congruence.
      apply IH.
      * intros i r' Hr'. apply HP. apply elem_of_app. left. exact Hr'.
      * rewrite fmap_app in Hk. apply elem_of_app in Hk as [Hk|Hk]; [exact Hk|].
        apply list_elem_of_singleton in Hk. congruence.
      * exact Hst.
Qed.

Lemma assign_others (G : nat -> num -> num) (raws : list (string * num))
    (m0 : gmap string num) (k0 : nat) (k : string) :
  k ∉ raws.*1 ->
  (foldl (fun (st : gmap string num * nat) (r : string * num) =>
            (put st.1 r.1 (G st.2 r.2), S st.2))
         (m0, k0) raws).1 !! k = m0 !! k.
Proof.
  induction raws as [|r raws IH] using rev_ind; intros Hk; [reflexivity|].
  rewrite fmap_app in Hk. apply not_elem_of_app in Hk as [Hk Hr].
  rewrite foldl_app. cbn [foldl fst snd].
  rewrite put_lookup_ne; [apply IH, Hk|].
  intros E. apply Hr. rewrite <- E. left.
Qed.

Lemma assign_proto (G : nat -> num -> num) (raws : list (string * num))
    (m0 : gmap string num) (k0 : nat) :
  m0 !! "__proto__" = None ->
  (foldl (fun (st : gmap string num * nat) (r : string * num) =>
            (put st.1 r.1 (G st.2 r.2), S st.2))
         (m0, k0) raws).1 !! "__proto__" = None.
Proof.
  intros H0. induction raws as [|r raws IH] using rev_ind; [exact H0|].
  rewrite foldl_app. cbn [foldl fst snd]. apply put_proto, IH.
Qed.

(** X15.  Whatever the projects, the change-order totals and the random
    draws, the object that [computeRiskScores] returns has a score of its
    own under every project id other than "__proto__", and no property of
    its own under a key that is not a project id; every score is NaN or a
    number between 0 and 100.  Under "__proto__" the assignment
    [acc[r.id] = ...] on the plain object stores nothing: a project with
    that id gets no score. *)
Theorem computeRiskScores_range (rnd : rng) (ps : list project)
    (coMap : gmap string num) :
  (forall p, p ∈ ps -> project_id p <> "__proto__" ->
     exists v, computeRiskScores rnd ps coMap !! project_id p = Some v /\
               NaN_or_0_100 v) /\
  (forall k, k ∉ project_id <$> ps -> computeRiskScores rnd ps coMap !! k = None) /\
  computeRiskScores rnd ps coMap !! "__proto__" = None.
Proof.
  unfold computeRiskScores.
  set (raws := (fun p => (project_id p, raw_composite p coMap)) <$> ps).
  set (mn := to_num (d3_min raws.*2)). set (mx := to_num (d3_max raws.*2)).
  set (span := or_else (sub mx mn) (Num 1)).
  set (G := fun (k : nat) (v : num) =>
              clamp (add (mul (div (sub v mn) span) (Num 100))
                         (randJitter (rnd k) (Num 2)))
                    (Num 0) (Num 100)).
  assert (Hids : raws.*1 = project_id <$> ps)
    by (unfold raws; rewrite <- list_fmap_compose; reflexivity).
  split; [|split].
  - intros p Hp Hst.
    apply (assign_all G NaN_or_0_100 raws ∅ 0).
    + intros i r _. apply clamp_0_100.
    + rewrite Hids. apply list_elem_of_fmap_2, Hp.
    + exact Hst.
  - intros k Hk. rewrite <- Hids in Hk.
    transitivity ((∅ : gmap string num) !! k);
      [exact (assign_others G raws ∅ 0 k Hk)|apply lookup_empty].
  - apply (assign_proto G raws ∅ 0), lookup_empty.
Qed.

Lemma randJitter_2 (u : R) : randJitter u (Num 2) = Num ((u * 2 - 1) * 2).
Proof. unfold randJitter. cbn [mul sub add neg]. f_equal. Qed.

Lemma jittered_score (mn mx x u : R) :
  mn < mx -> mn <= x <= mx -> 0 <= u <= 1 ->
  exists s,
    clamp (add (mul (div (sub (Num x) (Num mn)) (Num (mx - mn))) (Num 100))
               (randJitter u (Num 2)))
          (Num 0) (Num 100) = Num s /\
    0 <= s <= 100 /\
    Rabs (s - (x - mn) / (mx - mn) * 100) <= 2.
Proof.
  intros Hlt Hx Hu. rewrite randJitter_2.
  cbn [sub neg add]. rewrite div_Num by lra. cbn [mul add]. rewrite clamp_Num.
  change (x + - mn) with (x - mn).
  assert (Hr : 0 <= (x - mn) / (mx - mn) <= 1).
  { split.
    - apply Rmult_le_pos; [lra|]. apply Rlt_le, Rinv_0_lt_compat. lra.
    - apply Rmult_le_reg_r with (mx - mn); [lra|].
      unfold Rdiv. rewrite Rmult_assoc, Rinv_l by lra. lra. }
  set (n := (x - mn) / (mx - mn)) in *.
  eexists. split; [reflexivity|]. split.
  - apply (Rclamp_range _ 0 100). lra.
  - apply Rabs_le. unfold Rmax, Rmin.
    destruct (Rle_dec 100 (n * 100 + (u * 2 - 1) * 2));
      destruct (Rle_dec 0 _); lra.
Qed.

(** X16.  With distinct ids, none of them "__proto__", budgets that are
    finite, change-order totals that are finite as the scorer reads them
    from the map (an id for which the read yields a member of
    [Object.prototype] is left out), and raw composites that are not all
    equal, the score of a project is a number between 0 and 100 that lies
    within 2 of the min–max normalization of its raw composite, whatever
    the random draws in [0, 1]. *)
Theorem computeRiskScores_jitter (rnd : rng) (ps : list project)
    (coMap : gmap string num) :
  (forall k, 0 <= rnd k <= 1) ->
  NoDup (project_id <$> ps) ->
  storable_ids ps ->
  Forall (finite_inputs coMap) ps ->
  (exists p q, p ∈ ps /\ q ∈ ps /\
               computed_raw coMap p <> computed_raw coMap q) ->
  forall p, p ∈ ps ->
    exists s,
      computeRiskScores rnd ps coMap !! project_id p = Some (Num s) /\
      0 <= s <= 100 /\
      Rabs (s - normalized (computed_raw coMap <$> ps) (computed_raw coMap p)) <= 2.
Proof.
  intros Hu Hnd Hst Hfin (p0 & q0 & Hp0 & Hq0 & Hne) p Hp.
  set (l := computed_raw coMap <$> ps).
  assert (Hps : ps <> []) by (intros ->; apply elem_of_nil in Hp0; exact Hp0).
  assert (Hl : l <> []) by (unfold l; destruct ps; [congruence|discriminate]).
  assert (Hlt : Rlist_min l < Rlist_max l).
  { apply (distinct_raws_spread l (computed_raw coMap p0) (computed_raw coMap q0));
      [apply list_elem_of_fmap_2, Hp0|apply list_elem_of_fmap_2, Hq0|exact Hne]. }
  destruct (Rlist_min_spec l Hl) as [_ Hmin].
  destruct (Rlist_max_spec l Hl) as [_ Hmax].
  rewrite (computeRiskScores_finite rnd ps coMap Hst Hfin Hps) by (fold l; lra).
  fold l.
  set (G := fun (k : nat) (v : num) =>
              clamp (add (mul (div (sub v (Num (Rlist_min l)))
                                   (Num (Rlist_max l - Rlist_min l)))
                              (Num 100))
                         (randJitter (rnd k) (Num 2)))
                    (Num 0) (Num 100)).
  set (raws := (fun p => (project_id p, Num (computed_raw coMap p))) <$> ps).
  destruct (assign_scores G raws ∅ 0) as [_ A2]. cbv zeta in A2.
  set (res := (foldl _ (∅, 0%nat) raws).1) in *.
  assert (Hids : raws.*1 = project_id <$> ps)
    by (unfold raws; rewrite <- list_fmap_compose; reflexivity).
  rewrite Hids in A2. specialize (A2 Hnd).
  apply list_elem_of_lookup_1 in Hp as [i Hi].
  assert (Hr : raws !! i = Some (project_id p, Num (computed_raw coMap p)))
    by (unfold raws; rewrite list_lookup_fmap, Hi; reflexivity).
  pose proof (A2 i _ Hr) as Hres. cbn [fst snd] in Hres.
  rewrite Hres. unfold G.
  assert (Hx : Rlist_min l <= computed_raw coMap p <= Rlist_max l).
  { assert (Hin : computed_raw coMap p ∈ l)
      by (apply list_elem_of_fmap_2, (list_elem_of_lookup_2 _ i), Hi).
    split; [apply Hmin, Hin|apply Hmax, Hin]. }
  destruct (jittered_score _ _ _ (rnd (0 + i)%nat) Hlt Hx (Hu _))
    as (s & -> & Hs & Hd).
  exists s. split; [reflexivity|]. split; [exact Hs|exact Hd].
Qed.

Lemma computeRiskScores_jitter_witness :
  let ps := [in_flight "A" 1 1; in_flight "B" 10 10] in
  let rnd : rng := fun k => match k with O => 0 | _ => 1 end in
  exists s,
    computeRiskScores rnd ps ∅ !! "B" = Some (Num s) /\
    0 <= s <= 100 /\
    Rabs (s - normalized (computed_raw ∅ <$> ps)
                         (computed_raw ∅ (in_flight "B" 10 10))) <= 2.
Proof.
  intros ps rnd.
  assert (H1 : forall k, 0 <= rnd k <= 1) by (intros [|k]; cbn; lra).
  assert (H2 : NoDup (project_id <$> ps)).
  { unfold ps. cbn. apply NoDup_cons. split.
    - intros H. apply list_elem_of_singleton in H. discriminate H.
    - apply NoDup_singleton. }
  assert (H0 : storable_ids ps).
  { unfold ps. constructor; [discriminate|]. constructor; [discriminate|constructor]. }
  assert (H3 : Forall (finite_inputs ∅) ps).
  { unfold ps. constructor; [apply in_flight_finite; reflexivity|].
    constructor; [apply in_flight_finite; reflexivity|constructor]. }
  assert (H4 : exists p q, p ∈ ps /\ q ∈ ps /\ computed_raw ∅ p <> computed_raw ∅ q).
  { exists (in_flight "A" 1 1), (in_flight "B" 10 10).
    split; [left|]. split; [right; left|].
    destruct (raws_1_10 (Rmax 1) "A" "B") as [Ha Hb].
    unfold computed_raw. rewrite Ha, Hb. lra. }
  assert (H5 : in_flight "B" 10 10 ∈ ps) by (right; left).
  exact (computeRiskScores_jitter rnd ps ∅ H1 H2 H0 H3 H4 (in_flight "B" 10 10) H5).
Defined.

Lemma flat_extremes (l : list R) (a : R) :
  l <> [] -> (forall x, x ∈ l -> x = a) -> Rlist_min l = a /\ Rlist_max l = a.
Proof.
  intros Hl Hall.
  destruct (Rlist_min_spec l Hl) as [Hmin _].
  destruct (Rlist_max_spec l Hl) as [Hmax _].
  split; apply Hall; assumption.
Qed.

(** X17.  A cohort whose raw composites are all equal — a single project,
    for one — gets the score 0 for every project when the jitter is
    forced to 0: the span of the normalization falls back to 1.  The ids
    are other than "__proto__", the budgets are finite, and so are the
    change-order totals as the scorer reads them from the map (an id for
    which the read yields a member of [Object.prototype] is left out). *)
Theorem flat_cohort_scores_zero (rnd : rng) (ps : list project)
    (coMap : gmap string num) :
  no_jitter rnd ->
  storable_ids ps ->
  Forall (finite_inputs coMap) ps ->
  (forall p q, p ∈ ps -> q ∈ ps -> computed_raw coMap p = computed_raw coMap q) ->
  forall p, p ∈ ps ->
    computeRiskScores rnd ps coMap !! project_id p = Some (Num 0).
Proof.
  intros Hj Hst Hfin Hflat p Hp.
  set (a := computed_raw coMap p).
  set (l := computed_raw coMap <$> ps).
  assert (Hl : l <> []).
  { unfold l. destruct ps; [|discriminate]. apply elem_of_nil in Hp. contradiction. }
  destruct (flat_extremes l a Hl) as [Hmn Hmx].
  { intros x Hx. apply list_elem_of_fmap in Hx as (q & -> & Hq).
    apply Hflat; assumption. }
  unfold computeRiskScores. rewrite (finite_raws coMap ps Hfin).
  replace (((fun p => (project_id p, Num (computed_raw coMap p))) <$> ps).*2)
    with (Num <$> l)
    by (unfold l; rewrite <- !list_fmap_compose; reflexivity).
  rewrite (d3_min_finite _ Hl), (d3_max_finite _ Hl), Hmn, Hmx.
  cbn [to_num default from_option Datatypes.id sub neg add].
  replace (a + - a) with 0 by lra.
  assert (Hspan : or_else (Num 0) (Num 1) = Num 1)
    by (unfold or_else, truthy; rewrite Reqb_refl; reflexivity).
  rewrite Hspan.
  set (G := fun (k : nat) (v : num) =>
              clamp (add (mul (div (add v (Num (- a))) (Num 1)) (Num 100))
                         (randJitter (rnd k) (Num 2)))
                    (Num 0) (Num 100)).
  set (raws := (fun p => (project_id p, Num (computed_raw coMap p))) <$> ps).
  destruct (assign_all G (fun v => v = Num 0) raws ∅ 0) with (k := project_id p)
    as (v & Hv & ->).
  - intros i r Hr. unfold raws in Hr.
    apply list_elem_of_fmap in Hr as (q & -> & Hq). cbn [snd]. unfold G.
    rewrite (no_jitter_zero rnd _ Hj), (Hflat q p Hq Hp). fold a.
    cbn [add]. rewrite div_Num by lra. cbn [mul add]. rewrite clamp_Num.
    replace ((a + - a) / 1 * 100 + 0) with 0 by (unfold Rdiv; lra).
    rewrite Rmin_right, Rmax_left by lra. reflexivity.
  - unfold raws. rewrite <- list_fmap_compose.
    apply (list_elem_of_fmap_2 (fun q => project_id q)), Hp.
  - exact (proj1 (Forall_forall _ _) Hst p Hp).
  - exact Hv.
Qed.

Lemma flat_cohort_scores_zero_witness :
  let rnd : rng := fun _ => 1 / 2 in
  computeRiskScores rnd [in_flight "A" 500000 700000] ∅ !! "A" = Some (Num 0).
Proof.
  intros rnd.
  apply (flat_cohort_scores_zero rnd [in_flight "A" 500000 700000] ∅
           no_jitter_half
           ltac:(constructor; [discriminate|constructor])
           ltac:(constructor; [apply in_flight_finite; reflexivity|constructor])
           ltac:(intros p q Hp Hq;
                 apply list_elem_of_singleton in Hp;
                 apply list_elem_of_singleton in Hq;
                 rewrite Hp, Hq; reflexivity)
           (in_flight "A" 500000 700000)).
  left.
Defined.

End SpreadScoreRange.

(* ===================================================================== *)
(** ** Recommendations: inputs, category, profile, savings bounds *)
(* ===================================================================== *)

Section Recommendations.
Import JS Data Spec Prescriptive.
Local Open Scope R_scope.

Lemma costOverrun_floor_any (p : project) :
  Math_max (Num 0) (costOverrun p) = Num (overrun p).
Proof.
  unfold costOverrun, overrun.
  destruct (planned_budget p) as [b| | |]; cbn [isFinite negb orb];
    try (rewrite Math_max_Num, Rmax_left by lra; reflexivity).
  destruct (actual_cost p) as [c| | |]; cbn [isFinite negb sub neg add];
    rewrite Math_max_Num; try (rewrite Rmax_left by lra; reflexivity).
  reflexivity.
Qed.

(** X18.  The drivers that [render] passes on.  The slip
    [Math.max(0, scheduleSlipDays(p))] is, for every row, a finite number
    of days that is not negative (0 when a date is missing or does not
    parse).  [costOverrun] never returns NaN, and the overrun
    [Math.max(0, costOverrun(p))] is not negative.  The change-order total
    [Math.max(0, coMap[p.project_id] || 0)] is not negative when the id of
    the project names no member of [Object.prototype]; when it does
    (an id such as "constructor"), the total is NaN. *)
Theorem recommendation_drivers (p : project) (cos : list change_order) :
  isFinite (scheduleSlipDays p) = true /\
  Math_max (Num 0) (scheduleSlipDays p) = Num (slip_days p) /\
  0 <= slip_days p /\
  isNaN (costOverrun p) = false /\
  le (Num 0) (Math_max (Num 0) (costOverrun p)) = true /\
  (inherited (project_id p) = false ->
   le (Num 0) (Math_max (Num 0)
                 (Number (or_num (get (changeOrderTotals cos) (project_id p))
                                 (Num 0)))) = true) /\
  (inherited (project_id p) = true ->
   Math_max (Num 0)
     (Number (or_num (get (changeOrderTotals cos) (project_id p)) (Num 0)))
   = NaN).
Proof.
  split; [rewrite scheduleSlipDays_days; reflexivity|].
  split; [apply slip_nonneg|]. split; [apply slip_days_nonneg|].
  split.
  { unfold costOverrun.
    destruct (planned_budget p), (actual_cost p); reflexivity. }
  split.
  { rewrite costOverrun_floor_any. cbn [le]. apply Rleb_true, overrun_nonneg. }
  split.
  - intros Hid.
    destruct (coTotalsPerProject_finite cos (project_id p) Hid) as [t Ht].
    change (Diagnostic.coTotalsPerProject cos) with (changeOrderTotals cos) in Ht.
    rewrite Ht, Math_max_Num. cbn [le]. apply Rleb_true, Rmax_l.
  - intros Hid.
    pose proof (coTotalsPerProject_member cos (project_id p) Hid) as Hn.
    change (Diagnostic.coTotalsPerProject cos) with (changeOrderTotals cos) in Hn.
    rewrite Hn. reflexivity.
Qed.

Lemma plan_Num (b : R) : Math_max (Num 1) (Num b) = Num (Rmax 1 b).
Proof. apply Math_max_Num. Qed.

(** X19.  "Supplier/subcontractor review" is recommended only for a
    planned budget of 5,000,000 or more, and then whatever the random
    draw. *)
Theorem supplier_review_needs_large_plan (u : R) (p : project)
    (coTot slip over : num) (b : R) :
  planned_budget p = Num b ->
  chooseAction u p coTot slip over = "Supplier/subcontractor review" ->
  5000000 <= b /\
  forall u', chooseAction u' p coTot slip over = "Supplier/subcontractor review".
Proof.
  intros Hb. unfold chooseAction. rewrite Hb, plan_Num.
  destruct (ge (div coTot (Math_max (Num 1) (add over coTot))) (Num 0.55)
            && ge (div over (Num (Rmax 1 b))) (Num 0.03)).
  { destruct (lt (Num u) (Num 0.6)); discriminate. }
  destruct (ge slip (Num 45) && lt (div over (Num (Rmax 1 b))) (Num 0.05));
    [discriminate|].
  destruct (ge (Num (Rmax 1 b)) (Num 5000000)) eqn:Hplan;
    destruct (ge (div over (Num (Rmax 1 b))) (Num 0.02)
              || ge (div coTot (Math_max (Num 1) (add over coTot))) (Num 0.35));
    cbn [andb]; try (destruct (lt (Num u) (Num 0.5)); discriminate).
  intros _. split; [|intros u'; reflexivity].
  unfold ge in Hplan. cbn [le] in Hplan. apply Rleb_true in Hplan.
  unfold Rmax in Hplan. destruct (Rle_dec 1 b); lra.
Qed.

Lemma supplier_review_needs_large_plan_witness :
  let p := Project "P1" (iso 2022 1 10) (iso 2023 1 1) Blank
                   (Num 6000000) (Num 6200000) in
  5000000 <= 6000000 /\
  forall u', chooseAction u' p (Num 0) (Num 0) (Num 200000)
             = "Supplier/subcontractor review".
Proof.
  intros p.
  apply (supplier_review_needs_large_plan 0 p (Num 0) (Num 0) (Num 200000) 6000000).
  - reflexivity.
  - unfold chooseAction, p. cbn [planned_budget add].
    rewrite !Math_max_Num. rewrite (Rmax_right 1 6000000) by lra.
    rewrite (Rmax_right 1 (200000 + 0)) by lra.
    rewrite !div_Num by lra. unfold ge, lt, le.
    rewrite (proj2 (Rleb_false 0.55 (0 / (200000 + 0)))) by (unfold Rdiv; lra).
    cbn [andb].
    rewrite (proj2 (Rleb_false 45 0)) by lra. cbn [andb].
    rewrite (proj2 (Rleb_true 5000000 6000000)) by lra.
    rewrite (proj2 (Rleb_true 0.02 (200000 / 6000000))) by (unfold Rdiv; lra).
    reflexivity.
Defined.

Lemma sampleRange_band (u1 u2 lo hi : R) :
  0 <= u1 <= 1 -> 0 <= u2 <= 1 -> lo <= hi ->
  0.02 <= lo -> hi <= 0.98 ->
  within_band (sampleRange u1 u2 (Num lo, Num hi)) (Num lo, Num hi).
Proof.
  intros H1 H2 Hlh Hlo Hhi.
  exists (lo + u1 * (hi - lo) + (u2 * 2 - 1) * 0.02), lo, hi.
  assert (Hm : 0 <= u1 * (hi - lo) <= hi - lo) by nra.
  split; [reflexivity|]. split; [|split; lra].
  unfold sampleRange, randJitter. cbn [fst snd sub neg add mul].
  rewrite clamp_Num. f_equal.
  rewrite Rmin_right, Rmax_right by lra. lra.
Qed.

(** X20.  Every category that [chooseAction] returns has a profile in
    [CAT_PROFILE], and the impact and the effort that [sampleRange] draws
    from it are numbers within 0.02 of their band and between 0 and 1,
    whatever the random draws in [0, 1]. *)
Theorem recommendation_profile (u u1 u2 u3 u4 : R) (p : project)
    (coTot slip over : num) :
  0 <= u1 <= 1 -> 0 <= u2 <= 1 -> 0 <= u3 <= 1 -> 0 <= u4 <= 1 ->
  exists impact effort : num * num,
    CAT_PROFILE (chooseAction u p coTot slip over) = Some (impact, effort) /\
    within_band (sampleRange u1 u2 impact) impact /\
    within_band (sampleRange u3 u4 effort) effort.
Proof.
  intros H1 H2 H3 H4.
  pose proof (chooseAction_category u p coTot slip over) as Hcat.
  unfold categories in Hcat.
  repeat (apply elem_of_cons in Hcat as [Hcat|Hcat];
          [rewrite Hcat; eexists _, _; split; [reflexivity|];
           split; apply sampleRange_band; (assumption || lra)|]).
  apply elem_of_nil in Hcat. contradiction.
Qed.

Lemma recommendation_profile_witness :
  let p := Project "P1" (iso 2022 1 10) (iso 2023 1 1) Blank
                   (Num 6000000) (Num 6200000) in
  exists impact effort : num * num,
    CAT_PROFILE (chooseAction 0 p (Num 0) (Num 0) (Num 200000))
    = Some (impact, effort) /\
    within_band (sampleRange 0 1 impact) impact /\
    within_band (sampleRange 1 (1/2) effort) effort.
Proof.
  intros p.
  apply (recommendation_profile 0 0 1 1 (1/2) p (Num 0) (Num 0) (Num 200000));
    lra.
Defined.

Lemma estimateSavings_rate (p : project) (cat : string) (b coTot : R) :
  0 <= coTot ->
  exists q : R,
    (if decide (cat = "Scope alignment") then
       add (Num 0.10) (Math_min (Num 0.06) (div (Num coTot) (Num (Rmax 1 b))))
     else if decide (cat = "Design clarification") then Num 0.07
     else if decide (cat = "Supplier/subcontractor review") then Num 0.05
     else if decide (cat = "Schedule tune-up") then
       add (Num 0.03)
           (Math_min (Num 0.02)
              (div (Math_max (Num 0) (scheduleSlipDays p)) (Num 180)))
     else Num 0.04) = Num q /\
    0.03 <= q <= 0.16.
Proof.
  intros Hco.
  destruct (decide (cat = "Scope alignment")).
  { rewrite div_Num by apply Rmax_1_nonzero. rewrite Math_min_Num. cbn [add].
    eexists. split; [reflexivity|].
    assert (0 <= coTot / Rmax 1 b).
    { apply Rmult_le_pos; [exact Hco|].
      apply Rlt_le, Rinv_0_lt_compat, Rmax_1_pos. }
    unfold Rmin. destruct (Rle_dec 0.06 _); lra. }
  destruct (decide (cat = "Design clarification")).
  { eexists. split; [reflexivity|lra]. }
  destruct (decide (cat = "Supplier/subcontractor review")).
  { eexists. split; [reflexivity|lra]. }
  destruct (decide (cat = "Schedule tune-up")).
  { rewrite slip_nonneg, div_Num by lra. rewrite Math_min_Num. cbn [add].
    eexists. split; [reflexivity|].
    pose proof (slip_days_nonneg p).
    unfold Rmin. destruct (Rle_dec 0.02 _); lra. }
  eexists. split; [reflexivity|lra].
Qed.

(** X21.  For every category text, known or not, and drivers that are not
    negative, the savings estimate is a number between 0 and 7% of
    [max(1, budget)], it is at most 16% of the overrun plus the
    change-order total, and it is 0 when both are 0. *)
Theorem estimateSavings_bounds (p : project) (cat : string) (b over coTot : R) :
  planned_budget p = Num b ->
  0 <= over -> 0 <= coTot ->
  exists s : R,
    estimateSavings p cat (Num over) (Num coTot) = Num s /\
    0 <= s <= 0.07 * Rmax 1 b /\
    s <= 0.16 * (over + coTot) /\
    (over + coTot = 0 -> s = 0).
Proof.
  intros Hb Hov Hco. unfold estimateSavings. rewrite Hb, plan_Num.
  destruct (estimateSavings_rate p cat b coTot Hco) as (q & -> & Hq).
  cbn [add mul]. rewrite Math_min_Num, Math_max_Num.
  eexists. split; [reflexivity|].
  pose proof (Rmax_1_pos b) as Hplan.
  assert (Hbase : 0 <= q * (over + coTot) <= 0.16 * (over + coTot)) by nra.
  set (P := 0.07 * Rmax 1 b) in *. set (B := q * (over + coTot)) in *.
  assert (HP : 0 < P) by (unfold P; lra).
  assert (Hmin : 0 <= Rmin P B)
    by (unfold Rmin; destruct (Rle_dec P B); lra).
  rewrite (Rmax_right 0 (Rmin P B) Hmin).
  pose proof (Rmin_l P B). pose proof (Rmin_r P B).
  split; [lra|]. split; [lra|].
  intros Hz. assert (B = 0) by (unfold B; rewrite Hz; ring). lra.
Qed.

Lemma estimateSavings_bounds_witness :
  let p := Project "P1" (iso 2022 1 10) (iso 2023 1 1) Blank
                   (Num 1000000) (Num 1200000) in
  exists s : R,
    estimateSavings p "Retender" (Num 200000) (Num 50000) = Num s /\
    0 <= s <= 0.07 * Rmax 1 1000000 /\
    s <= 0.16 * (200000 + 50000) /\
    (200000 + 50000 = 0 -> s = 0).
Proof.
  intros p.
  apply (estimateSavings_bounds p "Retender" 1000000 200000 50000).
  - reflexivity.
  - lra.
  - lra.
Defined.

End Recommendations.

(* ===================================================================== *)
(** ** Diagnostic KPIs *)
(* ===================================================================== *)

Section DiagnosticKPIs.
Import JS Data Spec Predictive Diagnostic Descriptive.
Local Open Scope R_scope.

Lemma d3_mean_from (l : list R) :
  forall (c : nat) (s : R),
    foldl (fun (st : nat * num) v =>
             if ge v v then (S st.1, add st.2 v) else st)
          (c, Num s) (Num <$> l)
    = ((c + length l)%nat, Num (s + Rsum l)).
Proof.
  induction l as [|x l IH]; intros c s.
  - cbn [fmap list_fmap foldl length]. rewrite Nat.add_0_r.
    change (Rsum []) with 0. do 2 f_equal. lra.
  - rewrite fmap_cons, foldl_cons_eq.
    assert (Hge : ge (Num x) (Num x) = true)
      by (unfold ge; cbn [le]; apply Rleb_true; lra).
    rewrite Hge. cbn [fst snd add]. rewrite IH, Rsum_cons. cbn [length].
    f_equal; [lia|f_equal; lra].
Qed.

Lemma d3_mean_Num (l : list R) : d3_mean (Num <$> l) = mean_if_any l.
Proof.
  unfold d3_mean. rewrite d3_mean_from. cbn [fst snd].
  destruct l as [|x l]; [reflexivity|].
  cbn [length Nat.add mean_if_any]. unfold of_nat.
  rewrite div_Num by apply (INR_length_nonzero x l).
  unfold Rmean. do 2 f_equal. cbn [length]. lra.
Qed.

Lemma d3_mean_skips_NaN (vs : list num) :
  d3_mean vs = d3_mean (filter (fun v => isNaN v = false) vs).
Proof.
  unfold d3_mean.
  rewrite <- (foldl_filter_skip
                (fun (st : nat * num) v =>
                   if ge v v then (S st.1, add st.2 v) else st)
                (fun v => isNaN v = false)); [reflexivity|].
  intros st v Hv. destruct v; try (exfalso; apply Hv; reflexivity). reflexivity.
Qed.

Lemma ratio_of_row (r : project) :
  projectCostVarianceRatio r
  = from_option (fun p => Num (cost_variance_ratio p)) NaN (budget_and_cost r).
Proof.
  unfold projectCostVarianceRatio, budget_and_cost, cost_variance_ratio.
  destruct (planned_budget r) as [b| | |]; try reflexivity.
  destruct (actual_cost r) as [c| | |]; cbn [isFinite negb orb le];
    try (rewrite orb_true_r; destruct (decide (0 < b)); reflexivity).
  rewrite orb_false_r.
  destruct (decide (0 < b)) as [Hb|Hb].
  - rewrite (proj2 (Rleb_false b 0) Hb). cbn [sub neg add from_option fst snd].
    rewrite div_Num by lra. reflexivity.
  - rewrite (proj2 (Rleb_true b 0)) by lra. reflexivity.
Qed.

Lemma budget_positive (r : project) (p : R * R) :
  budget_and_cost r = Some p -> 0 < p.1.
Proof.
  unfold budget_and_cost.
  destruct (planned_budget r) as [b| | |]; try discriminate.
  destruct (actual_cost r) as [c| | |]; try discriminate.
  destruct (decide (0 < b)); [|discriminate].
  intros [= <-]. assumption.
Qed.

Lemma kpi_vars_ratios (rows : list project) :
  kpi_vars rows = Num <$> (cost_variance_ratio <$> omap budget_and_cost rows) /\
  length (filter (fun v => gt v (Num 0) = true) (kpi_vars rows))
  = length (filter (fun p => p.1 < p.2) (omap budget_and_cost rows)).
Proof.
  unfold kpi_vars.
  induction rows as [|r rows [IH1 IH2]]; [split; reflexivity|].
  rewrite fmap_cons, filter_cons, ratio_of_row. simpl omap.
  destruct (budget_and_cost r) as [[b c]|] eqn:Hbc; cbn [from_option isFinite].
  - destruct (decide (true = true)) as [_|Hn]; [|congruence].
    rewrite !fmap_cons, !filter_cons, IH1. split; [reflexivity|].
    pose proof (budget_positive r _ Hbc) as Hb. cbn [fst snd] in *.
    unfold gt at 1. cbn [lt]. unfold cost_variance_ratio at 1. cbn [fst snd].
    assert (Hiff : 0 < (c - b) / b <-> b < c).
    { split; intros H.
      - assert (0 < (c - b) / b * b) by (apply Rmult_lt_0_compat; lra).
        unfold Rdiv in *. rewrite Rmult_assoc, Rinv_l in * by lra. lra.
      - apply Rmult_lt_0_compat; [lra|apply Rinv_0_lt_compat, Hb]. }
    destruct (decide (Rltb 0 ((c - b) / b) = true)) as [H1|H1];
      destruct (decide (b < c)) as [H2|H2].
    + cbn [length]. rewrite <- IH1, IH2. reflexivity.
    + exfalso. apply H2, Hiff, Rltb_true, H1.
    + exfalso. apply H1, Rltb_true, Hiff, H2.
    + rewrite <- IH1. exact IH2.
  - destruct (decide (false = true)) as [Hn|_]; [discriminate|].
    split; assumption.
Qed.

Lemma schedVarAccessor_schedule_variance (r : project) :
  schedVarAccessor r = schedule_variance r.
Proof.
  unfold schedVarAccessor, schedule_variance.
  destruct (parseDate (planned_end r)) as [[pe|]|];
    destruct (parseDate (actual_end r)) as [[ae|]|]; reflexivity.
Qed.

Lemma kpi_scheds_days (rows : list project) :
  kpi_scheds rows = Num <$> omap variance_days rows.
Proof.
  unfold kpi_scheds. rewrite <- finite_variances. f_equal.
  apply list_fmap_ext. intros _ r _. apply schedVarAccessor_schedule_variance.
Qed.

(** X22.  The KPIs of the diagnostic dashboard.  The overrun rate is the
    baseline overrun probability of the predictive dashboard as soon as one
    row has a finite positive budget and a finite cost, and NaN (shown as
    N/A) where the predictive dashboard says 0 when there is none.  The
    average cost variance and the average schedule variance are the means
    over the rows that have one, and undefined when no row has. *)
Theorem diagnostic_kpis (rows : list project) :
  overrunRate rows
  = match omap budget_and_cost rows with
    | [] => NaN
    | _ => base (portfolioOverrunProbability rows)
    end /\
  base (portfolioOverrunProbability rows) = Num (baseline rows) /\
  d3_mean (kpi_vars rows)
  = mean_if_any (cost_variance_ratio <$> omap budget_and_cost rows) /\
  d3_mean (kpi_scheds rows) = mean_if_any (omap variance_days rows).
Proof.
  destruct (kpi_vars_ratios rows) as [Hv Hc].
  assert (Hbase : base (portfolioOverrunProbability rows) = Num (baseline rows)).
  { unfold portfolioOverrunProbability. cbv zeta. cbn [base].
    apply base_is_baseline. }
  split; [|split; [exact Hbase|split]].
  - unfold overrunRate. rewrite Hc, Hbase. rewrite Hv. unfold baseline.
    destruct (omap budget_and_cost rows) as [|p l]; [reflexivity|].
    rewrite !length_fmap. rewrite !fmap_cons.
    unfold of_nat. rewrite div_Num by apply INR_length_nonzero. reflexivity.
  - rewrite Hv. apply d3_mean_Num.
  - rewrite kpi_scheds_days. apply d3_mean_Num.
Qed.

Lemma finite_costs (data : list project) :
  filter (fun v => isNaN v = false)
    ((fun r => if isFinite (actual_cost r) then actual_cost r else NaN) <$> data)
  = Num <$> omap (fun r => match actual_cost r with Num c => Some c | _ => None end) data.
Proof.
  induction data as [|r data IH]; [reflexivity|].
  rewrite fmap_cons, filter_cons. simpl omap.
  destruct (actual_cost r) as [c| | |]; cbn [isFinite].
  - rewrite decide_True by reflexivity. rewrite IH. reflexivity.
  - rewrite decide_False by discriminate. exact IH.
  - rewrite decide_False by discriminate. exact IH.
  - rewrite decide_False by discriminate. exact IH.
Qed.

(** X23.  The average-cost KPI of the descriptive dashboard is the mean of
    the finite actual costs, and undefined when no row has a finite cost.
    [sumSafe] adds up, from 0 and in the order of the array, the entries
    that are finite and passes over the others: it is the sum of the array
    without its entries that are not finite, and it is never NaN. *)
Theorem descriptive_kpis :
  (forall data : list project,
     avgCost data
     = mean_if_any
         (omap (fun r => match actual_cost r with Num c => Some c | _ => None end)
               data)) /\
  (forall arr : list num,
     sumSafe arr = sum (filter (fun v => isFinite v = true) arr)) /\
  (forall arr : list num, isNaN (sumSafe arr) = false).
Proof.
  split; [|split].
  - intros data. unfold avgCost. rewrite d3_mean_skips_NaN, finite_costs.
    apply d3_mean_Num.
  - intros arr. unfold sumSafe, sum. generalize (Num 0).
    induction arr as [|v arr IH]; intros acc; [reflexivity|].
    rewrite foldl_cons_eq, filter_cons.
    destruct (decide (isFinite v = true)) as [Hv|Hv].
    + rewrite Hv, foldl_cons_eq. apply IH.
    + apply not_true_is_false in Hv. rewrite Hv. apply IH.
  - intros arr. unfold sumSafe.
    assert (H : forall s : R, exists s' : R,
              foldl (fun acc v => if isFinite v then add acc v else acc) (Num s) arr
              = Num s').
    { induction arr as [|v arr IH]; intros s.
      - exists s. reflexivity.
      - rewrite foldl_cons_eq.
        destruct v as [x| | |]; cbn [isFinite add]; apply IH. }
    destruct (H 0) as [s' ->]. reflexivity.
Qed.

End DiagnosticKPIs.

(* ===================================================================== *)
(** ** Overrun attribution, change-order frequency, reason keys *)
(* ===================================================================== *)

Section Attribution.
Import JS Data Spec Diagnostic.
Local Open Scope R_scope.

Lemma attribution_step_cases (coTotals : gmap string num) (isAll : bool)
    (out : gmap (option Z) (num * num)) (r : project) :
  overrunAttribution_step coTotals isAll out r =
  match overrun_key isAll r with
  | Some key =>
      <[key := (add (default (Num 0, Num 0) (out !! key)).1
                    (Math_min (Num (cost_excess r)) (co_read coTotals r)),
                add (default (Num 0, Num 0) (out !! key)).2
                    (Math_max
                       (sub (Num (cost_excess r))
                            (Math_min (Num (cost_excess r)) (co_read coTotals r)))
                       (Num 0)))]> out
  | None => out
  end.
Proof.
  unfold overrunAttribution_step, overrun_key, cost_excess, co_read.
  destruct (planned_budget r) as [b| | |]; try reflexivity.
  destruct (actual_cost r) as [c| | |]; try reflexivity.
  cbn [isFinite negb orb sub neg add finite_or_0].
  rewrite Math_max_Num. cbn [le].
  destruct (decide (b < c)) as [Hlt|Hge].
  - rewrite (Rmax_left (c + - b) 0) by lra.
    rewrite (proj2 (Rleb_false (c + - b) 0)) by lra.
    reflexivity.
  - rewrite (Rmax_right (c + - b) 0) by lra.
    rewrite (proj2 (Rleb_true 0 0)) by lra. reflexivity.
Qed.

Lemma attribution_fold (f g : project -> num) (key : project -> option (option Z))
    (rows : list project) (k : option Z) :
  foldl (fun (out : gmap (option Z) (num * num)) r =>
           match key r with
           | Some kk =>
               <[kk := (add (default (Num 0, Num 0) (out !! kk)).1 (f r),
                        add (default (Num 0, Num 0) (out !! kk)).2 (g r))]> out
           | None => out
           end) ∅ rows !! k
  = match rows_at key k rows with
    | [] => None
    | l => Some (sum (f <$> l), sum (g <$> l))
    end.
Proof.
  induction rows as [|r rows IH] using rev_ind.
  - cbn [foldl]. rewrite lookup_empty. reflexivity.
  - rewrite foldl_app. cbn [foldl]. rewrite rows_at_snoc.
    destruct (key r) as [k'|] eqn:Hk.
    + destruct (decide (k' = k)) as [->|Hne].
      * rewrite lookup_insert_eq, IH.
        destruct (decide (Some k = Some k)) as [_|Hn]; [|congruence].
        destruct (rows_at key k rows) as [|x l];
          cbn [default from_option Datatypes.id fst snd app].
        -- reflexivity.
        -- change (x :: l ++ [r]) with ((x :: l) ++ [r]).
           unfold sum. rewrite !fmap_app, !foldl_app. reflexivity.
      * rewrite lookup_insert_ne by exact Hne. rewrite IH.
        rewrite decide_False by congruence. rewrite app_nil_r. reflexivity.
    + rewrite IH. rewrite decide_False by congruence.
      rewrite app_nil_r. reflexivity.
Qed.

(** The two parts of one project: numbers when the id of the project names
    no member of [Object.prototype], NaN when it does *)
Lemma attributed_parts (coRows : list change_order) (r : project) :
  inherited (project_id r) = false ->
  Math_min (Num (cost_excess r)) (co_read (coTotalsPerProject coRows) r)
  = Num (attr_co (coTotalsPerProject coRows) r) /\
  Math_max (sub (Num (cost_excess r))
                (Math_min (Num (cost_excess r))
                          (co_read (coTotalsPerProject coRows) r)))
           (Num 0)
  = Num (attr_other (coTotalsPerProject coRows) r).
Proof.
  intros Hid. unfold attr_other, attr_co.
  destruct (coTotalsPerProject_finite coRows (project_id r) Hid) as [t Ht].
  unfold co_read. rewrite Ht. cbn [finite_or_0].
  rewrite Math_min_Num. split; [reflexivity|].
  cbn [sub neg add]. rewrite Math_max_Num. f_equal.
  pose proof (Rmin_l (cost_excess r) t).
  rewrite Rmax_left by lra. reflexivity.
Qed.

Lemma attributed_parts_member (coRows : list change_order) (r : project) :
  inherited (project_id r) = true ->
  Math_min (Num (cost_excess r)) (co_read (coTotalsPerProject coRows) r) = NaN /\
  Math_max (sub (Num (cost_excess r))
                (Math_min (Num (cost_excess r))
                          (co_read (coTotalsPerProject coRows) r)))
           (Num 0)
  = NaN.
Proof.
  intros Hid. unfold co_read.
  rewrite (coTotalsPerProject_member coRows (project_id r) Hid).
  split; reflexivity.
Qed.

Lemma add_NaN_l (a : num) : add NaN a = NaN.
Proof. reflexivity. Qed.

Lemma foldl_add_NaN (l : list num) : foldl add NaN l = NaN.
Proof. induction l as [|x l IH]; [reflexivity|]. cbn [foldl]. exact IH. Qed.

Lemma sum_with_NaN (l : list num) : NaN ∈ l -> sum l = NaN.
Proof.
  unfold sum. generalize (Num 0). induction l as [|x l IH]; intros a Hin.
  - apply elem_of_nil in Hin. contradiction.
  - cbn [foldl]. apply elem_of_cons in Hin as [<-|Hin].
    + destruct a; apply foldl_add_NaN.
    + apply IH, Hin.
Qed.

(** X24.  [overrunAttributionByTime] files a project under the year (or
    the month) of its start date when budget and cost are finite and the
    cost exceeds the budget; a bucket without such a project has no entry.
    When the ids of the projects of a bucket name no member of
    [Object.prototype], the entry of the bucket holds the sum of the parts
    attributed to change orders, [min(overrun, coTotal)], and the sum of
    the rests, both taken in exact arithmetic; the two add up to the total
    overrun of the bucket, and the rest is never negative.  When one of
    these ids names such a member (an id such as "constructor"), the
    change-order total that is read for it is not a number, and both sums
    of the bucket are NaN. *)
Theorem overrun_attribution_splits (projects : list project)
    (coRows : list change_order) (isAll : bool) (key : option Z) :
  let coTotals := coTotalsPerProject coRows in
  let l := rows_at (overrun_key isAll) key projects in
  (l = [] -> overrunAttribution_out projects coRows isAll !! key = None) /\
  (l <> [] -> ordinary_ids l ->
   overrunAttribution_out projects coRows isAll !! key
   = Some (Num (Rsum (attr_co coTotals <$> l)),
           Num (Rsum (attr_other coTotals <$> l)))) /\
  ((exists r, r ∈ l /\ inherited (project_id r) = true) ->
   overrunAttribution_out projects coRows isAll !! key = Some (NaN, NaN)) /\
  Rsum (attr_co coTotals <$> l) + Rsum (attr_other coTotals <$> l)
  = Rsum (cost_excess <$> l) /\
  0 <= Rsum (attr_other coTotals <$> l).
Proof.
  intros coTotals l.
  assert (Hout : overrunAttribution_out projects coRows isAll !! key
                 = match l with
                   | [] => None
                   | _ =>
                       Some (sum ((fun r => Math_min (Num (cost_excess r))
                                              (co_read coTotals r)) <$> l),
                             sum ((fun r => Math_max
                                     (sub (Num (cost_excess r))
                                          (Math_min (Num (cost_excess r))
                                                    (co_read coTotals r)))
                                     (Num 0)) <$> l))
                   end).
  { unfold overrunAttribution_out. fold coTotals.
    rewrite (foldl_ext_eq _ _ projects
               (fun out r => attribution_step_cases coTotals isAll out r)).
    rewrite (attribution_fold
               (fun r => Math_min (Num (cost_excess r)) (co_read coTotals r))
               (fun r => Math_max
                           (sub (Num (cost_excess r))
                                (Math_min (Num (cost_excess r))
                                          (co_read coTotals r)))
                           (Num 0))).
    fold l. destruct l; reflexivity. }
  split; [|split; [|split; [|split]]].
  - intros Hl. rewrite Hout, Hl. reflexivity.
  - intros Hl Hord. rewrite Hout. destruct l as [|x l'] eqn:El; [congruence|].
    rewrite <- El in *. clear El Hl x l'.
    assert (H1 : (fun r => Math_min (Num (cost_excess r)) (co_read coTotals r)) <$> l
                 = Num <$> (attr_co coTotals <$> l)).
    { rewrite <- list_fmap_compose. apply list_fmap_ext. intros i r Hr.
      apply (attributed_parts coRows r).
      exact (proj1 (Forall_lookup _ _) Hord i r Hr). }
    assert (H2 : (fun r => Math_max
                             (sub (Num (cost_excess r))
                                  (Math_min (Num (cost_excess r))
                                            (co_read coTotals r)))
                             (Num 0)) <$> l
                 = Num <$> (attr_other coTotals <$> l)).
    { rewrite <- list_fmap_compose. apply list_fmap_ext. intros i r Hr.
      apply (attributed_parts coRows r).
      exact (proj1 (Forall_lookup _ _) Hord i r Hr). }
    rewrite H1, H2, !sum_Num. reflexivity.
  - intros (r & Hr & Hid). rewrite Hout.
    destruct (attributed_parts_member coRows r Hid) as [N1 N2].
    destruct l as [|x l'] eqn:El; [apply elem_of_nil in Hr; contradiction|].
    rewrite <- El in *. clear El x l'.
    rewrite !sum_with_NaN; [reflexivity| |].
    + rewrite <- N2.
      apply (list_elem_of_fmap_2
               (fun r => Math_max
                           (sub (Num (cost_excess r))
                                (Math_min (Num (cost_excess r))
                                          (co_read coTotals r)))
                           (Num 0))), Hr.
    + rewrite <- N1.
      apply (list_elem_of_fmap_2
               (fun r => Math_min (Num (cost_excess r)) (co_read coTotals r))), Hr.
  - clear. induction l as [|r l IH].
    + change (Rsum []) with 0. cbn [fmap list_fmap]. change (Rsum []) with 0. lra.
    + rewrite !fmap_cons, !Rsum_cons. unfold attr_other at 1. lra.
  - apply Rsum_nonneg. intros r. unfold attr_other, attr_co.
    pose proof (Rmin_l (cost_excess r) (finite_or_0 (co_read coTotals r))).
    lra.
Qed.

Lemma Int_part_INR (n : nat) : Int_part (INR n) = Z.of_nat n.
Proof. rewrite INR_IZR_INZ. symmetry. apply Int_part_spec. lra. Qed.

Lemma coFrequency_step_count (hist : list num) (n : nat) :
  coFrequency_step hist (VNum (of_nat n)) = arr_add hist (Nat.min n 5) (Num 1).
Proof.
  unfold coFrequency_step, of_nat, ge. cbn [Number le].
  destruct (le_lt_dec 5 n) as [Hle|Hlt].
  - rewrite (proj2 (Rleb_true 5 (INR n))).
    + rewrite Nat.min_r by exact Hle. reflexivity.
    + apply le_INR in Hle. simpl INR in Hle. lra.
  - rewrite (proj2 (Rleb_false 5 (INR n))).
    + unfold array_index. rewrite Int_part_INR.
      rewrite (proj2 (Rleb_true 0 (INR n))) by apply pos_INR.
      rewrite <- INR_IZR_INZ, Reqb_refl. cbn [andb].
      rewrite Nat2Z.id, Nat.min_l by lia. reflexivity.
    + apply lt_INR in Hlt. simpl INR in Hlt. lra.
Qed.

Lemma counts_of_projects (coRows : list change_order) (p : project) :
  inherited (project_id p) = false ->
  or_num (get (coCountsPerProject coRows) (project_id p)) (Num 0)
  = VNum (of_nat (co_count coRows p)).
Proof.
  intros Hid. unfold get.
  rewrite (coCountsPerProject_count coRows _ Hid), Hid.
  unfold keyed_count, co_count.
  destruct (rows_at project_key (project_id p) coRows) as [|x l]; [reflexivity|].
  cbn [or_num]. f_equal. apply or_else_Num.
Qed.

Lemma counts_of_projects_member (coRows : list change_order) (p : project) :
  inherited (project_id p) = true ->
  or_num (get (coCountsPerProject coRows) (project_id p)) (Num 0) = VOther.
Proof.
  intros Hid. unfold get.
  rewrite (coCountsPerProject_member coRows _ Hid), Hid. reflexivity.
Qed.

(** X25.  The change-order frequency histogram has six bins.  Among the
    projects whose id names no member of [Object.prototype], bin [i] below
    5 holds the number of those with exactly [i] change orders filed under
    their id, the last bin the number of those with five or more, and each
    of them is counted in one bin.  A project whose id names such a member
    (an id such as "constructor") is counted in no bin: the count read for
    it is not a number. *)
Theorem coFrequencyHistogram_counts (projects : list project)
    (coRows : list change_order) :
  length (coFrequencyHistogram projects coRows) = 6%nat /\
  (forall i, (i < 6)%nat ->
     coFrequencyHistogram projects coRows !! i
     = Some (of_nat (length (rows_at (frequency_bin coRows) i projects)))) /\
  (forall p, p ∈ projects -> inherited (project_id p) = false ->
     (Nat.min (co_count coRows p) 5 < 6)%nat /\
     p ∈ rows_at (frequency_bin coRows) (Nat.min (co_count coRows p) 5) projects) /\
  (forall p i, inherited (project_id p) = true ->
     p ∉ rows_at (frequency_bin coRows) i projects).
Proof.
  assert (Hfold : coFrequencyHistogram projects coRows
                  = foldl (indexed_step (frequency_bin coRows) (fun _ => 1))
                          (replicate 6 (Num 0)) projects).
  { unfold coFrequencyHistogram. rewrite foldl_fmap_shift.
    apply foldl_ext_eq. intros hist p.
    unfold indexed_step, frequency_bin.
    destruct (inherited (project_id p)) eqn:Hid.
    - rewrite (counts_of_projects_member coRows p Hid). reflexivity.
    - rewrite (counts_of_projects coRows p Hid), coFrequency_step_count.
      reflexivity. }
  rewrite Hfold. split; [|split; [|split]].
  - rewrite indexed_step_length. apply length_replicate.
  - intros i Hi. apply indexed_count, Hi.
  - intros p Hp Hid. split; [lia|].
    unfold rows_at. apply list_elem_of_filter. split; [|exact Hp].
    unfold frequency_bin. rewrite Hid. reflexivity.
  - intros p i Hid Hin. unfold rows_at in Hin.
    apply list_elem_of_filter in Hin as [Hbin _].
    unfold frequency_bin in Hbin. rewrite Hid in Hbin. discriminate Hbin.
Qed.

Lemma reason_key_fixed (s : string) :
  s <> "" -> trim s = s -> reason_key (Reason s) = Some s.
Proof.
  intros Hne Ht. unfold reason_key.
  rewrite (decide_False _ _ Hne), Ht. rewrite (decide_False _ _ Hne).
  reflexivity.
Qed.

Lemma REASON_MAP_labels (k l : string) :
  REASON_MAP k = Label l ->
  l <> "" /\ trim l = l.
Proof.
  unfold REASON_MAP.
  repeat match goal with
         | |- context [decide (k = ?c)] => destruct (decide (k = c))
         end;
    try (destruct (inherited k); discriminate);
    intros [= <-]; (split; [discriminate|vm_compute; reflexivity]).
Qed.

(** X26.  What the loader stores as the reason of a row is a text or, when
    the trimmed cell (or, for a cell without a label, the cell less its
    final ".0...") names a member of [Object.prototype], that member.  A
    text that is stored is never empty and carries no white space at either
    end, so the key under which [topReasons] counts the row,
    [(r.co_reason || "Unspecified").trim() || "Unspecified"], is that text
    itself.  For a member there is no key: the call of [trim] throws. *)
Theorem reason_key_of_normalized (o : option string) :
  (forall s, normalizeReason o = Reason s ->
     s <> "" /\ trim s = s /\ reason_key (normalizeReason o) = Some s) /\
  (normalizeReason o = ReasonMember -> reason_key (normalizeReason o) = None) /\
  (normalizeReason o = ReasonMember <->
   REASON_MAP (trim (default "" o)) = Member \/
   (REASON_MAP (trim (default "" o)) = NoLabel /\
    REASON_MAP (strip_dot_zeros (trim (default "" o))) = Member)).
Proof.
  split; [|split].
  - intros s Hs.
    assert (H : s <> "" /\ trim s = s).
    { revert Hs. unfold normalizeReason.
      set (raw := trim (default "" o)).
      destruct (REASON_MAP raw) as [l| |] eqn:E1.
      - intros [= <-]. apply (REASON_MAP_labels raw l E1).
      - discriminate.
      - destruct (REASON_MAP (strip_dot_zeros raw)) as [l| |] eqn:E2.
        + intros [= <-]. apply (REASON_MAP_labels _ l E2).
        + discriminate.
        + intros [= <-]. destruct (decide (raw = "")) as [He|Hne].
          * split; [discriminate|vm_compute; reflexivity].
          * split; [exact Hne|apply trim_idem]. }
    destruct H as [Hne Ht]. split; [exact Hne|]. split; [exact Ht|].
    rewrite Hs. apply reason_key_fixed; assumption.
  - intros ->. reflexivity.
  - unfold normalizeReason.
    set (raw := trim (default "" o)).
    destruct (REASON_MAP raw) as [l| |] eqn:E1.
    + split; [discriminate|]. intros [H|[H _]]; discriminate H.
    + split; [intros _; left; reflexivity|reflexivity].
    + destruct (REASON_MAP (strip_dot_zeros raw)) as [l| |] eqn:E2.
      * split; [discriminate|]. intros [H|[_ H]]; discriminate H.
      * split; [intros _; right; split; reflexivity|reflexivity].
      * split; [discriminate|]. intros [H|[_ H]]; discriminate H.
Qed.

End Attribution.

(* ===================================================================== *)
(** ** Durations *)
(* ===================================================================== *)

Section Durations.
Import JS Data Spec Diagnostic Descriptive.
Local Open Scope R_scope.

Lemma omap_ext_eq {A B : Type} (f g : A -> option B) (l : list A) :
  (forall x, f x = g x) -> omap f l = omap g l.
Proof.
  intros H. induction l as [|x l IH]; [reflexivity|].
  change (omap f (x :: l)) with (match f x with Some y => y :: omap f l | None => omap f l end).
  change (omap g (x :: l)) with (match g x with Some y => y :: omap g l | None => omap g l end).
  rewrite H, IH. reflexivity.
Qed.

Lemma projectDurationDays_days (r : project) :
  projectDurationDays r = from_option Num NaN (duration_days r).
Proof.
  unfold projectDurationDays, duration_days, effective_end.
  destruct (start_date r) as [|[s|]];
    destruct (actual_end r) as [|[ae|]];
    destruct (planned_end r) as [|[pe|]];
    cbn [parseDate new_Date Date_isNaN orb Date_sub from_option];
    try reflexivity;
    unfold day_ms, of_Z; rewrite div_Num by apply day_ms_nonzero; reflexivity.
Qed.

Lemma descriptive_duration (r : project) :
  match parseDate (start_date r),
        match parseDate (actual_end r) with
        | Some d => Some d
        | None => parseDate (planned_end r)
        end with
  | Some s, Some e => div (Date_sub e s) day_ms
  | _, _ => NaN
  end = projectDurationDays r.
Proof.
  unfold projectDurationDays.
  destruct (start_date r) as [|[s|]];
    destruct (actual_end r) as [|[ae|]];
    destruct (planned_end r) as [|[pe|]]; reflexivity.
Qed.

Lemma durations_days (data : list project) :
  durations data = Num <$> omap duration_days data.
Proof.
  unfold durations. induction data as [|r data IH]; [reflexivity|].
  rewrite fmap_cons, filter_cons, descriptive_duration, projectDurationDays_days.
  simpl omap. destruct (duration_days r) as [d|]; cbn [from_option isFinite].
  - rewrite decide_True by reflexivity. rewrite IH. reflexivity.
  - rewrite decide_False by discriminate. exact IH.
Qed.

(** X27.  The duration of a project runs from its start to its actual end
    as soon as the actual end is filled in, and to its planned end
    otherwise: NaN when one of the two dates is missing or does not parse
    (an actual end that does not parse is not replaced by the planned
    end).  The scatter chart holds one point for every project that has
    such a duration, a finite positive budget and a finite cost, in the
    order of the rows; the average-duration KPI is the mean of the
    durations, undefined when no project has one. *)
Theorem durations_and_scatter (projects : list project) :
  (forall r, projectDurationDays r = from_option Num NaN (duration_days r)) /\
  scatterPoints projects = omap scatter_point projects /\
  avgDuration projects = mean_if_any (omap duration_days projects).
Proof.
  split; [exact projectDurationDays_days|]. split.
  - unfold scatterPoints. apply omap_ext_eq. intros r. unfold scatter_point.
    rewrite projectDurationDays_days, ratio_of_row.
    destruct (duration_days r) as [d|]; cbn [from_option isFinite negb orb];
      [|reflexivity].
    destruct (budget_and_cost r) as [p|]; reflexivity.
  - unfold avgDuration. rewrite durations_days. apply d3_mean_Num.
Qed.

End Durations.

(* ===================================================================== *)
(** ** Worked examples *)
(* ===================================================================== *)

Section WorkedExamples.
Import JS Data Spec Predictive Prescriptive Diagnostic Descriptive.
Local Open Scope R_scope.

(** Two projects that start in March 2022 and one that starts in 2021:
    the count of March 2022 is 2. *)
Lemma counts_by_month_witness :
  let rows := [Project "P1" (iso 2022 3 10) (iso 2023 1 1) Blank (Num 100) (Num 90);
               Project "P2" (iso 2021 3 10) (iso 2023 1 1) Blank (Num 100) (Num 90);
               Project "P3" (iso 2022 3 31) (iso 2023 1 1) Blank (Num 100) (Num 90)] in
  (2 < 12)%nat /\
  rollupCountByMonth rows 2022 !! 2%nat = Some (of_nat 2).
Proof.
  intros rows. split; [lia|].
  destruct (counts_by_month 2022) as [H _].
  destruct (H rows) as (_ & Hc & _).
  rewrite (Hc 2%nat ltac:(lia)). reflexivity.
Defined.

(** Two change orders of March 2021, one of them without a finite cost:
    the cost of March 2021 is the cost of the other one. *)
Lemma coCostByMonth_total_witness :
  let rows := [ChangeOrder "P1" (Num 250) "Scope Change" (iso 2021 3 1);
               ChangeOrder "P1" NaN "Scope Change" (iso 2021 3 2)] in
  (2 < 12)%nat /\
  coCostByMonth rows 2021 !! 2%nat = Some (Num (Rsum [250])).
Proof.
  intros rows. split; [lia|].
  destruct (coCostByMonth_total rows 2021) as [_ Hc].
  rewrite (Hc 2%nat ltac:(lia)). reflexivity.
Defined.

(** Two projects of January 2022 with the costs 90 and 110: the mean of
    January is the mean of the two costs. *)
Lemma rollupAvgByMonth_mean_witness :
  let rows := [Project "P1" (iso 2022 1 10) (iso 2023 1 1) Blank (Num 100) (Num 90);
               Project "P2" (iso 2022 1 20) (iso 2023 1 1) Blank (Num 100) (Num 110)] in
  (0 < 12)%nat /\
  rollupAvgByMonth rows 2022 actual_cost !! 0%nat = Some (Num (Rmean [90; 110])).
Proof.
  intros rows. split; [lia|].
  destruct (rollupAvgByMonth_mean rows 2022 actual_cost) as (_ & Hm & _).
  rewrite (Hm 0%nat ltac:(lia)). reflexivity.
Defined.

(** The documented example scores 100, a whole number. *)
Lemma ruleRiskScore_at_most_100_witness :
  let p := Project "P1" (iso 2022 1 10) (iso 2023 1 1) (iso 2023 2 15)
                   (Num 1000000) (Num 1200000) in
  ruleRiskScore p ∅ = Num 100 /\
  exists k : Z, 100 = IZR k /\ (k <= 100)%Z.
Proof.
  intros p. split; [exact rule_score_example|].
  exact (proj2 (ruleRiskScore_at_most_100 p ∅) 100 rule_score_example).
Defined.

(** A cohort of one project, whatever the random draw *)
Lemma computeRiskScores_range_witness :
  exists v,
    computeRiskScores (fun _ => 0) [in_flight "A" 1 1] ∅ !! "A" = Some v /\
    NaN_or_0_100 v.
Proof.
  apply (proj1 (computeRiskScores_range (fun _ => 0) [in_flight "A" 1 1] ∅)
               (in_flight "A" 1 1)); [left|discriminate].
Defined.

(** One project with one change order: it is counted in bin 1. *)
Lemma coFrequencyHistogram_counts_witness :
  let projects := [Project "P1" (iso 2022 1 10) (iso 2023 1 1) Blank (Num 100) (Num 90)] in
  let coRows := [ChangeOrder "P1" (Num 250) "Scope Change" (iso 2022 3 1)] in
  (1 < 6)%nat /\
  coFrequencyHistogram projects coRows !! 1%nat = Some (of_nat 1).
Proof.
  intros projects coRows. split; [lia|].
  destruct (coFrequencyHistogram_counts projects coRows) as (_ & Hc & _).
  rewrite (Hc 1%nat ltac:(lia)). reflexivity.
Defined.

(** *** Ids that name a member of [Object.prototype] *)

(** A project whose id is "constructor", without change orders of its own:
    the total read for it is the inherited member, and the rule score is
    NaN; a change order filed under that id stores no number. *)
Lemma member_id_rule_score :
  let p := Project "constructor" (iso 2022 1 10) (iso 2023 1 1) Blank
                   (Num 250000) (Num 240000) in
  let cos := [ChangeOrder "constructor" (Num 5) "Scope Change" (iso 2022 3 1)] in
  ruleRiskScore p ∅ = NaN /\
  changeOrderTotalsByProject cos = ∅ /\
  ruleRiskScore p (changeOrderTotalsByProject cos) = NaN.
Proof.
  intros p cos.
  assert (H : ruleRiskScore p ∅ = NaN).
  { unfold ruleRiskScore.
    replace (Number (or_num (get ∅ (project_id p)) (Num 0))) with NaN
      by reflexivity.
    cbn [mul]. rewrite add_NaN_r. reflexivity. }
  assert (Hc : changeOrderTotalsByProject cos = ∅) by reflexivity.
  split; [exact H|]. split; [exact Hc|]. rewrite Hc. exact H.
Qed.

Lemma member_id_raw (id : string) (b c : R) :
  inherited id = true -> raw_composite (in_flight id b c) ∅ = NaN.
Proof.
  intros Hid. unfold raw_composite.
  replace (Number (or_num (get ∅ (project_id (in_flight id b c))) (Num 0)))
    with NaN
    by (unfold get; cbn [in_flight project_id]; rewrite lookup_empty, Hid;
        reflexivity).
  replace (Math_max (Num 0) NaN) with NaN by reflexivity.
  replace (div NaN (Math_max (Num 1) (planned_budget (in_flight id b c))))
    with NaN by (cbn [in_flight planned_budget]; rewrite Math_max_Num; reflexivity).
  replace (add (Num 1) NaN) with NaN by reflexivity.
  replace (Math_log10 NaN) with NaN by reflexivity.
  replace (mul (Num 22) NaN) with NaN by reflexivity.
  rewrite add_NaN_r. reflexivity.
Qed.

(** The cohort of a project "constructor" and a project "B", without
    change orders and without jitter: the first score is NaN, the second
    is 0. *)
Lemma member_id_spread_scores :
  let rnd : rng := fun _ => 1 / 2 in
  computeRiskScores rnd [in_flight "constructor" 1 1; in_flight "B" 10 10] ∅
  = {[ "constructor" := NaN; "B" := Num 0 ]}.
Proof.
  intros rnd. unfold computeRiskScores.
  cbn [fmap list_fmap fst snd].
  rewrite (member_id_raw "constructor" 1 1) by reflexivity.
  rewrite (raw_composite_finite ∅ (in_flight "B" 10 10))
    by (apply in_flight_finite; reflexivity).
  set (x := computed_raw ∅ (in_flight "B" 10 10)).
  assert (Hmin : d3_min [NaN; Num x] = Some (Num x)).
  { unfold d3_min. cbn [foldl ge le]. rewrite (proj2 (Rleb_true x x)) by lra.
    reflexivity. }
  assert (Hmax : d3_max [NaN; Num x] = Some (Num x)).
  { unfold d3_max. cbn [foldl ge le]. rewrite (proj2 (Rleb_true x x)) by lra.
    reflexivity. }
  rewrite Hmin, Hmax.
  cbn [to_num default from_option Datatypes.id sub neg add].
  replace (x + - x) with 0 by lra.
  assert (Hspan : or_else (Num 0) (Num 1) = Num 1)
    by (unfold or_else, truthy; rewrite Reqb_refl; reflexivity).
  rewrite Hspan. cbn [foldl fst snd in_flight project_id].
  rewrite !put_storable by discriminate.
  rewrite !(no_jitter_zero rnd _ no_jitter_half).
  cbn [sub neg add]. rewrite div_Num by lra. cbn [mul add div].
  rewrite clamp_Num.
  replace (Rmax 0 (Rmin 100 ((x + - x) / 1 * 100 + 0))) with 0.
  2:{ replace ((x + - x) / 1 * 100 + 0) with 0 by (unfold Rdiv; lra).
      rewrite Rmin_right, Rmax_left by lra. reflexivity. }
  rewrite insert_empty. reflexivity.
Qed.

(** A project whose id is "__proto__" gets no score. *)
Lemma proto_id_gets_no_score :
  computeRiskScores (fun _ => 1 / 2) [in_flight "__proto__" 1 1] ∅ = ∅.
Proof. reflexivity. Qed.

(** A project "constructor" is counted in no bin of the frequency
    histogram, with or without change orders filed under its id. *)
Lemma member_id_in_no_bin :
  let p := in_flight "constructor" 1 1 in
  let co := ChangeOrder "constructor" (Num 5) "Scope Change" (iso 2022 3 1) in
  coFrequencyHistogram [p] [] = replicate 6 (Num 0) /\
  coFrequencyHistogram [p] [co] = replicate 6 (Num 0).
Proof. split; reflexivity. Qed.

(** A project "constructor" that has overrun its budget: both sums of its
    bucket are NaN. *)
Lemma member_id_attribution :
  let p := Project "constructor" (iso 2022 1 10) (iso 2023 1 1) Blank
                   (Num 100) (Num 150) in
  overrunAttribution_out [p] [] true = {[ Some 2022%Z := (NaN, NaN) ]}.
Proof.
  intros p. unfold overrunAttribution_out. cbn [foldl].
  rewrite attribution_step_cases.
  assert (Hk : overrun_key true p = Some (Some 2022%Z)).
  { unfold overrun_key. cbn [p planned_budget actual_cost].
    rewrite decide_True by lra. reflexivity. }
  rewrite Hk.
  destruct (attributed_parts_member [] p) as [-> ->]; [reflexivity|].
  rewrite lookup_empty. cbn [default from_option Datatypes.id fst snd add].
  rewrite insert_empty. reflexivity.
Qed.

End WorkedExamples.
